(** * MyTypist document core: a shallow embedding of [app.py]

    The file embeds the document-processing core of the application
    (token extraction, catalog naming, input validation, value
    transformation, single generation and batch generation) and proves the
    properties stated for it.

    Layout: Part I holds the definitions, in the order of [app.py];
    Part II holds the lemmas and the theorems. *)

From Stdlib Require Import ZArith NArith List String Ascii Lia Bool Sorted.
From stdpp Require Import base option list gmap.

Set Default Goal Selector "!".
Local Open Scope N_scope.

(* ===================================================================== *)
(** * Part I.  Definitions *)
(* ===================================================================== *)

(** ** Python [str] values

    A Python string is a sequence of Unicode code points.  Literals of the
    source are written with [lit]. *)

Definition char : Type := N.
Definition str : Type := list char.

Definition lit (s : string) : str := map N_of_ascii (list_ascii_of_string s).

Definition NL : char := 10.       (* "\n" *)
Definition COMMA : char := 44.    (* "," *)
Definition DOT : char := 46.      (* "." *)
Definition SPACE : char := 32.    (* " " *)
Definition UNDERSCORE : char := 95.

(** The rows of the Unicode character database beyond the Basic Latin
    block.  The interpreter ships them; the application does not.  Every
    definition below is parametric in them, and the Basic Latin rows are
    fixed here. *)
Class UnicodeData := {
  ud_isspace : char -> bool;
  ud_isalnum : char -> bool;
  ud_isdecimal : char -> bool;
  ud_isupper : char -> bool;
  ud_islower : char -> bool;
  ud_istitle : char -> bool;
  ud_iscased : char -> bool;
  ud_iscase_ignorable : char -> bool;
  ud_tolower : char -> list char;
  ud_toupper : char -> list char;
  ud_totitle : char -> list char
}.

Fixpoint dropwhile_b {A} (p : A -> bool) (l : list A) : list A :=
  match l with
  | x :: l' => if p x then dropwhile_b p l' else l
  | [] => []
  end.

Definition in_range (lo hi c : char) : bool := (lo <=? c) && (c <=? hi).
Definition is_ascii (c : char) : bool := c <? 128.

Definition ascii_isupper (c : char) : bool := in_range 65 90 c.
Definition ascii_islower (c : char) : bool := in_range 97 122 c.
Definition ascii_isalpha (c : char) : bool := ascii_isupper c || ascii_islower c.
Definition ascii_isdigit (c : char) : bool := in_range 48 57 c.
Definition ascii_isspace (c : char) : bool :=
  in_range 9 13 c || in_range 28 32 c.
Definition ascii_iscase_ignorable (c : char) : bool :=
  (c =? 39) || (c =? 46) || (c =? 58) || (c =? 94) || (c =? 96).
Definition ascii_tolower (c : char) : char := if ascii_isupper c then c + 32 else c.
Definition ascii_toupper (c : char) : char := if ascii_islower c then c - 32 else c.

Section Unicode.
Context {U : UnicodeData}.

Definition isspace (c : char) : bool :=
  if is_ascii c then ascii_isspace c else ud_isspace c.
Definition isalnum (c : char) : bool :=
  if is_ascii c then ascii_isalpha c || ascii_isdigit c else ud_isalnum c.
Definition isdecimal (c : char) : bool :=
  if is_ascii c then ascii_isdigit c else ud_isdecimal c.
Definition isupper_char (c : char) : bool :=
  if is_ascii c then ascii_isupper c else ud_isupper c.
Definition islower_char (c : char) : bool :=
  if is_ascii c then ascii_islower c else ud_islower c.
Definition istitle_char (c : char) : bool :=
  if is_ascii c then false else ud_istitle c.
Definition iscased (c : char) : bool :=
  if is_ascii c then ascii_isalpha c else ud_iscased c.
Definition iscase_ignorable (c : char) : bool :=
  if is_ascii c then ascii_iscase_ignorable c else ud_iscase_ignorable c.
Definition tolower_full (c : char) : list char :=
  if is_ascii c then [ascii_tolower c] else ud_tolower c.
Definition toupper_full (c : char) : list char :=
  if is_ascii c then [ascii_toupper c] else ud_toupper c.
Definition totitle_full (c : char) : list char :=
  if is_ascii c then [ascii_toupper c] else ud_totitle c.

(** The regular-expression class [\w]: alphanumeric or underscore. *)
Definition isword (c : char) : bool := isalnum c || (c =? UNDERSCORE).

(** [str.upper]. *)
Definition upper (s : str) : str := flat_map toupper_full s.

(** [str.lower].  U+03A3 is lowered by context (the final-sigma rule):
    [before] is the text to the left, nearest character first, and
    [after] the text to the right. *)
Definition SIGMA : char := 931.
Definition final_sigma (before after : str) : bool :=
  match dropwhile_b iscase_ignorable before with
  | c :: _ =>
      iscased c &&
      match dropwhile_b iscase_ignorable after with
      | d :: _ => negb (iscased d)
      | [] => true
      end
  | [] => false
  end.
Definition lower_at (before : str) (c : char) (after : str) : list char :=
  if c =? SIGMA then [if final_sigma before after then 962 else 963]
  else tolower_full c.
Fixpoint lower_go (before s : str) : str :=
  match s with
  | [] => []
  | c :: s' => lower_at before c s' ++ lower_go (c :: before) s'
  end.
Definition lower (s : str) : str := lower_go [] s.

(** [str.title]: a character is title-cased when the character before it
    is not cased, and lowered otherwise. *)
Fixpoint title_go (previous_is_cased : bool) (before s : str) : str :=
  match s with
  | [] => []
  | c :: s' =>
      (if previous_is_cased then lower_at before c s' else totitle_full c)
        ++ title_go (iscased c) (c :: before) s'
  end.
Definition title (s : str) : str := title_go false [] s.

(** [str.isupper]: at least one upper-case character and no lower-case or
    title-case one. *)
Fixpoint isupper_go (cased : bool) (s : str) : bool :=
  match s with
  | [] => cased
  | c :: s' =>
      if islower_char c || istitle_char c then false
      else isupper_go (cased || isupper_char c) s'
  end.
Definition isupper (s : str) : bool :=
  match s with
  | [c] => isupper_char c
  | _ => isupper_go false s
  end.

(** [str.strip] with no argument. *)
Definition lstrip (s : str) : str := dropwhile_b isspace s.
Definition rstrip (s : str) : str := rev (dropwhile_b isspace (rev s)).
Definition strip (s : str) : str := rstrip (lstrip s).
End Unicode.

(** ** String operations that do not depend on the character database *)

Fixpoint startswith (prefix s : str) : bool :=
  match prefix, s with
  | [], _ => true
  | p :: prefix', c :: s' => (p =? c) && startswith prefix' s'
  | _ :: _, [] => false
  end.

Definition endswith (suffix s : str) : bool := startswith (rev suffix) (rev s).

Definition str_eqb (a b : str) : bool := bool_decide (a = b).

(** [sub in s]. *)
Fixpoint contains (sub s : str) : bool :=
  startswith sub s ||
  match s with
  | [] => false
  | _ :: s' => contains sub s'
  end.

(** [s.split(sep)] for a non-empty separator: the pieces between the
    leftmost non-overlapping occurrences of [sep].  [skip] counts the
    characters of an occurrence still to pass and [piece] is the current
    piece, last character first. *)
Fixpoint split_go (sep : str) (skip : nat) (piece : str) (s : str) : list str :=
  match s with
  | [] => [rev piece]
  | c :: s' =>
      match skip with
      | S k => split_go sep k piece s'
      | O =>
          if startswith sep s
          then rev piece :: split_go sep (pred (length sep)) [] s'
          else split_go sep 0%nat (c :: piece) s'
      end
  end.
Definition split (sep s : str) : list str := split_go sep 0%nat [] s.

(** [sep.join(parts)]. *)
Fixpoint join (sep : str) (parts : list str) : str :=
  match parts with
  | [] => []
  | [p] => p
  | p :: rest => p ++ sep ++ join sep rest
  end.

(** [s.replace(a, b)] for single characters. *)
Definition replace_char (a b : char) (s : str) : str :=
  map (fun c => if c =? a then b else c) s.

(** [str(n)] for an integer. *)
Fixpoint uint_digits (u : Decimal.uint) : str :=
  match u with
  | Decimal.Nil => []
  | Decimal.D0 u => 48 :: uint_digits u
  | Decimal.D1 u => 49 :: uint_digits u
  | Decimal.D2 u => 50 :: uint_digits u
  | Decimal.D3 u => 51 :: uint_digits u
  | Decimal.D4 u => 52 :: uint_digits u
  | Decimal.D5 u => 53 :: uint_digits u
  | Decimal.D6 u => 54 :: uint_digits u
  | Decimal.D7 u => 55 :: uint_digits u
  | Decimal.D8 u => 56 :: uint_digits u
  | Decimal.D9 u => 57 :: uint_digits u
  end.
Definition str_of_int (z : Z) : str :=
  match Z.to_int z with
  | Decimal.Pos u => uint_digits u
  | Decimal.Neg u => 45 :: uint_digits u
  end.

(** ** The regular expressions of the application ([re])

    A backtracking matcher: [rmatch r prev s] lists, in the order in which
    the engine tries them, the ways [r] matches a prefix of [s], each as the
    matched text, the captured groups and the remaining text.  [prev] is
    the character before the position (for [\b]).  The engine reports the
    first way. *)

Inductive cls := ClsSpace | ClsWord | ClsDigit.

Inductive regex :=
| RLit (c : char)              (* a literal character *)
| RCls (k : cls)               (* \s, \w, \d *)
| RStar (k : cls)              (* greedy k* *)
| RPlus (k : cls)              (* greedy k+ *)
| RSeq (r1 r2 : regex)
| RAlt (r1 r2 : regex)
| RGroup (r : regex)           (* ( r ) *)
| RWordBoundary.               (* \b *)

Record Match := { m_start : nat; m_text : str; m_groups : list str }.

(** Greedy repetition of a class: the longest run first, then shorter. *)
Fixpoint star_runs (p : char -> bool) (s : str) : list (str * str) :=
  match s with
  | c :: s' =>
      if p c
      then map (fun '(m, r) => (c :: m, r)) (star_runs p s') ++ [([], s)]
      else [([], s)]
  | [] => [([], [])]
  end.

Definition plus_runs (p : char -> bool) (s : str) : list (str * str) :=
  match s with
  | c :: s' => if p c then map (fun '(m, r) => (c :: m, r)) (star_runs p s') else []
  | [] => []
  end.

Definition prev_after (prev : option char) (m : str) : option char :=
  match last m with
  | Some c => Some c
  | None => prev
  end.

Section Regex.
Context {U : UnicodeData}.

Definition in_cls (k : cls) (c : char) : bool :=
  match k with
  | ClsSpace => isspace c
  | ClsWord => isword c
  | ClsDigit => isdecimal c
  end.

Definition is_word_opt (o : option char) : bool :=
  match o with
  | Some c => isword c
  | None => false
  end.

Fixpoint rmatch (r : regex) (prev : option char) (s : str)
  : list (str * list str * str) :=
  match r with
  | RLit c =>
      match s with
      | d :: s' => if c =? d then [([d], [], s')] else []
      | [] => []
      end
  | RCls k =>
      match s with
      | d :: s' => if in_cls k d then [([d], [], s')] else []
      | [] => []
      end
  | RStar k => map (fun '(m, rest) => (m, [], rest)) (star_runs (in_cls k) s)
  | RPlus k => map (fun '(m, rest) => (m, [], rest)) (plus_runs (in_cls k) s)
  | RSeq r1 r2 =>
      flat_map
        (fun '(m1, g1, s1) =>
           map (fun '(m2, g2, s2) => (m1 ++ m2, g1 ++ g2, s2))
               (rmatch r2 (prev_after prev m1) s1))
        (rmatch r1 prev s)
  | RAlt r1 r2 => rmatch r1 prev s ++ rmatch r2 prev s
  | RGroup r1 =>
      map (fun '(m, g, rest) => (m, m :: g, rest)) (rmatch r1 prev s)
  | RWordBoundary =>
      if xorb (is_word_opt prev) (is_word_opt (head s)) then [([], [], s)] else []
  end.

(** The match the engine reports at one position.  Both patterns of the
    application begin with a mandatory character, so a match is never
    empty; the drivers below pass over an empty one. *)
Definition match_at (r : regex) (prev : option char) (s : str)
  : option (str * list str) :=
  match rmatch r prev s with
  | (c :: m, g, _) :: _ => Some (c :: m, g)
  | _ => None
  end.

(** [re.finditer(r, text)]: the leftmost non-overlapping matches. *)
Fixpoint finditer_go (r : regex) (skip pos : nat) (prev : option char) (s : str)
  : list Match :=
  match s with
  | [] => []
  | c :: s' =>
      match skip with
      | S k => finditer_go r k (S pos) (Some c) s'
      | O =>
          match match_at r prev s with
          | Some (m, g) =>
              {| m_start := pos; m_text := m; m_groups := g |}
                :: finditer_go r (pred (length m)) (S pos) (Some c) s'
          | None => finditer_go r 0%nat (S pos) (Some c) s'
          end
      end
  end.
Definition finditer (r : regex) (text : str) : list Match :=
  finditer_go r 0%nat 0%nat None text.

(** [re.sub(r, repl, text)] with a function as replacement. *)
Fixpoint sub_go (r : regex) (repl : str -> list str -> str)
         (skip : nat) (prev : option char) (s : str) : str :=
  match s with
  | [] => []
  | c :: s' =>
      match skip with
      | S k => sub_go r repl k (Some c) s'
      | O =>
          match match_at r prev s with
          | Some (m, g) => repl m g ++ sub_go r repl (pred (length m)) (Some c) s'
          | None => c :: sub_go r repl 0%nat (Some c) s'
          end
      end
  end.
Definition re_sub (r : regex) (repl : str -> list str -> str) (text : str) : str :=
  sub_go r repl 0%nat None text.
End Regex.

(** ** Results of calls that may raise *)

Inductive exn_kind := ValueError | NotFound | OtherError.

Record exn := { exn_kind_of : exn_kind; exn_message : str }.

Inductive result (A : Type) :=
| Ok (a : A)
| Raise (e : exn).
Arguments Ok {A} a.
Arguments Raise {A} e.

Definition bind {A B} (r : result A) (k : A -> result B) : result B :=
  match r with
  | Ok a => k a
  | Raise e => Raise e
  end.
#[global] Instance result_ret : MRet result := fun A a => Ok a.
#[global] Instance result_bind : MBind result := fun A B k r => bind r k.

(** ** [fix_date_ordinal_casing] (app.py, lines 1034-1051) *)

(** The pattern [(\d+)(Th|St|Nd|Rd)\b]. *)
Definition rlit2 (a b : char) : regex := RSeq (RLit a) (RLit b).
Definition ordinal_suffix_re : regex :=
  RSeq (RGroup (RPlus ClsDigit))
       (RSeq (RGroup (RAlt (rlit2 84 104)            (* Th *)
                     (RAlt (rlit2 83 116)            (* St *)
                     (RAlt (rlit2 78 100)            (* Nd *)
                           (rlit2 82 100)))))        (* Rd *)
             RWordBoundary).

Section Casing.
Context {U : UnicodeData}.

(** [lambda m: m.group(1) + m.group(2).lower()]. *)
Definition ordinal_repl (m : str) (groups : list str) : str :=
  nth 0 groups [] ++ lower (nth 1 groups []).

Definition fix_date_ordinal_casing (text : str) : str :=
  if isupper text then text
  else re_sub ordinal_suffix_re ordinal_repl text.

(** [DocumentProcessor.apply_casing] (lines 427-435). *)
Definition apply_casing (value casing : str) : str :=
  if str_eqb casing (lit "upper") then upper value
  else if str_eqb casing (lit "lower") then lower value
  else if str_eqb casing (lit "title") then title value
  else value.
End Casing.

(** [DocumentProcessor.ordinal] (lines 384-390). *)
Definition ordinal (n : Z) : str :=
  let suffix :=
    if ((11 <=? n mod 100) && (n mod 100 <=? 13))%Z then lit "th"
    else nth (Z.to_nat (Z.min (n mod 10) 4))
             [lit "th"; lit "st"; lit "nd"; lit "rd"; lit "th"] [] in
  str_of_int n ++ suffix.

Section Address.
Context {U : UnicodeData}.

(** [for i in range(len(lines) - 1): lines[i] += ','] *)
Fixpoint add_commas (lines : list str) : list str :=
  match lines with
  | [] => []
  | [l] => [l]
  | l :: rest => (l ++ [COMMA]) :: add_commas rest
  end.

(** [if not lines[-1].endswith('.'): lines[-1] += '.'] *)
Fixpoint end_with_period (lines : list str) : list str :=
  match lines with
  | [] => []
  | [l] => [if endswith [DOT] l then l else l ++ [DOT]]
  | l :: rest => l :: end_with_period rest
  end.

(** [while address.endswith('.'): address = address[:-1].strip()].
    Each round removes a character, so the length bounds the rounds. *)
Fixpoint strip_periods (fuel : nat) (address : str) : str :=
  match fuel with
  | O => address
  | S fuel' =>
      if endswith [DOT] address
      then strip_periods fuel' (strip (removelast address))
      else address
  end.

(** [DocumentProcessor.format_address] (lines 392-425). *)
Definition format_address (address_string template_type : str) : str :=
  if str_eqb address_string [] || str_eqb (strip address_string) []
  then address_string
  else
    let address := strip address_string in
    if str_eqb (lower template_type) (lit "letter") then
      let lines := map strip (split [COMMA] address) in
      let lines := List.filter (fun l => negb (str_eqb l [])) lines in
      match lines with
      | _ :: _ => join [NL] (end_with_period (add_commas lines))
      | [] => address
      end
    else if str_eqb (lower template_type) (lit "affidavit") then
      strip_periods (length address) address
    else address.
End Address.

(** ** The document markup ([xml.etree.ElementTree])

    The parsed [word/document.xml]: an element has a qualified tag, its
    attributes, its text (absent or a string) and its children.  Qualified
    names of the word-processing namespace are written [w:p], [w:r], ... *)

#[warnings="-register-all"]
Inductive element :=
| Element (tag : str) (attrib : list (str * str)) (text : option str)
          (children : list element).

Definition tag_of (e : element) : str := let 'Element t _ _ _ := e in t.
Definition text_of (e : element) : option str := let 'Element _ _ t _ := e in t.
Definition attrib_of (e : element) : list (str * str) := let 'Element _ a _ _ := e in a.

(** The elements below [e], in document order, [e] excluded. *)
Fixpoint descendants (e : element) : list element :=
  match e with
  | Element _ _ _ children => List.flat_map (fun c => c :: descendants c) children
  end.

(** [e.findall('.//tag')] and [e.find('.//tag')]. *)
Definition findall (e : element) (tag : str) : list element :=
  List.filter (fun d => str_eqb (tag_of d) tag) (descendants e).
Definition find_first (e : element) (tag : str) : option element :=
  head (findall e tag).

(** [e.get(key)]. *)
Fixpoint assoc_get {V} (key : str) (l : list (str * V)) : option V :=
  match l with
  | [] => None
  | (k, v) :: l' => if str_eqb k key then Some v else assoc_get key l'
  end.
Definition get_attr (e : element) (key : str) : option str :=
  assoc_get key (attrib_of e).

(** Conversions of the interpreter and of its library that the
    application calls on arbitrary text: [int(s)], absent when it raises
    [ValueError], and [re.match(pattern, value)] as a truth value. *)
Class Interpreter := {
  int_of_str : str -> option Z;
  re_match : str -> str -> bool
}.

(** ** [DocumentProcessor.extract_template_variables] (lines 144-251) *)

Record Formatting := {
  fmt_bold : bool;
  fmt_italic : bool;
  fmt_underline : bool;
  fmt_font : option str;
  fmt_size : option Z
}.

Record Occurrence := {
  occ_name : str;
  occ_paragraph_index : nat;
  occ_run_index : nat;
  occ_formatting : Formatting;
  occ_alignment : option str
}.

(** The pattern [\{\{\s*(\w+)\s*\}\}]. *)
Definition placeholder_re : regex :=
  RSeq (RLit 123) (RSeq (RLit 123)
  (RSeq (RStar ClsSpace)
  (RSeq (RGroup (RPlus ClsWord))
  (RSeq (RStar ClsSpace)
  (RSeq (RLit 125) (RLit 125)))))).

(** [cum_pos = [0]; for rt in runs_text: cum_pos.append(cum_pos[-1] + len(rt))] *)
Fixpoint cum_pos_from (acc : nat) (runs_text : list str) : list nat :=
  match runs_text with
  | [] => [acc]
  | rt :: rest => acc :: cum_pos_from (acc + length rt)%nat rest
  end.
Definition cum_pos (runs_text : list str) : list nat := cum_pos_from 0%nat runs_text.

(** The loop [for idx in range(len(runs_text))] that looks for the run of
    [start_pos]: [idx] is the current index, [count] the indices left. *)
Fixpoint find_run (cp : list nat) (start_pos idx count : nat) : option nat :=
  match count with
  | O => None
  | S count' =>
      if (nth idx cp 0 <=? start_pos)%nat && (start_pos <? nth (S idx) cp 0)%nat
      then Some idx
      else find_run cp start_pos (S idx) count'
  end.

Definition is_some {A} (o : option A) : bool :=
  match o with Some _ => true | None => false end.

Section Extraction.
Context {U : UnicodeData} {I : Interpreter}.

(** [''.join(t.text or '' for t in run.findall('.//w:t'))] *)
Definition run_text (run : element) : str :=
  concat (map (fun t => default [] (text_of t)) (findall run (lit "w:t"))).

Definition paragraph_alignment (para : element) : option str :=
  match find_first para (lit "w:pPr") with
  | Some para_props =>
      match find_first para_props (lit "w:jc") with
      | Some jc => get_attr jc (lit "w:val")
      | None => None
      end
  | None => None
  end.

(** The formatting read from the properties of one run. *)
Definition run_formatting (run : element) : Formatting :=
  match find_first run (lit "w:rPr") with
  | Some run_props =>
      {| fmt_bold := is_some (find_first run_props (lit "w:b"));
         fmt_italic := is_some (find_first run_props (lit "w:i"));
         fmt_underline := is_some (find_first run_props (lit "w:u"));
         fmt_font :=
           match find_first run_props (lit "w:rFonts") with
           | Some font => get_attr font (lit "w:ascii")
           | None => None
           end;
         fmt_size :=
           match find_first run_props (lit "w:sz") with
           | Some size =>
               match get_attr size (lit "w:val") with
               | Some v =>
                   match int_of_str v with
                   | Some n => Some (n / 2)%Z
                   | None => None
                   end
               | None => None
               end
           | None => None
           end |}
  | None =>
      {| fmt_bold := false; fmt_italic := false; fmt_underline := false;
         fmt_font := None; fmt_size := None |}
  end.

(** The body of [for match in matches]: nothing is appended when no run
    is found (the [continue]). *)
Definition occurrence_of_match (para_idx : nat) (para_alignment : option str)
           (runs : list element) (runs_text : list str) (m : Match)
  : list Occurrence :=
  let var_name := nth 0 (m_groups m) [] in
  match find_run (cum_pos runs_text) (m_start m) 0 (length runs_text) with
  | None => []
  | Some run_idx =>
      match nth_error runs run_idx with
      | Some run =>
          [{| occ_name := var_name;
              occ_paragraph_index := para_idx;
              occ_run_index := run_idx;
              occ_formatting := run_formatting run;
              occ_alignment := para_alignment |}]
      | None => []
      end
  end.

(** The body of [for para_idx, para in enumerate(paragraphs)]. *)
Definition paragraph_occurrences (para_idx : nat) (para : element)
  : list Occurrence :=
  let para_alignment := paragraph_alignment para in
  let runs := findall para (lit "w:r") in
  let runs_text := map run_text runs in
  let full_text := concat runs_text in
  let matches := finditer placeholder_re full_text in
  List.flat_map (occurrence_of_match para_idx para_alignment runs runs_text) matches.

Fixpoint paragraphs_occurrences (para_idx : nat) (paragraphs : list element)
  : list Occurrence :=
  match paragraphs with
  | [] => []
  | para :: rest =>
      paragraph_occurrences para_idx para ++ paragraphs_occurrences (S para_idx) rest
  end.

Definition extract_template_variables (root : element) : list Occurrence :=
  paragraphs_occurrences 0 (findall root (lit "w:p")).
End Extraction.

(** ** The records of the store (lines 63-138) *)

Record Placeholder := {
  ph_name : str;
  ph_display_name : option str;
  ph_placeholder_type : str;
  ph_is_required : bool;
  ph_options : list str;
  ph_help_text : str;
  ph_sort_order : Z;
  ph_bold : bool;
  ph_italic : bool;
  ph_underline : bool;
  ph_casing : str;
  ph_font_family : option str;
  ph_font_size : option Z;
  ph_alignment : option str;
  ph_paragraph_index : nat;
  ph_run_index : nat;
  ph_validation_pattern : option str;
  ph_default_value : option str
}.

(** The margins of a template are read only by the external
    post-adjustment of a rendered document, which receives the template. *)
Record Template := {
  t_id : Z;
  t_name : str;
  t_type : str;
  t_file_path : str;
  t_font_family : str;
  t_font_size : Z;
  t_placeholders : list Placeholder
}.

(** ** Naming rules of the catalog (lines 271-285 and 437-536) *)

Section Catalog.
Context {U : UnicodeData}.

(** [any(x in name_lower for x in words)] *)
Definition any_in (words : list string) (name_lower : str) : bool :=
  existsb (fun x => contains (lit x) name_lower) words.

Definition detect_variable_type (var_name : str) : str :=
  let name_lower := lower var_name in
  if contains (lit "date") name_lower then lit "date"
  else if contains (lit "email") name_lower then lit "email"
  else if contains (lit "number") name_lower || contains (lit "amount") name_lower
          || contains (lit "reg_no") name_lower then lit "number"
  else if contains (lit "url") name_lower then lit "url"
  else if any_in ["gender"; "relation"; "he_she"; "his_her"; "he_she";
                  "relationship"; "religion"; "level"]%string name_lower
       then lit "option"
  else lit "text".

(** [var_name.replace('_', ' ').title()] *)
Definition humanize (var_name : str) : str :=
  title (replace_char UNDERSCORE SPACE var_name).

Definition get_smart_placeholder_default (var_name : str) : str :=
  let name_lower := lower var_name in
  if any_in ["name"; "full_name"; "student_name"; "applicant_name"; "name_1"]%string
            name_lower then lit "Joe Doe"
  else if any_in ["address"; "sender_address"; "my_address"; "location";
                  "residence"]%string name_lower
       then lit "24 Avenue Avenue, Osato Junction, Benin City, Edo State"
  else if contains (lit "street") name_lower then lit "24 Avenue Avenue"
  else if any_in ["city"; "town"]%string name_lower then lit "Benin City"
  else if contains (lit "state") name_lower then lit "Edo State"
  else if any_in ["department"; "dept"]%string name_lower
       then lit "Production Engineering"
  else if any_in ["faculty"]%string name_lower then lit "Engineering"
  else if any_in ["college"; "institution"; "university"; "school"]%string name_lower
       then lit "University of Benin"
  else if any_in ["mat_no"; "matric_no"; "reg_no"; "id"; "student_id";
                  "registration_number"]%string name_lower
       then lit "ENG2204223"
  else if contains (lit "gender") name_lower then lit "Male"
  else if any_in ["his_her"; "his_she"]%string name_lower then lit "his"
  else if any_in ["him_her"; "him_she"]%string name_lower then lit "him"
  else if any_in ["he_she"; "heshe"]%string name_lower then lit "he"
  else if any_in ["date"; "time"]%string name_lower then []
  else lit "Enter " ++ humanize var_name.

Definition get_smart_help_text (var_name : str) : str :=
  let name_lower := lower var_name in
  if any_in ["name"; "full_name"]%string name_lower
  then lit "Enter your full name (e.g., John Smith)"
  else if contains (lit "address") name_lower
       then lit "Enter your full address separated by commas"
  else if contains (lit "department") name_lower then lit "Enter your department name"
  else if contains (lit "faculty") name_lower then lit "Enter your faculty name"
  else if any_in ["mat_no"; "reg_no"; "jamb_reg_no"]%string name_lower
       then lit "Enter your matriculation/registration number"
  else if contains (lit "date") name_lower
       then lit "Leave blank for current date or enter custom date"
  else if contains (lit "gender") name_lower then lit "Select your gender"
  else if contains (lit "email") name_lower then lit "Enter your email address"
  else lit "Please enter " ++ lower (humanize var_name).

Definition get_smart_options (var_name : str) : list str :=
  let name_lower := lower var_name in
  if contains (lit "gender") name_lower then [lit "Male"; lit "Female"]
  else if contains (lit "his_her") name_lower then [lit "his"; lit "her"]
  else if contains (lit "him_her") name_lower then [lit "him"; lit "her"]
  else if contains (lit "he_she") name_lower then [lit "he"; lit "she"]
  else if contains (lit "religion") name_lower then [lit "Christian"; lit "Muslim"]
  else if any_in ["relationship"; "relation"]%string name_lower
       then [lit "son"; lit "daughter"; lit "niece"; lit "nephew";
             lit "brother"; lit "sister"]
  else [].

(** ** Template ingestion: the catalog loop of [admin_upload_template]
    (lines 1410-1453) *)

(** [instance_counters]: a [Counter], absent keys counting zero. *)
Definition counter_get (counters : gmap str nat) (k : str) : nat :=
  default 0%nat (counters !! k).

(** [f"{var_name}_instance_{n}"] *)
Definition instance_name_of (var_name : str) (n : nat) : str :=
  if (n =? 1)%nat then var_name
  else var_name ++ lit "_instance_" ++ str_of_int (Z.of_nat n).

Definition display_name_of (base_name : str) (n : nat) : str :=
  humanize base_name ++
  (if (1 <? n)%nat then lit " (Instance " ++ str_of_int (Z.of_nat n) ++ lit ")" else []).

(** The placeholder created for one occurrence; [i] is the running
    [sort_order] and [n] the count of the name so far. *)
Definition placeholder_of_occurrence (inst : Occurrence) (i : Z) (n : nat)
  : Placeholder :=
  let var_name := occ_name inst in
  let base_name := var_name in
  let var_type := detect_variable_type base_name in
  let formatting := occ_formatting inst in
  {| ph_name := instance_name_of var_name n;
     ph_display_name := Some (display_name_of base_name n);
     ph_placeholder_type := var_type;
     ph_is_required := true;
     ph_options :=
       if str_eqb var_type (lit "option") then get_smart_options base_name else [];
     ph_help_text := get_smart_help_text base_name;
     ph_sort_order := i;
     ph_bold := fmt_bold formatting;
     ph_italic := fmt_italic formatting;
     ph_underline := fmt_underline formatting;
     ph_casing := lit "none";
     ph_font_family := fmt_font formatting;
     ph_font_size := fmt_size formatting;
     ph_alignment := occ_alignment inst;
     ph_paragraph_index := occ_paragraph_index inst;
     ph_run_index := occ_run_index inst;
     ph_validation_pattern := None;
     ph_default_value := Some (get_smart_placeholder_default base_name) |}.

Fixpoint create_placeholders_go (instance_counters : gmap str nat) (i : Z)
         (placeholder_instances : list Occurrence) : list Placeholder :=
  match placeholder_instances with
  | [] => []
  | inst :: rest =>
      let var_name := occ_name inst in
      let n := S (counter_get instance_counters var_name) in
      placeholder_of_occurrence inst i n
        :: create_placeholders_go (<[var_name := n]> instance_counters) (i + 1)%Z rest
  end.

Definition create_placeholders (placeholder_instances : list Occurrence)
  : list Placeholder :=
  create_placeholders_go ∅ 0%Z placeholder_instances.
End Catalog.

(** ** [DocumentProcessor.validate_inputs] (lines 287-310) *)

(** [ph.name.split('_instance_')[0] if '_instance_' in ph.name else ph.name] *)
Definition base_name_of (name : str) : str :=
  if contains (lit "_instance_") name
  then nth 0 (split (lit "_instance_") name) []
  else name.

(** [grouped[base_name].append(ph)] on a [defaultdict(list)], which keeps
    its keys in the order of their first insertion. *)
Fixpoint group_add (base_name : str) (ph : Placeholder)
         (grouped : list (str * list Placeholder)) : list (str * list Placeholder) :=
  match grouped with
  | [] => [(base_name, [ph])]
  | (k, phs) :: rest =>
      if str_eqb k base_name then (k, phs ++ [ph]) :: rest
      else (k, phs) :: group_add base_name ph rest
  end.

Definition group_by_base_name (placeholders : list Placeholder)
  : list (str * list Placeholder) :=
  fold_left (fun grouped ph => group_add (base_name_of (ph_name ph)) ph grouped)
            placeholders [].

(** [min(phs, key=lambda p: p.sort_order)]: the first of the minimal ones. *)
Fixpoint min_by_sort_order (best : Placeholder) (rest : list Placeholder) : Placeholder :=
  match rest with
  | [] => best
  | p :: rest' =>
      min_by_sort_order (if (ph_sort_order p <? ph_sort_order best)%Z then p else best) rest'
  end.

(** [x or d] on an optional string: [d] when [x] is absent or empty. *)
Definition or_str (x : option str) (d : str) : str :=
  match x with
  | Some (c :: s) => c :: s
  | _ => d
  end.

(** The truth value of a string: non-empty. *)
Definition truthy (s : str) : bool := negb (str_eqb s []).

Section Validation.
Context {U : UnicodeData} {I : Interpreter}.

Definition required_error (base_name : str) (phs : list Placeholder) : list str :=
  match phs with
  | [] => []
  | p :: rest =>
      let first_ph := min_by_sort_order p rest in
      [or_str (ph_display_name first_ph) base_name ++ lit " is required"]
  end.

Definition pattern_error (base_name value : str) (ph : Placeholder) : list str :=
  match ph_validation_pattern ph with
  | Some (c :: pat) =>
      if re_match (c :: pat) value then []
      else [or_str (ph_display_name ph) base_name ++ lit " is invalid"]
  | _ => []
  end.

(** The body of [for base_name, phs in grouped.items()]. *)
Definition group_errors (user_inputs : gmap str str) (base_name : str)
           (phs : list Placeholder) : list str :=
  let value := default [] (user_inputs !! base_name) in
  (if existsb ph_is_required phs && negb (truthy (strip value))
   then required_error base_name phs else [])
  ++
  (if truthy (strip value)
   then List.flat_map (pattern_error base_name value) phs else []).

Definition validate_inputs (placeholders : list Placeholder)
           (user_inputs : gmap str str) : list str :=
  List.flat_map (fun '(base_name, phs) => group_errors user_inputs base_name phs)
                (group_by_base_name placeholders).
End Validation.

(** ** [DocumentProcessor.format_date] (lines 356-382) *)

(** A [datetime]: the civil fields and, for an aware value, its offset from
    UTC in minutes. *)
Record datetime := {
  dt_year : Z;
  dt_month : Z;
  dt_day : Z;
  dt_hour : Z;
  dt_minute : Z;
  dt_second : Z;
  dt_utcoffset : option Z
}.

(** What the date libraries provide: [dateutil.parser.parse], and for the
    zone Africa/Lagos of [pytz] the offset that [localize] finds in force
    at a local time and the conversion [astimezone] of an aware value.
    Each of the three calls may raise. *)
Class DateLibrary := {
  dateutil_parse : str -> result datetime;
  lagos_utcoffset : datetime -> result Z;
  astimezone_lagos : datetime -> result datetime
}.

(** [date_obj.strftime("%B")] *)
Definition month_name (month : Z) : str :=
  nth (Z.to_nat (month - 1))
      [lit "January"; lit "February"; lit "March"; lit "April"; lit "May";
       lit "June"; lit "July"; lit "August"; lit "September"; lit "October";
       lit "November"; lit "December"] [].

Section Dates.
Context {U : UnicodeData} {D : DateLibrary}.

(** [waz.localize(date_obj)]: the same civil fields, made aware, unless
    the search for the offset raises. *)
Definition localize_lagos (d : datetime) : result datetime :=
  offset ← lagos_utcoffset d;
  Ok {| dt_year := dt_year d; dt_month := dt_month d; dt_day := dt_day d;
        dt_hour := dt_hour d; dt_minute := dt_minute d; dt_second := dt_second d;
        dt_utcoffset := Some offset |}.

Definition render_date (date_obj : datetime) (template_type : str) : str :=
  let day := ordinal (dt_day date_obj) in
  let month := month_name (dt_month date_obj) in
  let year := str_of_int (dt_year date_obj) in
  if str_eqb (lower template_type) (lit "letter")
  then day ++ lit " " ++ month ++ lit ", " ++ year
  else if str_eqb (lower template_type) (lit "affidavit")
  then day ++ lit " of " ++ month ++ lit ", " ++ year
  else day ++ lit " " ++ month ++ lit ", " ++ year.

(** The handler [except ValueError: return date_string] around the body:
    an exception of another kind leaves the function. *)
Definition except_value_error (body : result str) (date_string : str) : result str :=
  match body with
  | Ok rendered => Ok rendered
  | Raise e =>
      match exn_kind_of e with
      | ValueError => Ok date_string
      | _ => Raise e
      end
  end.

(** [now] is the reading [datetime.now(waz)] of the call. *)
Definition format_date (now : datetime) (date_string template_type : str)
  : result str :=
  except_value_error
    (date_obj ←
       (if negb (truthy date_string) || str_eqb (strip date_string) []
        then Ok now
        else
          date_obj ← dateutil_parse date_string;
          match dt_utcoffset date_obj with
          | None => localize_lagos date_obj
          | Some _ => astimezone_lagos date_obj
          end);
     Ok (render_date date_obj template_type))
    date_string.
End Dates.

(** ** [DocumentProcessor.prepare_context] (lines 312-354) *)

Inductive ContextValue :=
| Plain (value : str)
| RichText (value : str) (bold italic underline : option bool)
           (font : option str) (size : option Z).

Definition true_or_none (b : bool) : option bool := if b then Some true else None.

Section PrepareContext.
Context {U : UnicodeData} {D : DateLibrary}.

(** The value of one placeholder, after lookup and transformation. *)
Definition placeholder_value (now : datetime) (template_type : str)
           (user_inputs : gmap str str) (ph : Placeholder) : result str :=
  let fallback := or_str (ph_default_value ph) [] in
  let value := default fallback (user_inputs !! ph_name ph) in
  let value :=
    if negb (truthy value) && contains (lit "_instance_") (ph_name ph)
    then
      let base_name := nth 0 (split (lit "_instance_") (ph_name ph)) [] in
      default fallback (user_inputs !! base_name)
    else value in
  value ←
    (if str_eqb (ph_placeholder_type ph) (lit "date")
     then format_date now value template_type
     else if contains (lit "address") (lower (ph_name ph))
     then Ok (format_address value template_type)
     else Ok value);
  Ok (apply_casing value (ph_casing ph)).

Definition context_entry (preserve_original_formatting : bool)
           (ph : Placeholder) (value : str) : ContextValue :=
  if preserve_original_formatting then Plain value
  else RichText value
         (true_or_none (ph_bold ph)) (true_or_none (ph_italic ph))
         (true_or_none (ph_underline ph))
         (match ph_font_family ph with
          | Some (c :: f) => Some (c :: f)
          | _ => None
          end)
         (match ph_font_size ph with
          | Some n => if (n =? 0)%Z then None else Some (n * 2)%Z
          | None => None
          end).

Fixpoint prepare_context_go (now : datetime) (template_type : str)
         (user_inputs : gmap str str) (preserve_original_formatting : bool)
         (placeholders : list Placeholder) (context : gmap str ContextValue)
  : result (gmap str ContextValue) :=
  match placeholders with
  | [] => Ok context
  | ph :: rest =>
      value ← placeholder_value now template_type user_inputs ph;
      prepare_context_go now template_type user_inputs preserve_original_formatting
        rest (<[ph_name ph := context_entry preserve_original_formatting ph value]> context)
  end.

Definition prepare_context (now : datetime) (template : Template)
           (user_inputs : gmap str str) (preserve_original_formatting : bool)
  : result (gmap str ContextValue) :=
  prepare_context_go now (t_type template) user_inputs preserve_original_formatting
    (t_placeholders template) ∅.
End PrepareContext.

(** ** The store and the external services *)

Record CreatedDocument := {
  cd_id : Z;
  cd_template_id : Z;
  cd_user_name : str;
  cd_user_email : option str;
  cd_file_path : str;
  cd_original_filename : str;
  cd_file_size : Z;
  cd_batch_id : option str;
  cd_user_inputs : gmap str str
}.

Record BatchGeneration := {
  bg_batch_id : str;
  bg_user_name : str;
  bg_user_email : option str;
  bg_template_ids : list Z;
  bg_user_inputs : gmap str str;
  bg_status : str;
  bg_completed_at : option datetime;
  bg_total_documents : Z;
  bg_successful_documents : Z;
  bg_error_message : option str
}.

(** The rendering library ([docxtpl], [python-docx]), the file system and
    the sources of identifiers and of time.  [Docx] is a document as these
    libraries hold it.  The readings are indexed by a logical time. *)
Class Services := {
  Docx : Type;
  docx_load : str -> result Docx;                       (* DocxTemplate(file_path) *)
  docx_render : Docx -> gmap str ContextValue -> result Docx;  (* doc.render(context) *)
  docx_reopen : Docx -> result Docx;                    (* Document(output_path) *)
  docx_adjust : Template -> Docx -> option Docx;        (* the margins, best effort *)
  docx_size : Docx -> Z;                                (* os.path.getsize *)
  uuid4 : nat -> str;
  lagos_now : nat -> datetime;                          (* datetime.now(waz) *)
  utc_now : nat -> datetime;                            (* datetime.now(timezone.utc) *)
  local_stamp : nat -> str;           (* datetime.now().strftime('%Y%m%d_%H%M%S') *)
  not_found_message : str                               (* str() of the 404 error *)
}.

Section Store.
Context {U : UnicodeData} {I : Interpreter} {D : DateLibrary} {Sv : Services}.

(** The state the application keeps: the rows of the three tables, the
    files of the generated folder and the logical time. *)
Record World := {
  w_templates : list Template;
  w_documents : list CreatedDocument;
  w_batches : list BatchGeneration;
  w_files : list (str * Docx);
  w_time : nat
}.

Definition tick (w : World) : World :=
  {| w_templates := w_templates w; w_documents := w_documents w;
     w_batches := w_batches w; w_files := w_files w; w_time := Datatypes.S (w_time w) |}.

(** [doc.save(output_path)]: the file is created or replaced. *)
Definition write_file (path : str) (d : Docx) (w : World) : World :=
  {| w_templates := w_templates w; w_documents := w_documents w;
     w_batches := w_batches w;
     w_files := (path, d) :: List.filter (fun f => negb (str_eqb (fst f) path)) (w_files w);
     w_time := w_time w |}.

(** [db.session.add(created_doc); db.session.commit()] *)
Definition add_document (d : CreatedDocument) (w : World) : World :=
  {| w_templates := w_templates w; w_documents := w_documents w ++ [d];
     w_batches := w_batches w; w_files := w_files w; w_time := w_time w |}.

(** The primary key the database gives to the next row of the table: one
    more than the largest key in it, and 1 when the table is empty. *)
Definition next_document_id (w : World) : Z :=
  fold_right Z.max 0%Z (map cd_id (w_documents w)) + 1.

(** [Template.query.get_or_404(template_id)] *)
Definition get_template (template_id : Z) (w : World) : result Template :=
  match List.find (fun t => (t_id t =? template_id)%Z) (w_templates w) with
  | Some t => Ok t
  | None => Raise {| exn_kind_of := NotFound; exn_message := not_found_message |}
  end.

(** The generated file name (lines 589-593). *)
Definition original_filename_of (template : Template) (user_inputs : gmap str str)
           (stamp : str) : str :=
  let original_filename := t_name template ++ lit "_" ++ stamp ++ lit ".docx" in
  match user_inputs !! lit "name" with
  | Some name =>
      if truthy (strip name)
      then replace_char 92 UNDERSCORE
             (replace_char 47 UNDERSCORE (replace_char SPACE UNDERSCORE name))
           ++ lit "_" ++ original_filename
      else original_filename
  | None => original_filename
  end.

(** The part of [generate_document] inside its [try] (lines 549-609). *)
Definition render_and_record (template : Template) (template_id : Z)
           (user_inputs : gmap str str) (user_name : str) (user_email : option str)
           (w : World) : result CreatedDocument * World :=
  match docx_load (t_file_path template) with
  | Raise e => (Raise e, w)
  | Ok doc =>
  match prepare_context (lagos_now (w_time w)) template user_inputs true with
  | Raise e => (Raise e, w)
  | Ok context =>
  match docx_render doc context with
  | Raise e => (Raise e, w)
  | Ok rendered =>
      let output_filename := uuid4 (w_time w) ++ lit ".docx" in
      let w := tick (write_file output_filename rendered w) in
      match docx_reopen rendered with
      | Raise e => (Raise e, w)
      | Ok post_doc =>
          let final :=
            match docx_adjust template post_doc with
            | Some adjusted => adjusted
            | None => rendered
            end in
          let w := write_file output_filename final w in
          let created_doc :=
            {| cd_id := next_document_id w;
               cd_template_id := template_id;
               cd_user_name := user_name;
               cd_user_email := user_email;
               cd_file_path := output_filename;
               cd_original_filename :=
                 original_filename_of template user_inputs (local_stamp (w_time w));
               cd_file_size := docx_size final;
               cd_batch_id := None;
               cd_user_inputs := user_inputs |} in
          (Ok created_doc, add_document created_doc w)
      end
  end end end.

(** [DocumentProcessor.generate_document] (lines 538-613). *)
Definition generate_document (template_id : Z) (user_inputs : gmap str str)
           (user_name : str) (user_email : option str) (w : World)
  : result CreatedDocument * World :=
  match get_template template_id w with
  | Raise e => (Raise e, w)
  | Ok template =>
      let errors := validate_inputs (t_placeholders template) user_inputs in
      match errors with
      | _ :: _ =>
          (Raise {| exn_kind_of := ValueError; exn_message := join [NL] errors |}, w)
      | [] => render_and_record template template_id user_inputs user_name user_email w
      end
  end.
End Store.

(** ** [process_batch] (lines 942-987) *)

Section Batch.
Context {U : UnicodeData} {I : Interpreter} {D : DateLibrary} {Sv : Services}.

(** [db.session.add(batch); db.session.commit()] *)
Definition add_batch (b : BatchGeneration) (w : World) : World :=
  {| w_templates := w_templates w; w_documents := w_documents w;
     w_batches := w_batches w ++ [b]; w_files := w_files w; w_time := w_time w |}.

(** The commit of a changed batch row. *)
Definition update_batch (b : BatchGeneration) (w : World) : World :=
  {| w_templates := w_templates w; w_documents := w_documents w;
     w_batches :=
       map (fun b' => if str_eqb (bg_batch_id b') (bg_batch_id b) then b else b')
           (w_batches w);
     w_files := w_files w; w_time := w_time w |}.

(** [doc.batch_id = batch_id; db.session.add(doc); db.session.commit()]:
    the row of [doc] carries the batch from now on. *)
Definition with_batch_id (batch_id : str) (doc : CreatedDocument) : CreatedDocument :=
  {| cd_id := cd_id doc; cd_template_id := cd_template_id doc;
     cd_user_name := cd_user_name doc; cd_user_email := cd_user_email doc;
     cd_file_path := cd_file_path doc;
     cd_original_filename := cd_original_filename doc;
     cd_file_size := cd_file_size doc; cd_batch_id := Some batch_id;
     cd_user_inputs := cd_user_inputs doc |}.

Definition update_document (doc : CreatedDocument) (w : World) : World :=
  {| w_templates := w_templates w;
     w_documents :=
       map (fun d => if (cd_id d =? cd_id doc)%Z then doc else d) (w_documents w);
     w_batches := w_batches w; w_files := w_files w; w_time := w_time w |}.

(** [f"Template {template_id}: {str(e)}"] *)
Definition error_entry (template_id : Z) (e : exn) : str :=
  lit "Template " ++ str_of_int template_id ++ lit ": " ++ exn_message e.

(** The loop [for template_id in template_ids], with its two
    accumulators. *)
Fixpoint batch_loop (batch_id : str) (user_inputs : gmap str str)
         (user_name : str) (user_email : option str)
         (template_ids : list Z)
         (successful : list CreatedDocument) (errors : list str) (w : World)
  : list CreatedDocument * list str * World :=
  match template_ids with
  | [] => (successful, errors, w)
  | template_id :: rest =>
      match generate_document template_id user_inputs user_name user_email w with
      | (Ok doc, w') =>
          let doc := with_batch_id batch_id doc in
          batch_loop batch_id user_inputs user_name user_email rest
                     (successful ++ [doc]) errors (update_document doc w')
      | (Raise e, w') =>
          batch_loop batch_id user_inputs user_name user_email rest
                     successful (errors ++ [error_entry template_id e]) w'
      end
  end.

(** The row created when the batch starts. *)
Definition new_batch (batch_id : str) (template_ids : list Z)
           (user_inputs : gmap str str) (user_name : str) (user_email : option str)
  : BatchGeneration :=
  {| bg_batch_id := batch_id; bg_user_name := user_name;
     bg_user_email := user_email; bg_template_ids := template_ids;
     bg_user_inputs := user_inputs; bg_status := lit "processing";
     bg_completed_at := None;
     bg_total_documents := Z.of_nat (length template_ids);
     bg_successful_documents := 0; bg_error_message := None |}.

(** The update of the row after the loop (lines 979-984). *)
Definition finish_batch (batch : BatchGeneration)
           (successful : list CreatedDocument) (errors : list str)
           (completed_at : datetime) : BatchGeneration :=
  {| bg_batch_id := bg_batch_id batch; bg_user_name := bg_user_name batch;
     bg_user_email := bg_user_email batch;
     bg_template_ids := bg_template_ids batch;
     bg_user_inputs := bg_user_inputs batch;
     bg_status :=
       match errors with
       | [] => lit "completed"
       | _ :: _ => lit "completed_with_errors"
       end;
     bg_completed_at := Some completed_at;
     bg_total_documents := bg_total_documents batch;
     bg_successful_documents := Z.of_nat (length successful);
     bg_error_message :=
       match errors with
       | [] => None
       | _ :: _ => Some (join [NL] errors)
       end |}.

Definition process_batch (template_ids : list Z) (user_inputs : gmap str str)
           (user_name : str) (user_email : option str) (w : World)
  : BatchGeneration * list CreatedDocument * World :=
  let batch_id := uuid4 (w_time w) in
  let batch := new_batch batch_id template_ids user_inputs user_name user_email in
  let w := tick (add_batch batch w) in
  let '(successful, errors, w) :=
    batch_loop batch_id user_inputs user_name user_email template_ids [] [] w in
  let batch := finish_batch batch successful errors (utc_now (w_time w)) in
  (batch, successful, update_batch batch w).
End Batch.

(** ** Character tables for evaluation *)

(** A character database with no row beyond Basic Latin: every other code
    point is uncased and maps to itself. *)
Definition basic_latin : UnicodeData :=
  {| ud_isspace := fun _ => false; ud_isalnum := fun _ => false;
     ud_isdecimal := fun _ => false; ud_isupper := fun _ => false;
     ud_islower := fun _ => false; ud_istitle := fun _ => false;
     ud_iscased := fun _ => false; ud_iscase_ignorable := fun _ => false;
     ud_tolower := fun c => [c]; ud_toupper := fun c => [c];
     ud_totitle := fun c => [c] |}.

(** Two rows of the Unicode character database beside Basic Latin.
    U+01F0 LATIN SMALL LETTER J WITH CARON is a lower-case letter whose
    upper-case and title-case mappings are the two characters U+004A
    U+030C (SpecialCasing.txt); U+030C COMBINING CARON is a non-spacing
    mark, uncased and case-ignorable. *)
Definition J_CARON : char := 496.
Definition COMBINING_CARON : char := 780.
Definition special_casing_rows : UnicodeData :=
  {| ud_isspace := fun _ => false;
     ud_isalnum := fun c => c =? J_CARON;
     ud_isdecimal := fun _ => false;
     ud_isupper := fun _ => false;
     ud_islower := fun c => c =? J_CARON;
     ud_istitle := fun _ => false;
     ud_iscased := fun c => c =? J_CARON;
     ud_iscase_ignorable := fun c => c =? COMBINING_CARON;
     ud_tolower := fun c => [c];
     ud_toupper := fun c => if c =? J_CARON then [74; COMBINING_CARON] else [c];
     ud_totitle := fun c => if c =? J_CARON then [74; COMBINING_CARON] else [c] |}.

(** Case mappings whose results are mapped to themselves. *)
Definition upper_closed {U : UnicodeData} : Prop :=
  forall c d, In d (toupper_full c) -> toupper_full d = [d].
Definition lower_closed {U : UnicodeData} : Prop :=
  forall before c after d,
    In d (lower_at before c after) -> d <> SIGMA /\ tolower_full d = [d].

(** Characters that title-casing treats the same a second time.  [out]
    is what a first pass wrote for a character, at a place where the
    character before was cased ([previous_is_cased]) or not: a second
    pass leaves [out] as it is when it title-cases to itself a character
    that follows an uncased one and lowers to itself a character that
    follows a cased one; the result is whether the last character of
    [out] is cased.  A character is stable when this holds of its
    title-case mapping and of what lowering writes for it, and the
    casedness left behind is its own. *)
Fixpoint fixed_under_title {U : UnicodeData} (previous_is_cased : bool) (out : str)
  : option bool :=
  match out with
  | [] => Some previous_is_cased
  | d :: out' =>
      if (if previous_is_cased
          then negb (d =? SIGMA) && str_eqb (tolower_full d) [d]
          else str_eqb (totitle_full d) [d])
      then fixed_under_title (iscased d) out'
      else None
  end.

Definition lowerings {U : UnicodeData} (c : char) : list str :=
  if c =? SIGMA then [[962]; [963]] else [tolower_full c].

Definition title_stable {U : UnicodeData} (c : char) : bool :=
  bool_decide (fixed_under_title false (totitle_full c) = Some (iscased c))
  && forallb (fun out => bool_decide (fixed_under_title true out = Some (iscased c)))
             (lowerings c).

(** Rows for the letters with an acute accent or a dot below of
    ["josé ọlá"] (U+00C9 and U+00E9, U+00C1 and U+00E1, U+1ECC and
    U+1ECD) and for U+00DF LATIN SMALL LETTER SHARP S, whose upper- and
    title-case mappings are two letters, beside the rows above. *)
Definition SHARP_S : char := 223.
Definition accented_upper (c : char) : bool :=
  (c =? 201) || (c =? 193) || (c =? 7884).
Definition accented_lower (c : char) : bool :=
  (c =? 233) || (c =? 225) || (c =? 7885).
Definition accented_toupper (c : char) : char :=
  if c =? 233 then 201 else if c =? 225 then 193 else if c =? 7885 then 7884 else c.
Definition accented_tolower (c : char) : char :=
  if c =? 201 then 233 else if c =? 193 then 225 else if c =? 7884 then 7885 else c.

Definition accented_rows : UnicodeData :=
  {| ud_isspace := fun _ => false;
     ud_isalnum := fun c =>
       accented_upper c || accented_lower c || (c =? SHARP_S) || (c =? J_CARON);
     ud_isdecimal := fun _ => false;
     ud_isupper := accented_upper;
     ud_islower := fun c => accented_lower c || (c =? SHARP_S) || (c =? J_CARON);
     ud_istitle := fun _ => false;
     ud_iscased := fun c =>
       accented_upper c || accented_lower c || (c =? SHARP_S) || (c =? J_CARON);
     ud_iscase_ignorable := fun c => c =? COMBINING_CARON;
     ud_tolower := fun c => [accented_tolower c];
     ud_toupper := fun c =>
       if c =? SHARP_S then [83; 83]
       else if c =? J_CARON then [74; COMBINING_CARON]
       else [accented_toupper c];
     ud_totitle := fun c =>
       if c =? SHARP_S then [83; 115]
       else if c =? J_CARON then [74; COMBINING_CARON]
       else [accented_toupper c] |}.

(** ["josé ọlá"] *)
Definition jose_ola : str := [106; 111; 115; 233; 32; 7885; 108; 225].

(** ** Vocabulary of the statements

    Functions and predicates in which the lemmas and theorems of Part II
    are stated. *)

Section Vocabulary.
Context {U : UnicodeData} {I : Interpreter} {D : DateLibrary} {Sv : Services}.

(** *** Lists *)

(** The longest prefix of characters that satisfy [p]; [dropwhile_b] is
    the rest. *)
Fixpoint takewhile_b {A} (p : A -> bool) (l : list A) : list A :=
  match l with
  | x :: l' => if p x then x :: takewhile_b p l' else []
  | [] => []
  end.

(** The list without its trailing run of elements that satisfy [p]. *)
Definition rdrop {A} (p : A -> bool) (l : list A) : list A :=
  rev (dropwhile_b p (rev l)).

(** No element that satisfies [p] at the front, or at the back. *)
Definition no_leading {A} (p : A -> bool) (l : list A) : Prop :=
  match l with
  | c :: _ => p c = false
  | [] => True
  end.

Definition no_trailing {A} (p : A -> bool) (l : list A) : Prop :=
  match last l with
  | Some c => p c = false
  | None => True
  end.

(** *** Casing *)

(** [str.title] on Basic Latin text, character by character. *)
Fixpoint ascii_title (previous_is_cased : bool) (s : str) : str :=
  match s with
  | [] => []
  | c :: s' =>
      (if previous_is_cased then ascii_tolower c else ascii_toupper c)
        :: ascii_title (ascii_isalpha c) s'
  end.

(** *** Ordinal suffixes *)

(** The four capitalised suffixes [Th], [St], [Nd], [Rd]. *)
Definition is_suffix_pair (a b : char) : bool :=
  (a =? 84) && (b =? 104) || (a =? 83) && (b =? 116)
  || (a =? 78) && (b =? 100) || (a =? 82) && (b =? 100).

(** The alternation [Th|St|Nd|Rd] of the pattern. *)
Definition suffix_alternatives : regex :=
  RAlt (rlit2 84 104) (RAlt (rlit2 83 116) (RAlt (rlit2 78 100) (rlit2 82 100))).

(** Whether the character before a position is a decimal digit. *)
Definition is_digit_opt (o : option char) : bool :=
  match o with
  | Some c => isdecimal c
  | None => false
  end.

(** A capitalised suffix starts here: the character before is a decimal
    digit, the text continues with one of the four suffixes, and a word
    boundary follows. *)
Definition suffix_here (after_digit : bool) (s : str) : bool :=
  after_digit &&
  match s with
  | a :: b :: rest => is_suffix_pair a b && negb (is_word_opt (head rest))
  | _ => false
  end.

(** The text with the first letter of every such suffix lowered. *)
Fixpoint lower_suffixes (after_digit : bool) (s : str) : str :=
  match s with
  | [] => []
  | c :: s' =>
      (if suffix_here after_digit s then ascii_tolower c else c)
        :: lower_suffixes (isdecimal c) s'
  end.

(** The same test, by position in the text. *)
Definition ordinal_suffix_at (text : str) (i : nat) : bool :=
  suffix_here
    (match i with
     | O => false
     | S j => match nth_error text j with Some d => isdecimal d | None => false end
     end)
    (drop i text).

Definition flag_after (pre : str) : bool := is_digit_opt (last pre).

(** The normalisation as the specification words it: in a text that is
    not entirely upper case, an ordinal suffix after a digit is lowered
    whatever its casing is.  A suffix is [th], [st], [nd] or [rd] in any
    casing, before a word boundary; both of its letters are lowered. *)
Definition is_suffix_pair_any_case (a b : char) : bool :=
  let a := ascii_tolower a in
  let b := ascii_tolower b in
  (a =? 116) && (b =? 104) || (a =? 115) && (b =? 116)
  || (a =? 110) && (b =? 100) || (a =? 114) && (b =? 100).

Definition claimed_suffix_here (after_digit : bool) (s : str) : bool :=
  after_digit &&
  match s with
  | a :: b :: rest => is_suffix_pair_any_case a b && negb (is_word_opt (head rest))
  | _ => false
  end.

Fixpoint claimed_lower_suffixes (after_digit second_letter : bool) (s : str) : str :=
  match s with
  | [] => []
  | c :: s' =>
      let here := claimed_suffix_here after_digit s in
      (if here || second_letter then ascii_tolower c else c)
        :: claimed_lower_suffixes (isdecimal c) here s'
  end.

Definition claimed_ordinal_casing (text : str) : str :=
  if isupper text then text else claimed_lower_suffixes false false text.

(** *** Addresses *)

(** A period or white space. *)
Definition period_or_space (c : char) : bool := (c =? DOT) || isspace c.

(** The address transformations as the claim words them: for a letter,
    the trimmed non-empty comma-separated segments, a comma after each but
    the last, a period at the end, joined by line breaks; for an affidavit,
    the value without its trailing periods. *)
Definition claimed_letter_address (address : str) : str :=
  join [NL]
    (end_with_period
       (add_commas (List.filter truthy (map strip (split [COMMA] address))))).

Definition claimed_affidavit_address (address : str) : str :=
  rdrop (N.eqb DOT) address.

(** *** Dates *)


(** The value that is rendered for a parsed date: a naive one is taken
    as Lagos time, an aware one is converted to it. *)
Definition in_lagos (d : datetime) : result datetime :=
  match dt_utcoffset d with
  | None => localize_lagos d
  | Some _ => astimezone_lagos d
  end.

(** *** Validation *)

(** The base names of a catalog in the order of their first appearance,
    and the entries of one base name in catalog order. *)
Fixpoint first_seen (seen l : list str) : list str :=
  match l with
  | [] => []
  | x :: l' =>
      if existsb (str_eqb x) seen then first_seen seen l'
      else x :: first_seen (seen ++ [x]) l'
  end.

Definition base_names (placeholders : list Placeholder) : list str :=
  first_seen [] (map (fun ph => base_name_of (ph_name ph)) placeholders).

Definition members (base_name : str) (placeholders : list Placeholder)
  : list Placeholder :=
  List.filter (fun ph => str_eqb (base_name_of (ph_name ph)) base_name) placeholders.


(** *** Batches *)

(** The attempts of a batch, one per template id and in their order,
    each with the outcome of its generation in the store the earlier
    ones left. *)
Fixpoint attempts (batch_id : str) (user_inputs : gmap str str) (user_name : str)
         (user_email : option str) (template_ids : list Z) (w : World)
  : list (Z * result CreatedDocument) :=
  match template_ids with
  | [] => []
  | template_id :: rest =>
      match generate_document template_id user_inputs user_name user_email w with
      | (Ok doc, w') =>
          (template_id, Ok (with_batch_id batch_id doc))
            :: attempts batch_id user_inputs user_name user_email rest
                 (update_document (with_batch_id batch_id doc) w')
      | (Raise e, w') =>
          (template_id, Raise e)
            :: attempts batch_id user_inputs user_name user_email rest w'
      end
  end.

(** The documents of the attempts that succeeded, and the entries of
    those that raised. *)
Fixpoint successes (outcomes : list (Z * result CreatedDocument))
  : list CreatedDocument :=
  match outcomes with
  | [] => []
  | (_, Ok doc) :: rest => doc :: successes rest
  | (_, Raise _) :: rest => successes rest
  end.

Fixpoint failures (outcomes : list (Z * result CreatedDocument)) : list str :=
  match outcomes with
  | [] => []
  | (_, Ok _) :: rest => failures rest
  | (template_id, Raise e) :: rest => error_entry template_id e :: failures rest
  end.

(** *** Extraction *)

(** The text of a paragraph: the texts of its runs, concatenated. *)
Definition paragraph_text (para : element) : str :=
  concat (map run_text (findall para (lit "w:r"))).

(** The placeholders of a document, as the specification words them. *)











(** *** Instances *)

(** The number of occurrences of a name. *)
Definition count_name (v : str) (occurrences : list Occurrence) : nat :=
  length (List.filter (fun o => str_eqb (occ_name o) v) occurrences).

(** The entry of a context, when it was built. *)
Definition context_entry_at (r : result (gmap str ContextValue)) (key : string)
  : option ContextValue :=
  match r with
  | Ok context => context !! lit key
  | Raise _ => None
  end.

End Vocabulary.

(** ** Data for evaluation *)

(** A date library for evaluation: it reads [YYYY-MM-DD] only and yields
    naive values, so the conversion of aware values is never reached. *)
Definition digit_value (c : char) : option Z :=
  if ascii_isdigit c then Some (Z.of_N (c - 48)) else None.

Fixpoint digits_value (acc : Z) (s : str) : option Z :=
  match s with
  | [] => Some acc
  | c :: s' =>
      match digit_value c with
      | Some d => digits_value (acc * 10 + d) s'
      | None => None
      end
  end.

Definition number_of (s : str) : option Z :=
  match s with
  | [] => None
  | _ :: _ => digits_value 0 s
  end.

Definition parse_iso_date (s : str) : result datetime :=
  match map number_of (split [45] s) with
  | [Some y; Some m; Some d] =>
      Ok {| dt_year := y; dt_month := m; dt_day := d; dt_hour := 0;
            dt_minute := 0; dt_second := 0; dt_utcoffset := None |}
  | _ => Raise {| exn_kind_of := ValueError; exn_message := lit "Unknown string format" |}
  end.

Definition iso_dates : DateLibrary :=
  {| dateutil_parse := parse_iso_date;
     lagos_utcoffset := fun _ => Ok 60%Z;
     astimezone_lagos := fun d => Ok d |}.




(** An interpreter for evaluation: [int] of decimal digits, and
    [re.match] for patterns without metacharacters (a prefix test). *)
Definition literal_interpreter : Interpreter :=
  {| int_of_str := number_of; re_match := startswith |}.

(** A catalog entry for evaluation; an empty text stands for an absent
    display name, pattern or default. *)
Definition opt_lit (s : string) : option str :=
  match s with
  | EmptyString => None
  | _ => Some (lit s)
  end.

Definition sample_placeholder (name display_name placeholder_type : string)
           (is_required : bool) (sort_order : Z)
           (validation_pattern default_value : string) : Placeholder :=
  {| ph_name := lit name; ph_display_name := opt_lit display_name;
     ph_placeholder_type := lit placeholder_type; ph_is_required := is_required;
     ph_options := []; ph_help_text := []; ph_sort_order := sort_order;
     ph_bold := false; ph_italic := false; ph_underline := false;
     ph_casing := lit "none"; ph_font_family := None; ph_font_size := None;
     ph_alignment := None; ph_paragraph_index := 0; ph_run_index := 0;
     ph_validation_pattern := opt_lit validation_pattern;
     ph_default_value := opt_lit default_value |}.

(** Services for evaluation: a document is the context it was rendered
    with, every step succeeds, identifiers are numbered by the logical
    time. *)
Definition sample_time : datetime :=
  {| dt_year := 2026; dt_month := 1; dt_day := 3; dt_hour := 9; dt_minute := 0;
     dt_second := 0; dt_utcoffset := Some 60%Z |}.

Definition sample_services : Services :=
  {| Docx := option (gmap str ContextValue);
     docx_load := fun _ => Ok None;
     docx_render := fun _ context => Ok (Some context);
     docx_reopen := fun d => Ok d;
     docx_adjust := fun _ d => Some d;
     docx_size := fun _ => 1%Z;
     uuid4 := fun n => lit "id-" ++ str_of_int (Z.of_nat n);
     lagos_now := fun _ => sample_time;
     utc_now := fun _ => sample_time;
     local_stamp := fun _ => lit "20260103_090000";
     not_found_message := lit "404 Not Found" |}.

(** A store for evaluation: templates 1 and 3 with one required field;
    no template has id 2. *)
Definition sample_template (id : Z) (name type : string) : Template :=
  {| t_id := id; t_name := lit name; t_type := lit type;
     t_file_path := lit "template.docx"; t_font_family := lit "Times New Roman";
     t_font_size := 12;
     t_placeholders := [sample_placeholder "name" "Name" "text" true 0 "" "Joe Doe"] |}.

Definition sample_world : @World sample_services :=
  {| w_templates := [sample_template 1 "Admission" "letter";
                     sample_template 3 "Oath" "affidavit"];
     w_documents := []; w_batches := []; w_files := []; w_time := 0 |}.

(** A document for evaluation, of two paragraphs.  In the first, centred,
    a bold run of size 25 half-points holds the start of a placeholder
    that ends in the next, italic, run, which also holds a date
    placeholder; a third run repeats the first name.  The second paragraph
    repeats it once more, beside two texts in braces that are not
    placeholders. *)
Definition xml (tag : string) (attrib : list (string * string))
           (children : list element) : element :=
  Element (lit tag) (map (fun '(k, v) => (lit k, lit v)) attrib) None children.

Definition xml_text (s : string) : element :=
  Element (lit "w:t") [] (Some (lit s)) [].

Definition sample_document : element :=
  xml "w:document" []
    [xml "w:body" []
       [xml "w:p" []
          [xml "w:pPr" [] [xml "w:jc" [("w:val", "center")%string] []];
           xml "w:r" []
             [xml "w:rPr" [] [xml "w:b" [] []; xml "w:sz" [("w:val", "25")%string] []];
              xml_text "Dear {{na"];
           xml "w:r" [] [xml "w:rPr" [] [xml "w:i" [] []];
                         xml_text "me}}, born {{ date }} "];
           xml "w:r" [] [xml_text "{{name}}"]];
        xml "w:p" [] [xml "w:r" [] [xml_text "{{name}} {{ no name }} {{}}"]]]].

(** The catalog of the sample document, and the context built from it
    for the inputs [name = Ada] and [date = 2025-09-22]. *)
Definition sample_catalog : list Placeholder :=
  @create_placeholders basic_latin
    (@extract_template_variables basic_latin literal_interpreter sample_document).

Definition sample_context : result (gmap str ContextValue) :=
  @prepare_context basic_latin iso_dates sample_time
    {| t_id := 1; t_name := lit "Admission"; t_type := lit "letter";
       t_file_path := lit "template.docx"; t_font_family := lit "Times New Roman";
       t_font_size := 12; t_placeholders := sample_catalog |}
    {[ lit "name" := lit "Ada"; lit "date" := lit "2025-09-22" ]} true.

(** ** The routes

    The computing part of the routes [create] (lines 1018-1032),
    [generate] (lines 1053-1085), [get_merged_placeholders] (lines
    1158-1186), [batch_results] (lines 1188-1192) and
    [batch_download_docx] (lines 1236-1270): from the rows their queries
    return and the fields of the submitted form to the values they hand to
    the page, to the generator or to the archive. *)

(** [sorted(xs, key=key)].  The sort is stable, which determines its
    result: the elements by increasing key, those of equal key in their
    order in [xs].  Insertion from the right computes it. *)
Fixpoint insert_by {A} (key : A -> Z) (x : A) (l : list A) : list A :=
  match l with
  | [] => [x]
  | y :: rest =>
      if (key x <=? key y)%Z then x :: y :: rest else y :: insert_by key x rest
  end.

Fixpoint sorted {A} (key : A -> Z) (xs : list A) : list A :=
  match xs with
  | [] => []
  | x :: rest => insert_by key x (sorted key rest)
  end.

(** [merged_placeholders[n]] for a key [n] of the dictionary. *)
Definition group_get (n : str) (merged_placeholders : list (str * list Placeholder))
  : list Placeholder :=
  default [] (assoc_get n merged_placeholders).

(** [min(p.sort_order for p in phs)].  A group has a member, so the
    minimum of an empty sequence is never asked for. *)
Definition min_sort_order_of (phs : list Placeholder) : Z :=
  match phs with
  | [] => 0
  | p :: rest => fold_left Z.min (map ph_sort_order rest) (ph_sort_order p)
  end.

(** [first_ph.name = base_name] *)
Definition with_name (name : str) (ph : Placeholder) : Placeholder :=
  {| ph_name := name; ph_display_name := ph_display_name ph;
     ph_placeholder_type := ph_placeholder_type ph;
     ph_is_required := ph_is_required ph; ph_options := ph_options ph;
     ph_help_text := ph_help_text ph; ph_sort_order := ph_sort_order ph;
     ph_bold := ph_bold ph; ph_italic := ph_italic ph;
     ph_underline := ph_underline ph; ph_casing := ph_casing ph;
     ph_font_family := ph_font_family ph; ph_font_size := ph_font_size ph;
     ph_alignment := ph_alignment ph;
     ph_paragraph_index := ph_paragraph_index ph;
     ph_run_index := ph_run_index ph;
     ph_validation_pattern := ph_validation_pattern ph;
     ph_default_value := ph_default_value ph |}.

(** [create], lines 1024-1031: the fields of the form of one template.
    [placeholders] are the rows of the query.  Every key of the dictionary
    has a group with a member, so the branch for an empty group is never
    taken. *)
Definition create_unique_placeholders (placeholders : list Placeholder)
  : list Placeholder :=
  let merged_placeholders := group_by_base_name placeholders in
  List.flat_map
    (fun base_name =>
       match group_get base_name merged_placeholders with
       | p :: rest => [with_name base_name (min_by_sort_order p rest)]
       | [] => []
       end)
    (sorted (fun n => min_sort_order_of (group_get n merged_placeholders))
            (map fst merged_placeholders)).

(** [get_merged_placeholders], lines 1170-1176: the body of the inner
    loop, on the two dictionaries. *)
Definition merge_placeholder
           (state : list (str * list Placeholder) * gmap str Z) (ph : Placeholder)
  : list (str * list Placeholder) * gmap str Z :=
  let '(merged_placeholders, min_sort_order) := state in
  let base_name := base_name_of (ph_name ph) in
  (group_add base_name ph merged_placeholders,
   match min_sort_order !! base_name with
   | Some m =>
       if (ph_sort_order ph <? m)%Z
       then <[base_name := ph_sort_order ph]> min_sort_order
       else min_sort_order
   | None => <[base_name := ph_sort_order ph]> min_sort_order
   end).

(** [get_merged_placeholders], lines 1163-1183: the fields of the form of
    a batch.  [rows] holds, for each selected template in turn, the rows
    of its query.  Every key of the first dictionary is a key of the
    second and has a group with a member, so neither the number 0 nor the
    branch for an empty group is ever used. *)
Definition get_merged_placeholders (rows : list (list Placeholder))
  : list Placeholder :=
  let '(merged_placeholders, min_sort_order) :=
    fold_left (fun state placeholders => fold_left merge_placeholder placeholders state)
              rows ([], ∅) in
  List.flat_map
    (fun name =>
       match sorted ph_sort_order (group_get name merged_placeholders) with
       | first_ph :: _ => [with_name name first_ph]
       | [] => []
       end)
    (sorted (fun n => default 0%Z (min_sort_order !! n))
            (map fst merged_placeholders)).

(** ** The name of an archive entry ([zipfile], [posixpath])

    [ZipFile.write(filename, arcname)] stores the file under
    [os.path.normpath(arcname)] without its leading separators, cut at
    the first null character.  The paths are those of a POSIX system,
    where the separator is the slash and a path has no drive. *)

Definition SLASH : char := 47.

(** The loop of [posixpath.normpath] over the components of the path;
    [new_comps] is held with its last component first. *)
Fixpoint normpath_comps (initial_slashes : nat) (comps new_comps : list str)
  : list str :=
  match comps with
  | [] => rev new_comps
  | comp :: rest =>
      if str_eqb comp [] || str_eqb comp (lit ".")
      then normpath_comps initial_slashes rest new_comps
      else if negb (str_eqb comp (lit ".."))
              || ((initial_slashes =? 0)%nat
                  && match new_comps with [] => true | _ :: _ => false end)
              || match new_comps with
                 | top :: _ => str_eqb top (lit "..")
                 | [] => false
                 end
      then normpath_comps initial_slashes rest (comp :: new_comps)
      else normpath_comps initial_slashes rest (tail new_comps)
  end.

(** [posixpath.normpath(path)] *)
Definition normpath (path : str) : str :=
  match path with
  | [] => lit "."
  | _ :: _ =>
      let initial_slashes :=
        if startswith (lit "/") path
        then if startswith (lit "//") path && negb (startswith (lit "///") path)
             then 2%nat else 1%nat
        else 0%nat in
      let path :=
        repeat SLASH initial_slashes
          ++ join (lit "/") (normpath_comps initial_slashes (split (lit "/") path) []) in
      match path with
      | [] => lit "."
      | _ :: _ => path
      end
  end.

(** The name [ZipInfo.from_file] and [ZipInfo.__init__] make of
    [arcname] for a regular file.  The loop
    [while arcname[0] in (os.sep, os.altsep): arcname = arcname[1:]]
    raises [IndexError] when nothing but separators is left, and so does
    [filename[-1]] in [ZipInfo.is_dir] when nothing is left in front of
    the first null character. *)
Definition index_error : exn :=
  {| exn_kind_of := OtherError; exn_message := lit "string index out of range" |}.

Definition zip_arcname (arcname : str) : result str :=
  match dropwhile_b (fun c => c =? SLASH) (normpath arcname) with
  | [] => Raise index_error
  | c :: name =>
      match takewhile_b (fun d => negb (d =? 0)) (c :: name) with
      | [] => Raise index_error
      | d :: filename => Ok (d :: filename)
      end
  end.

Section Routes.
Context {U : UnicodeData} {I : Interpreter} {D : DateLibrary} {Sv : Services}.

(** [generate], lines 1061-1065: the inputs taken from the form. *)
Definition generate_user_inputs (form : gmap str str) : gmap str str :=
  fix_date_ordinal_casing <$>
    filter (fun kv => kv.1 <> lit "template_id" /\ kv.1 <> lit "format") form.

(** The answers of [generate] before a file is sent: the refusal of a
    form without one of the two fields the route reads by subscript
    (400), the notice [Invalid template ID] with the way back to the
    index, and the outcome of the generation. *)
Inductive generate_answer :=
| BadRequest
| InvalidTemplateId
| Generated (outcome : result CreatedDocument).

(** [generate], lines 1055-1072: up to the outcome of the generation. *)
Definition generate (form : gmap str str) (w : World) : generate_answer * World :=
  match form !! lit "template_id" with
  | None => (BadRequest, w)
  | Some raw =>
      match int_of_str raw with
      | None => (InvalidTemplateId, w)
      | Some template_id =>
          match form !! lit "format" with
          | None => (BadRequest, w)
          | Some format =>
              let user_inputs := generate_user_inputs form in
              let user_name :=
                default (lit "Anonymous User") (user_inputs !! lit "name") in
              let user_email := user_inputs !! lit "email" in
              let '(outcome, w) :=
                generate_document template_id user_inputs user_name user_email w in
              (Generated outcome, w)
          end
      end
  end.

(** [BatchGeneration.query.filter_by(batch_id=batch_id).first_or_404()] *)
Definition get_batch (batch_id : str) (w : World) : result BatchGeneration :=
  match List.find (fun b => str_eqb (bg_batch_id b) batch_id) (w_batches w) with
  | Some b => Ok b
  | None => Raise {| exn_kind_of := NotFound; exn_message := not_found_message |}
  end.

(** [CreatedDocument.query.filter_by(batch_id=batch_id).all()] *)
Definition documents_of_batch (batch_id : str) (w : World) : list CreatedDocument :=
  List.filter (fun d => bool_decide (cd_batch_id d = Some batch_id)) (w_documents w).

(** [batch_results]: what the page is given. *)
Definition batch_results (batch_id : str) (w : World)
  : result (BatchGeneration * list CreatedDocument) :=
  batch ← get_batch batch_id w;
  Ok (batch, documents_of_batch batch_id w).

(** The three answers of a download of a batch: back to the page of the
    batch with the notice that it has no documents, the archive, whose
    entries are a name and the file stored under it, or back to the page
    with the notice of an error when writing the archive raises. *)
Inductive download :=
| NoDocuments
| Archive (entries : list (str * Docx))
| DownloadError.

(** [os.path.exists] and the reading of a file of the generated folder. *)
Definition file_at (path : str) (w : World) : option Docx :=
  assoc_get path (w_files w).

(** The loop over the documents of the batch, lines 1250-1254: a document
    whose file is missing is passed over, and the others are written
    under the name [ZipFile.write] makes of [doc.original_filename]. *)
Fixpoint zip_entries (documents : list CreatedDocument) (w : World)
  : result (list (str * Docx)) :=
  match documents with
  | [] => Ok []
  | doc :: rest =>
      match file_at (cd_file_path doc) w with
      | Some file =>
          name ← zip_arcname (cd_original_filename doc);
          entries ← zip_entries rest w;
          Ok ((name, file) :: entries)
      | None => zip_entries rest w
      end
  end.

(** [batch_download_docx], lines 1239-1270. *)
Definition batch_download_docx (batch_id : str) (w : World) : result download :=
  batch ← get_batch batch_id w;
  match documents_of_batch batch_id w with
  | [] => Ok NoDocuments
  | documents =>
      match zip_entries documents w with
      | Ok entries => Ok (Archive entries)
      | Raise _ => Ok DownloadError
      end
  end.
End Routes.

(** ** The dominant font ([get_dominant_font_and_size], lines 253-269) *)

(** A run as [python-docx] presents it: its text, and the name and the
    size of its font when the run states them.  The size is kept as the
    document stores it, in half-points, so [size.pt] is half of it. *)
Record DocxRun := {
  dr_text : str;
  dr_font_name : option str;
  dr_font_size : option Z
}.

(** [Counter(xs)]: the counts by key, the keys in the order of their first
    appearance. *)
Fixpoint counter_add {K} (eqb : K -> K -> bool) (x : K) (counts : list (K * nat))
  : list (K * nat) :=
  match counts with
  | [] => [(x, 1%nat)]
  | (k, n) :: rest =>
      if eqb k x then (k, Datatypes.S n) :: rest
      else (k, n) :: counter_add eqb x rest
  end.

Definition Counter {K} (eqb : K -> K -> bool) (xs : list K) : list (K * nat) :=
  fold_left (fun counts x => counter_add eqb x counts) xs [].

(** [counts.most_common(1)]: the first of the keys of greatest count. *)
Fixpoint most_common_from {K} (best : K * nat) (rest : list (K * nat)) : K * nat :=
  match rest with
  | [] => best
  | entry :: rest' =>
      most_common_from (if (snd best <? snd entry)%nat then entry else best) rest'
  end.

Definition most_common_1 {K} (counts : list (K * nat)) : option (K * nat) :=
  match counts with
  | [] => None
  | entry :: rest => Some (most_common_from entry rest)
  end.

(** [round(size.pt)] for a size of [hp] half-points: the nearest whole
    number of points, a half going to the even one. *)
Definition round_half_points (hp : Z) : Z :=
  let k := (hp / 2)%Z in
  if Z.even hp then k else if Z.even k then k else (k + 1)%Z.

Section DominantFont.
Context {U : UnicodeData}.

(** The lists [fonts] and [sizes] after the loops: of the runs with a
    text that is not blank, the font names that are stated and not empty,
    and the sizes that are stated and not zero. *)
Definition run_fonts (doc : list (list DocxRun)) : list str :=
  List.flat_map
    (fun run =>
       if truthy (strip (dr_text run))
       then match dr_font_name run with
            | Some (c :: name) => [c :: name]
            | _ => []
            end
       else [])
    (concat doc).

Definition run_sizes (doc : list (list DocxRun)) : list Z :=
  List.flat_map
    (fun run =>
       if truthy (strip (dr_text run))
       then match dr_font_size run with
            | Some hp => if (hp =? 0)%Z then [] else [hp]
            | None => []
            end
       else [])
    (concat doc).

Definition get_dominant_font_and_size (doc : list (list DocxRun)) : str * Z :=
  let fonts := run_fonts doc in
  let sizes := run_sizes doc in
  let dominant_font :=
    match most_common_1 (Counter str_eqb fonts) with
    | Some (font, _) => font
    | None => lit "Times New Roman"
    end in
  let dominant_size :=
    match most_common_1 (Counter Z.eqb sizes) with
    | Some (hp, _) => round_half_points hp
    | None => 13%Z
    end in
  (dominant_font, dominant_size).
End DominantFont.

(** ** Vocabulary of the further properties *)



(** A list of numbers that never decreases. *)
Fixpoint ascending (l : list Z) : bool :=
  match l with
  | [] => true
  | x :: rest =>
      match rest with
      | [] => true
      | y :: _ => (x <=? y)%Z
      end && ascending rest
  end.

Section Properties.
Context {U : UnicodeData} {I : Interpreter} {D : DateLibrary} {Sv : Services}.

(** A name that the instance numbering can be read back from: followed by
    [_instance], it holds no [_instance_].  So it neither contains
    [_instance_] nor ends with [_instance]. *)
Definition plain_name (v : str) : bool :=
  negb (contains (lit "_instance_") (v ++ lit "_instance")).

(** The value validation reads for an entry, and whether the entry lets
    it pass: a blank value if the entry is optional, any other value if it
    matches the pattern of the entry, when there is one. *)
Definition input_of (user_inputs : gmap str str) (ph : Placeholder) : str :=
  default [] (user_inputs !! base_name_of (ph_name ph)).

Definition accepted (user_inputs : gmap str str) (ph : Placeholder) : bool :=
  let value := input_of user_inputs ph in
  if truthy (strip value)
  then match ph_validation_pattern ph with
       | Some (c :: pattern) => re_match (c :: pattern) value
       | _ => true
       end
  else negb (ph_is_required ph).

(** The message of a missing field, as ingestion names it. *)
Definition required_message (v : str) : str :=
  or_str (Some (humanize v)) v ++ lit " is required".

(** Whether a text is blank: empty, or white space only. *)
Definition blank (s : str) : bool := str_eqb (strip s) [].

(** The identifiers in use are below the next one to be given. *)
Definition ids_bounded (w : World) : bool :=
  forallb (fun d => (cd_id d <? next_document_id w)%Z) (w_documents w).

(** No batch of the store has the identifier yet, and no document of the
    store carries it. *)
Definition fresh_batch_id (batch_id : str) (w : World) : bool :=
  forallb (fun b => negb (str_eqb (bg_batch_id b) batch_id)) (w_batches w).

Definition unused_batch_id (batch_id : str) (w : World) : bool :=
  forallb (fun d => negb (bool_decide (cd_batch_id d = Some batch_id)))
          (w_documents w).

(** Every document of the store has its file in the generated folder. *)
Definition documents_have_files (w : World) : bool :=
  forallb (fun d => is_some (file_at (cd_file_path d) w)) (w_documents w).

(** A segment of an address: not empty, trimmed and without a comma. *)
Definition segment (s : str) : Prop :=
  s <> [] /\ no_leading isspace s /\ no_trailing isspace s /\ ~ In COMMA s.

(** The two dictionaries of [get_merged_placeholders] agree: the number
    kept for a name is the least [sort_order] of its group, and no group
    is empty. *)
Definition merge_invariant (state : list (str * list Placeholder) * gmap str Z)
  : Prop :=
  forall n,
    match assoc_get n (fst state) with
    | Some phs => phs <> [] /\ snd state !! n = Some (min_sort_order_of phs)
    | None => snd state !! n = None
    end.

(** A field of the form, filled in: its name is not one of the two
    fields the route keeps for itself, and the form holds a value for it
    that is not blank. *)
Definition reserved (key : str) : bool :=
  str_eqb key (lit "template_id") || str_eqb key (lit "format").

Definition filled (form : gmap str str) (field : Placeholder) : bool :=
  negb (reserved (ph_name field))
  && negb (blank (default [] (form !! ph_name field))).

(** A file name that an archive keeps as it is: not empty, without
    separator and without null character. *)
Definition plain_file_name (name : str) : bool :=
  truthy name && forallb (fun c => negb (c =? SLASH) && negb (c =? 0)) name.

(** An entry of an archive made for a record: under the name the archive
    makes of the recorded file name, the file of the record. *)
Definition entry_of (w : World) (d : CreatedDocument) (entry : str * Docx) : Prop :=
  zip_arcname (cd_original_filename d) = Ok (fst entry)
  /\ file_at (cd_file_path d) w = Some (snd entry).

(** No space, slash or backslash. *)
Definition path_safe (s : str) : bool :=
  forallb (fun c => negb ((c =? SPACE) || (c =? 47) || (c =? 92))) s.

(** What goes in front of the name of a generated file: nothing when no
    name was given or the name is blank, and otherwise the name, with an
    underscore for every space, slash and backslash, and an underscore
    after it. *)
Definition safe_char (c : char) : char :=
  if (c =? SPACE) || (c =? 47) || (c =? 92) then UNDERSCORE else c.

Definition name_prefix (user_inputs : gmap str str) : str :=
  let name := default [] (user_inputs !! lit "name") in
  if blank name then [] else map safe_char name ++ lit "_".

End Properties.

(** ** Further data for evaluation *)

(** An occurrence of a name in the first run of the first paragraph,
    without formatting. *)
Definition sample_occurrence (name : string) : Occurrence :=
  {| occ_name := lit name; occ_paragraph_index := 0; occ_run_index := 0;
     occ_formatting :=
       {| fmt_bold := false; fmt_italic := false; fmt_underline := false;
          fmt_font := None; fmt_size := None |};
     occ_alignment := None |}.

(** A store whose only template has a required field named [format]. *)
Definition reserved_world : @World sample_services :=
  {| w_templates :=
       [{| t_id := 1; t_name := lit "Export"; t_type := lit "letter";
           t_file_path := lit "template.docx";
           t_font_family := lit "Times New Roman"; t_font_size := 12;
           t_placeholders :=
             [sample_placeholder "format" "Format" "text" true 0 "" ""] |}];
     w_documents := []; w_batches := []; w_files := []; w_time := 0 |}.

(** A later occurrence of a name, in an italic run of the third
    paragraph, and a reading of the clock one minute before the sample
    time. *)
Definition later_occurrence (name : string) : Occurrence :=
  {| occ_name := lit name; occ_paragraph_index := 2; occ_run_index := 1;
     occ_formatting :=
       {| fmt_bold := false; fmt_italic := true; fmt_underline := false;
          fmt_font := None; fmt_size := None |};
     occ_alignment := None |}.

Definition earlier_time : datetime :=
  {| dt_year := 2026; dt_month := 1; dt_day := 3; dt_hour := 8; dt_minute := 59;
     dt_second := 0; dt_utcoffset := Some 60%Z |}.


(** A store from which the first and the third record were deleted: the
    records 2 and 4 are left. *)
Definition sample_record (id : Z) : CreatedDocument :=
  {| cd_id := id; cd_template_id := 1; cd_user_name := lit "Ada";
     cd_user_email := None; cd_file_path := lit "kept.docx";
     cd_original_filename := lit "Ada_Admission_20260102_080000.docx";
     cd_file_size := 0; cd_batch_id := None; cd_user_inputs := ∅ |}.

Definition world_after_deletion : @World sample_services :=
  {| w_templates := [sample_template 1 "Admission" "letter"];
     w_documents := [sample_record 2; sample_record 4];
     w_batches := []; w_files := []; w_time := 0 |}.

(** The runs of a document for evaluation: two in Arial, one of them at
    12.5 points, one blank run in Courier and one run at 12.5 points
    without a font name. *)
Definition sample_runs : list (list DocxRun) :=
  [[{| dr_text := lit "Dear"; dr_font_name := Some (lit "Arial");
       dr_font_size := Some 25%Z |};
    {| dr_text := lit "  "; dr_font_name := Some (lit "Courier");
       dr_font_size := Some 40%Z |}];
   [{| dr_text := lit "Sir"; dr_font_name := Some (lit "Arial");
       dr_font_size := None |};
    {| dr_text := lit "."; dr_font_name := None; dr_font_size := Some 25%Z |}]].

(** A document of one paragraph without placeholders. *)
Definition plain_document : element :=
  xml "w:document" []
    [xml "w:body" [] [xml "w:p" [] [xml "w:r" [] [xml_text "Dear Sir or Madam,"]]]].

(** The fields of a submitted form. *)
Definition sample_form : gmap str str :=
  {[ lit "template_id" := lit "1"; lit "format" := lit "docx";
     lit "name" := lit "Ada"; lit "date" := lit "18Th May" ]}.

(* ===================================================================== *)
(** * Part II.  Lemmas and theorems *)
(* ===================================================================== *)

(** ** Basic Latin *)

Lemma is_ascii_lt c : is_ascii c = true <-> c < 128.
Proof. unfold is_ascii. apply N.ltb_lt. Qed.

Ltac ascii_arith :=
  unfold ascii_tolower, ascii_toupper, ascii_isalpha, ascii_isupper, ascii_islower,
    ascii_isdigit, is_ascii, in_range, SIGMA in *;
  repeat match goal with
         | |- context [?a <=? ?b] => destruct (N.leb_spec a b)
         | |- context [?a <? ?b] => destruct (N.ltb_spec a b)
         | |- context [?a =? ?b] => destruct (N.eqb_spec a b)
         | H : context [?a <=? ?b] |- _ => destruct (N.leb_spec a b)
         | H : context [?a <? ?b] |- _ => destruct (N.ltb_spec a b)
         | H : context [?a =? ?b] |- _ => destruct (N.eqb_spec a b)
         end;
  simpl in *; try congruence; try lia.

Lemma ascii_toupper_ascii c : is_ascii c = true -> is_ascii (ascii_toupper c) = true.
Proof. intros H. ascii_arith. Qed.

Lemma ascii_tolower_ascii c : is_ascii c = true -> is_ascii (ascii_tolower c) = true.
Proof. intros H. ascii_arith. Qed.

Lemma ascii_toupper_idem c : ascii_toupper (ascii_toupper c) = ascii_toupper c.
Proof. ascii_arith. Qed.

Lemma ascii_tolower_idem c : ascii_tolower (ascii_tolower c) = ascii_tolower c.
Proof. ascii_arith. Qed.

Lemma ascii_isalpha_toupper c : ascii_isalpha (ascii_toupper c) = ascii_isalpha c.
Proof. ascii_arith. Qed.

Lemma ascii_isalpha_tolower c : ascii_isalpha (ascii_tolower c) = ascii_isalpha c.
Proof. ascii_arith. Qed.

(** ** Casing *)

Section CasingFacts.
Context {U : UnicodeData}.

Lemma flat_map_fixed (f : char -> list char) (l : str) :
  Forall (fun d => f d = [d]) l -> List.flat_map f l = l.
Proof.
  induction 1 as [|d l Hd _ IH]; simpl; [reflexivity|].
  rewrite Hd, IH. reflexivity.
Qed.

Lemma upper_idempotent (v : str) : upper_closed -> upper (upper v) = upper v.
Proof.
  intros Hc. unfold upper. apply flat_map_fixed.
  apply List.Forall_forall. intros d Hd.
  apply in_flat_map in Hd as (c & _ & Hd). eapply Hc, Hd.
Qed.

Lemma lower_go_fixed (t : str) :
  Forall (fun d => d <> SIGMA /\ tolower_full d = [d]) t ->
  forall before, lower_go before t = t.
Proof.
  induction 1 as [|d t [Hs Hd] _ IH]; intros before; simpl; [reflexivity|].
  unfold lower_at. destruct (N.eqb_spec d SIGMA) as [->|_]; [congruence|].
  rewrite Hd, IH. reflexivity.
Qed.

Lemma lower_go_closed (s : str) :
  lower_closed ->
  forall before,
    Forall (fun d => d <> SIGMA /\ tolower_full d = [d]) (lower_go before s).
Proof.
  intros Hc. induction s as [|c s IH]; intros before; simpl; [constructor|].
  apply Forall_app. split; [|apply IH].
  apply List.Forall_forall. intros d Hd. eapply Hc, Hd.
Qed.

Lemma lower_idempotent (v : str) : lower_closed -> lower (lower v) = lower v.
Proof.
  intros Hc. unfold lower. apply lower_go_fixed, lower_go_closed, Hc.
Qed.

Lemma lower_at_ascii before c after :
  is_ascii c = true -> lower_at before c after = [ascii_tolower c].
Proof.
  intros H. unfold lower_at, tolower_full. rewrite H.
  destruct (N.eqb_spec c SIGMA) as [->|_]; [discriminate H|reflexivity].
Qed.

Lemma title_go_ascii (s : str) :
  forallb is_ascii s = true ->
  forall p before, title_go p before s = ascii_title p s.
Proof.
  induction s as [|c s IH]; intros Hs p before; simpl; [reflexivity|].
  simpl in Hs. apply andb_true_iff in Hs as [Hc Hs].
  rewrite IH by exact Hs. rewrite lower_at_ascii by exact Hc.
  unfold totitle_full, iscased. rewrite Hc. destruct p; reflexivity.
Qed.

(** A second pass over what the first wrote for a stable character. *)
Lemma title_go_fixed (out : str) :
  forall p q before rest,
    fixed_under_title p out = Some q ->
    title_go p before (out ++ rest) = out ++ title_go q (rev out ++ before) rest.
Proof.
  induction out as [|d out IH]; intros p q before rest H.
  - injection H as <-. reflexivity.
  - cbn [fixed_under_title] in H. cbn [app title_go rev].
    assert (Hd : (if p then lower_at before d (out ++ rest) else totitle_full d) = [d]
                 /\ fixed_under_title (iscased d) out = Some q).
    { destruct p.
      - destruct (N.eqb_spec d SIGMA) as [->|Hs]; [discriminate H|].
        cbn [negb andb] in H.
        destruct (str_eqb (tolower_full d) [d]) eqn:E; [|discriminate H].
        apply bool_decide_eq_true in E. split; [|exact H].
        unfold lower_at. rewrite (proj2 (N.eqb_neq d SIGMA) Hs). exact E.
      - destruct (str_eqb (totitle_full d) [d]) eqn:E; [|discriminate H].
        apply bool_decide_eq_true in E. split; [exact E | exact H]. }
    destruct Hd as [-> Hout].
    rewrite (IH _ _ (d :: before) rest Hout). rewrite <- app_assoc. reflexivity.
Qed.

(** Every Basic Latin character is stable. *)
Lemma ascii_title_stable (c : char) : is_ascii c = true -> title_stable c = true.
Proof.
  intros Hc.
  pose proof (ascii_toupper_ascii c Hc) as Hu.
  pose proof (ascii_tolower_ascii c Hc) as Hl.
  assert (Hs : (c =? SIGMA) = false).
  { apply N.eqb_neq. intros ->. discriminate Hc. }
  assert (Hls : (ascii_tolower c =? SIGMA) = false).
  { apply N.eqb_neq. intros E. rewrite E in Hl. discriminate Hl. }
  assert (Ht : fixed_under_title false [ascii_toupper c] = Some (ascii_isalpha c)).
  { cbn [fixed_under_title]. unfold totitle_full, iscased. rewrite Hu.
    rewrite ascii_toupper_idem, ascii_isalpha_toupper.
    unfold str_eqb. rewrite bool_decide_eq_true_2 by reflexivity. reflexivity. }
  assert (Hlo : fixed_under_title true [ascii_tolower c] = Some (ascii_isalpha c)).
  { cbn [fixed_under_title]. unfold tolower_full, iscased. rewrite Hls, Hl.
    rewrite ascii_tolower_idem, ascii_isalpha_tolower.
    unfold str_eqb. rewrite bool_decide_eq_true_2 by reflexivity. reflexivity. }
  unfold title_stable, lowerings. rewrite Hs.
  unfold totitle_full, tolower_full, iscased. rewrite Hc.
  cbn [forallb]. rewrite Ht, Hlo.
  rewrite bool_decide_eq_true_2 by reflexivity. reflexivity.
Qed.

Lemma title_go_stable (s : str) :
  forallb (fun c => is_ascii c || title_stable c) s = true ->
  forall p before before',
    title_go p before' (title_go p before s) = title_go p before s.
Proof.
  induction s as [|c s IH]; intros Hs p before before'; [reflexivity|].
  cbn [forallb] in Hs. apply andb_true_iff in Hs as [Hc Hs].
  assert (Hst : title_stable c = true).
  { destruct (is_ascii c) eqn:Ha; [apply ascii_title_stable, Ha | exact Hc]. }
  unfold title_stable in Hst. apply andb_true_iff in Hst as [Ht Hl].
  apply bool_decide_eq_true in Ht. rewrite forallb_forall in Hl.
  cbn [title_go].
  assert (Hout : fixed_under_title p
                   (if p then lower_at before c s else totitle_full c)
                 = Some (iscased c)).
  { destruct p; [|exact Ht].
    eapply bool_decide_eq_true_1, Hl. unfold lowerings, lower_at.
    destruct (c =? SIGMA); [|left; reflexivity].
    destruct (final_sigma before s); [left | right; left]; reflexivity. }
  rewrite (title_go_fixed _ _ _ before' _ Hout). f_equal. apply IH, Hs.
Qed.

Lemma title_idempotent_stable (v : str) :
  forallb (fun c => is_ascii c || title_stable c) v = true ->
  title (title v) = title v.
Proof. intros Hv. unfold title. apply title_go_stable, Hv. Qed.

(** C9 (amended).  Applying a casing twice equals applying it once: for
    every string and every mode other than [title], provided the upper-
    and lower-case mappings of the character database send their own
    results to themselves; and for [title] on every string of stable
    characters, those for which what title-casing writes is left alone by
    a second pass and ends as cased as the character itself.  Every Basic
    Latin character is stable. *)
Theorem apply_casing_idempotent (v casing : str) :
  upper_closed -> lower_closed ->
  (casing = lit "title" ->
   forallb (fun c => is_ascii c || title_stable c) v = true) ->
  apply_casing (apply_casing v casing) casing = apply_casing v casing.
Proof.
  intros Hup Hlow Htitle. unfold apply_casing, str_eqb.
  repeat case_bool_decide.
  - apply upper_idempotent, Hup.
  - apply lower_idempotent, Hlow.
  - apply title_idempotent_stable, Htitle. assumption.
  - reflexivity.
Qed.
End CasingFacts.

Lemma basic_latin_upper_closed : @upper_closed basic_latin.
Proof.
  intros c d. unfold toupper_full. simpl.
  destruct (is_ascii c) eqn:Hc; intros [<-|[]].
  - rewrite ascii_toupper_ascii by exact Hc. rewrite ascii_toupper_idem. reflexivity.
  - rewrite Hc. reflexivity.
Qed.

Lemma basic_latin_lower_closed : @lower_closed basic_latin.
Proof.
  intros before c after d. unfold lower_at.
  destruct (N.eqb_spec c SIGMA) as [->|Hs].
  - intros [<-|[]]. destruct (final_sigma before after);
      (split; [discriminate | reflexivity]).
  - unfold tolower_full. simpl. destruct (is_ascii c) eqn:Hc; intros [<-|[]].
    + split.
      * apply ascii_tolower_ascii in Hc. intros E. rewrite E in Hc. discriminate Hc.
      * rewrite ascii_tolower_ascii by exact Hc. rewrite ascii_tolower_idem. reflexivity.
    + split; [exact Hs | rewrite Hc; reflexivity].
Qed.

(** The rows of the accented letters: case analysis on the character. *)
Ltac split_rows :=
  repeat match goal with
         | |- context [N.eqb ?a ?b] =>
             destruct (N.eqb_spec a b); subst; try discriminate; try congruence
         | H : context [N.eqb ?a ?b] |- _ =>
             destruct (N.eqb_spec a b); subst; try discriminate; try congruence
         end.

Ltac members H :=
  repeat (destruct H as [<-|H]; [try (vm_compute; reflexivity)|]);
  try destruct H.

Lemma accented_rows_upper_closed : @upper_closed accented_rows.
Proof.
  intros c d Hin. unfold toupper_full in Hin.
  destruct (is_ascii c) eqn:Hc.
  - destruct Hin as [<-|[]]. unfold toupper_full.
    rewrite ascii_toupper_ascii by exact Hc.
    rewrite ascii_toupper_idem. reflexivity.
  - cbv [accented_rows ud_toupper accented_toupper SHARP_S J_CARON COMBINING_CARON] in Hin.
    split_rows; members Hin;
      unfold toupper_full; rewrite Hc;
      cbv [accented_rows ud_toupper accented_toupper SHARP_S J_CARON COMBINING_CARON];
      split_rows; reflexivity.
Qed.

Lemma accented_rows_lower_closed : @lower_closed accented_rows.
Proof.
  intros before c after d Hin. unfold lower_at in Hin.
  destruct (N.eqb_spec c SIGMA) as [->|Hs].
  - destruct Hin as [<-|[]]. destruct (final_sigma before after);
      (split; [discriminate | vm_compute; reflexivity]).
  - unfold tolower_full in Hin. destruct (is_ascii c) eqn:Hc.
    + destruct Hin as [<-|[]]. split.
      * apply ascii_tolower_ascii in Hc. intros E. rewrite E in Hc. discriminate Hc.
      * unfold tolower_full. rewrite ascii_tolower_ascii by exact Hc.
        rewrite ascii_tolower_idem. reflexivity.
    + cbv [accented_rows ud_tolower accented_tolower] in Hin.
      split_rows; destruct Hin as [<-|[]];
        try (split; [discriminate | vm_compute; reflexivity]);
        (split; [exact Hs|]); unfold tolower_full; rewrite Hc;
        cbv [accented_rows ud_tolower accented_tolower]; split_rows; reflexivity.
Qed.

(** Title-casing ["josé ọlá"] twice. *)
Lemma apply_casing_idempotent_witness :
  @apply_casing accented_rows
    (@apply_casing accented_rows jose_ola (lit "title")) (lit "title")
  = @apply_casing accented_rows jose_ola (lit "title").
Proof.
  apply (@apply_casing_idempotent accented_rows jose_ola (lit "title")).
  - exact accented_rows_upper_closed.
  - exact accented_rows_lower_closed.
  - intros _. vm_compute. reflexivity.
Defined.

(** C9 (as stated) fails for the mode [title]: title-casing U+01F0 followed
    by [a] gives U+004A U+030C [a], and title-casing that gives
    U+004A U+030C [A], because the combining caron is not cased. *)
Lemma apply_casing_title_not_idempotent :
  @apply_casing special_casing_rows [J_CARON; 97] (lit "title")
  = [74; COMBINING_CARON; 97]
  /\ @apply_casing special_casing_rows [74; COMBINING_CARON; 97] (lit "title")
     = [74; COMBINING_CARON; 65]
  /\ @apply_casing special_casing_rows
       (@apply_casing special_casing_rows [J_CARON; 97] (lit "title")) (lit "title")
     <> @apply_casing special_casing_rows [J_CARON; 97] (lit "title").
Proof. repeat split; vm_compute; try reflexivity; discriminate. Qed.

(** ** The matcher *)

Lemma takewhile_dropwhile {A} (p : A -> bool) (l : list A) :
  takewhile_b p l ++ dropwhile_b p l = l.
Proof.
  induction l as [|x l IH]; simpl; [reflexivity|].
  destruct (p x); simpl; [rewrite IH|]; reflexivity.
Qed.

Lemma flat_map_map {A B C} (f : B -> list C) (g : A -> B) (l : list A) :
  List.flat_map f (map g l) = List.flat_map (fun x => f (g x)) l.
Proof. induction l as [|x l IH]; simpl; [|rewrite IH]; reflexivity. Qed.

(** When what follows a greedy run cannot start with a character of the
    run, only the longest run leads to a match. *)
Lemma flat_map_star_runs {B} (p : char -> bool) (s : str) :
  forall F : str * str -> list B,
    (forall m d r, p d = true -> F (m, d :: r) = []) ->
    List.flat_map F (star_runs p s) = F (takewhile_b p s, dropwhile_b p s).
Proof.
  induction s as [|c s IH]; intros F HF; simpl.
  - apply app_nil_r.
  - destruct (p c) eqn:Hc; simpl; [|apply app_nil_r].
    rewrite flat_map_app. simpl. rewrite HF by exact Hc. simpl. rewrite app_nil_r.
    rewrite flat_map_map.
    rewrite (List.flat_map_ext _ (fun x => F (c :: fst x, snd x)))
      by (intros [m r]; reflexivity).
    apply (IH (fun x => F (c :: fst x, snd x))).
    intros m d r Hd. simpl. apply HF, Hd.
Qed.

Section MatcherFacts.
Context {U : UnicodeData}.

Lemma rmatch_plus_then (k : cls) (r2 : regex) (prev : option char) (s : str) :
  (forall p' d rest, in_cls k d = true -> rmatch r2 p' (d :: rest) = []) ->
  rmatch (RSeq (RGroup (RPlus k)) r2) prev s =
  match takewhile_b (in_cls k) s with
  | [] => []
  | m1 =>
      map (fun '(m2, g2, s2) => (m1 ++ m2, m1 :: g2, s2))
          (rmatch r2 (prev_after prev m1) (dropwhile_b (in_cls k) s))
  end.
Proof.
  intros Hr2. simpl. rewrite !flat_map_map. unfold plus_runs.
  destruct s as [|c s]; simpl; [reflexivity|].
  destruct (in_cls k c) eqn:Hc; simpl; [|reflexivity].
  rewrite flat_map_map.
  set (F := fun x : str * str =>
              map (fun '(m2, g2, s2) => ((c :: fst x) ++ m2, (c :: fst x) :: g2, s2))
                  (rmatch r2 (prev_after prev (c :: fst x)) (snd x))).
  rewrite (List.flat_map_ext _ F).
  - rewrite (flat_map_star_runs (in_cls k) s F); [reflexivity|].
    intros m d r Hd. unfold F. simpl snd. rewrite Hr2 by exact Hd. reflexivity.
  - intros [m r]. unfold F. simpl. apply map_ext. intros [[m2 g2] s2]. reflexivity.
Qed.
End MatcherFacts.

(** ** The ordinal pattern *)

Section OrdinalPattern.
Context {U : UnicodeData}.

Lemma rmatch_rlit2 (x y : char) (prev : option char) (s : str) :
  rmatch (rlit2 x y) prev s =
  match s with
  | a :: b :: rest => if (a =? x) && (b =? y) then [([a; b], [], rest)] else []
  | _ => []
  end.
Proof.
  unfold rlit2. cbn -[N.eqb].
  destruct s as [|a [|b rest]]; cbn -[N.eqb]; try reflexivity.
  - rewrite (N.eqb_sym x a). destruct (a =? x); reflexivity.
  - rewrite (N.eqb_sym x a).
    destruct (a =? x); cbn -[N.eqb]; [|reflexivity].
    rewrite (N.eqb_sym y b). destruct (b =? y); reflexivity.
Qed.

Lemma rmatch_suffix_alternatives (prev : option char) (s : str) :
  rmatch suffix_alternatives prev s =
  match s with
  | a :: b :: rest => if is_suffix_pair a b then [([a; b], [], rest)] else []
  | _ => []
  end.
Proof.
  unfold suffix_alternatives.
  cbn -[N.eqb rlit2]. rewrite !rmatch_rlit2.
  destruct s as [|a [|b rest]]; try reflexivity.
  unfold is_suffix_pair.
  destruct (N.eqb_spec a 84) as [->|]; cbn -[N.eqb].
  { destruct (b =? 104); reflexivity. }
  destruct (N.eqb_spec a 83) as [->|]; cbn -[N.eqb].
  { destruct (b =? 116); reflexivity. }
  destruct (N.eqb_spec a 78) as [->|]; cbn -[N.eqb].
  { destruct (b =? 100); reflexivity. }
  destruct (a =? 82); cbn -[N.eqb]; [|reflexivity].
  destruct (b =? 100); reflexivity.
Qed.

Lemma is_suffix_pair_word (a b : char) :
  is_suffix_pair a b = true -> isword b = true.
Proof.
  unfold is_suffix_pair. intros H.
  destruct (N.eqb_spec b 104) as [Hb|_]; [rewrite Hb; reflexivity|].
  destruct (N.eqb_spec b 116) as [Hb|_]; [rewrite Hb; reflexivity|].
  destruct (N.eqb_spec b 100) as [Hb|_]; [rewrite Hb; reflexivity|].
  rewrite !andb_false_r in H. discriminate H.
Qed.

Lemma rmatch_suffix_tail (prev : option char) (s : str) :
  rmatch (RSeq (RGroup suffix_alternatives) RWordBoundary) prev s =
  match s with
  | a :: b :: rest =>
      if is_suffix_pair a b && negb (is_word_opt (head rest))
      then [([a; b], [[a; b]], rest)] else []
  | _ => []
  end.
Proof.
  cbn -[suffix_alternatives]. rewrite rmatch_suffix_alternatives.
  destruct s as [|a [|b rest]]; try reflexivity.
  destruct (is_suffix_pair a b) eqn:Hab; [|reflexivity].
  cbn. rewrite (is_suffix_pair_word a b Hab).
  destruct (is_word_opt (head rest)); reflexivity.
Qed.

Lemma isdecimal_not_suffix (d b : char) :
  isdecimal d = true -> is_suffix_pair d b = false.
Proof.
  intros Hd. unfold is_suffix_pair.
  destruct (N.eqb_spec d 84) as [->|_]; [discriminate Hd|].
  destruct (N.eqb_spec d 83) as [->|_]; [discriminate Hd|].
  destruct (N.eqb_spec d 78) as [->|_]; [discriminate Hd|].
  destruct (N.eqb_spec d 82) as [->|_]; [discriminate Hd|].
  reflexivity.
Qed.

Lemma is_suffix_pair_letters (a b : char) :
  is_suffix_pair a b = true ->
  isdecimal a = false /\ isdecimal b = false /\
  is_suffix_pair (ascii_tolower a) b = false /\
  (forall c, is_suffix_pair b c = false).
Proof.
  unfold is_suffix_pair. intros H.
  repeat (apply orb_true_iff in H as [H|H]);
    apply andb_true_iff in H as [Ha Hb];
    apply N.eqb_eq in Ha, Hb; rewrite Ha, Hb;
    repeat split; reflexivity.
Qed.

(** The match of the pattern at one position. *)
Lemma match_at_ordinal (prev : option char) (s : str) :
  match_at ordinal_suffix_re prev s =
  match takewhile_b isdecimal s, dropwhile_b isdecimal s with
  | d :: ds, a :: b :: rest =>
      if is_suffix_pair a b && negb (is_word_opt (head rest))
      then Some ((d :: ds) ++ [a; b], [d :: ds; [a; b]]) else None
  | _, _ => None
  end.
Proof.
  unfold match_at, ordinal_suffix_re.
  change (RAlt (rlit2 84 104) (RAlt (rlit2 83 116) (RAlt (rlit2 78 100) (rlit2 82 100))))
    with suffix_alternatives.
  rewrite rmatch_plus_then.
  - change (in_cls ClsDigit) with isdecimal.
    destruct (takewhile_b isdecimal s) as [|d ds]; [reflexivity|].
    cbv zeta. rewrite rmatch_suffix_tail.
    destruct (dropwhile_b isdecimal s) as [|a [|b rest]]; try reflexivity.
    destruct (is_suffix_pair a b && negb (is_word_opt (head rest))); reflexivity.
  - intros p' d rest Hd. rewrite rmatch_suffix_tail.
    destruct rest as [|b rest]; [reflexivity|].
    rewrite isdecimal_not_suffix by exact Hd. reflexivity.
Qed.
End OrdinalPattern.

Section OrdinalSubstitution.
Context {U : UnicodeData}.

Lemma prev_after_cons (prev : option char) (c : char) (m : str) :
  prev_after prev (c :: m) = prev_after (Some c) m.
Proof.
  unfold prev_after. destruct m as [|d m]; [reflexivity|].
  change (last (c :: d :: m)) with (last (d :: m)).
  destruct (last (d :: m)) eqn:E; [reflexivity|].
  apply last_None in E. discriminate E.
Qed.

Lemma sub_go_skip (r : regex) (repl : str -> list str -> str) (m s : str) :
  forall prev,
    sub_go r repl (length m) prev (m ++ s) = sub_go r repl 0 (prev_after prev m) s.
Proof.
  induction m as [|c m IH]; intros prev.
  - reflexivity.
  - rewrite prev_after_cons. simpl. apply IH.
Qed.

Lemma takewhile_all {A} (p : A -> bool) (l : list A) :
  forallb p (takewhile_b p l) = true.
Proof.
  induction l as [|x l IH]; simpl; [reflexivity|].
  destruct (p x) eqn:E; simpl; [rewrite E, IH|]; reflexivity.
Qed.

Lemma suffix_here_digit (f : bool) (d : char) (s : str) :
  isdecimal d = true -> suffix_here f (d :: s) = false.
Proof.
  intros Hd. unfold suffix_here. destruct s as [|b rest].
  - apply andb_false_r.
  - rewrite isdecimal_not_suffix by exact Hd. apply andb_false_r.
Qed.

(** Digits are copied, and the flag is set after them. *)
Lemma lower_suffixes_digits (ds : str) :
  forallb isdecimal ds = true ->
  forall d f s,
    isdecimal d = true ->
    lower_suffixes f ((d :: ds) ++ s) = (d :: ds) ++ lower_suffixes true s.
Proof.
  induction ds as [|e ds IH]; intros Hds d f s Hd.
  - simpl. rewrite Hd. destruct (suffix_here f (d :: s)) eqn:E; [|reflexivity].
    rewrite suffix_here_digit in E by exact Hd. discriminate E.
  - simpl in Hds. apply andb_true_iff in Hds as [He Hds].
    change (lower_suffixes f ((d :: e :: ds) ++ s))
      with ((if suffix_here f (d :: (e :: ds) ++ s) then ascii_tolower d else d)
              :: lower_suffixes (isdecimal d) ((e :: ds) ++ s)).
    rewrite suffix_here_digit by exact Hd.
    rewrite (IH Hds e (isdecimal d) s He). reflexivity.
Qed.

Lemma lower_suffix_pair (a b : char) :
  is_suffix_pair a b = true -> lower [a; b] = [ascii_tolower a; b].
Proof.
  unfold is_suffix_pair. intros H.
  repeat (apply orb_true_iff in H as [H|H]);
    apply andb_true_iff in H as [Ha Hb];
    apply N.eqb_eq in Ha, Hb; rewrite Ha, Hb; reflexivity.
Qed.

(** A matched suffix, as [lower_suffixes] writes it. *)
Lemma lower_suffixes_match (a b : char) (rest : str) :
  is_suffix_pair a b = true ->
  is_word_opt (head rest) = false ->
  lower_suffixes true (a :: b :: rest)
  = ascii_tolower a :: b :: lower_suffixes false rest.
Proof.
  intros Hab Hw.
  destruct (is_suffix_pair_letters a b Hab) as (Ha & Hb & _ & Hb').
  simpl. rewrite Hab, Hw, Ha, Hb. simpl.
  reflexivity.
Qed.

(** The substitution, position by position. *)
Lemma sub_go_ordinal (n : nat) :
  forall (s : str) (prev : option char),
    (length s <= n)%nat ->
    suffix_here (is_digit_opt prev) s = false ->
    sub_go ordinal_suffix_re ordinal_repl 0 prev s
    = lower_suffixes (is_digit_opt prev) s.
Proof.
  induction n as [|n IH]; intros s prev Hlen Hhere.
  { destruct s; [reflexivity | simpl in Hlen; lia]. }
  destruct s as [|c s]; [reflexivity|].
  simpl in Hlen.
  change (sub_go ordinal_suffix_re ordinal_repl 0 prev (c :: s))
    with (match match_at ordinal_suffix_re prev (c :: s) with
          | Some (m, g) =>
              ordinal_repl m g
                ++ sub_go ordinal_suffix_re ordinal_repl (pred (length m)) (Some c) s
          | None => c :: sub_go ordinal_suffix_re ordinal_repl 0 (Some c) s
          end).
  change (lower_suffixes (is_digit_opt prev) (c :: s))
    with ((if suffix_here (is_digit_opt prev) (c :: s) then ascii_tolower c else c)
            :: lower_suffixes (isdecimal c) s).
  rewrite Hhere, match_at_ordinal.
  pose proof (takewhile_dropwhile isdecimal s) as Hsplit.
  pose proof (takewhile_all isdecimal s) as Hall.
  assert (IHc : suffix_here (isdecimal c) s = false ->
                sub_go ordinal_suffix_re ordinal_repl 0 (Some c) s
                = lower_suffixes (isdecimal c) s).
  { intros H. apply (IH s (Some c)); [lia | exact H]. }
  simpl. destruct (isdecimal c) eqn:Hc.
  - (* a run of digits starts here *)
    destruct (dropwhile_b isdecimal s) as [|a [|b rest]] eqn:Hdw.
    + f_equal. apply IHc.
      rewrite <- Hsplit. rewrite app_nil_r.
      destruct (takewhile_b isdecimal s) as [|d ds]; [reflexivity|].
      simpl in Hall. apply andb_true_iff in Hall as [Hd _].
      apply suffix_here_digit, Hd.
    + f_equal. apply IHc.
      rewrite <- Hsplit.
      destruct (takewhile_b isdecimal s) as [|d ds].
      * unfold suffix_here. simpl. reflexivity.
      * simpl in Hall. apply andb_true_iff in Hall as [Hd _].
        apply suffix_here_digit, Hd.
    + destruct (is_suffix_pair a b && negb (is_word_opt (head rest))) eqn:Hm.
      * apply andb_true_iff in Hm as [Hab Hw]. apply negb_true_iff in Hw.
        destruct (is_suffix_pair_letters a b Hab) as (_ & Hb & _ & _).
        remember (takewhile_b isdecimal s) as tw eqn:Htw. clear Htw IHc.
        subst s.
        assert (IHb : sub_go ordinal_suffix_re ordinal_repl 0 (Some b) rest
                      = lower_suffixes false rest).
        { rewrite (IH rest (Some b)).
          - simpl. rewrite Hb. reflexivity.
          - rewrite length_app in Hlen. simpl in Hlen. lia.
          - simpl. rewrite Hb. reflexivity. }
        assert (Hrun :
          lower_suffixes true (tw ++ a :: b :: rest)
          = tw ++ ascii_tolower a :: b :: lower_suffixes false rest).
        { destruct tw as [|d ds].
          - simpl app. apply lower_suffixes_match; assumption.
          - simpl in Hall. apply andb_true_iff in Hall as [Hd Hds].
            rewrite (lower_suffixes_digits ds Hds d true (a :: b :: rest) Hd).
            rewrite lower_suffixes_match by assumption. reflexivity. }
        rewrite Hrun.
        assert (Hrepl : ordinal_repl (c :: tw ++ [a; b]) [c :: tw; [a; b]]
                        = (c :: tw) ++ [ascii_tolower a; b]).
        { unfold ordinal_repl. simpl nth.
          rewrite (lower_suffix_pair a b Hab). reflexivity. }
        rewrite Hrepl.
        replace (Init.Nat.pred (length (c :: tw ++ [a; b]))) with (length (tw ++ [a; b]))
          by reflexivity.
        replace (tw ++ a :: b :: rest) with ((tw ++ [a; b]) ++ rest)
          by (rewrite <- app_assoc; reflexivity).
        rewrite sub_go_skip.
        assert (Hprev : prev_after (Some c) (tw ++ [a; b]) = Some b).
        { unfold prev_after.
          replace (tw ++ [a; b]) with ((tw ++ [a]) ++ [b])
            by (rewrite <- app_assoc; reflexivity).
          rewrite last_snoc. reflexivity. }
        rewrite Hprev, IHb. simpl. rewrite <- !app_assoc. reflexivity.
      * f_equal. apply IHc.
        rewrite <- Hsplit.
        destruct (takewhile_b isdecimal s) as [|d ds].
        -- unfold suffix_here. simpl. exact Hm.
        -- simpl in Hall. apply andb_true_iff in Hall as [Hd _].
           apply suffix_here_digit, Hd.
  - (* no digit here: no match starts *)
    f_equal. apply IHc. reflexivity.
Qed.
End OrdinalSubstitution.

Section OrdinalCasing.
Context {U : UnicodeData}.

Lemma re_sub_ordinal (text : str) :
  re_sub ordinal_suffix_re ordinal_repl text = lower_suffixes false text.
Proof.
  unfold re_sub. apply (sub_go_ordinal (length text) text None); [lia|].
  reflexivity.
Qed.

Lemma fix_date_ordinal_casing_eq (text : str) :
  fix_date_ordinal_casing text
  = if isupper text then text else lower_suffixes false text.
Proof. unfold fix_date_ordinal_casing. rewrite re_sub_ordinal. reflexivity. Qed.

(** *** Idempotence *)

Lemma suffix_letters_lowered (a b : char) :
  is_suffix_pair a b = true ->
  isdecimal (ascii_tolower a) = false /\
  (forall x, is_suffix_pair (ascii_tolower a) x = false).
Proof.
  unfold is_suffix_pair. intros H.
  repeat (apply orb_true_iff in H as [H|H]);
    apply andb_true_iff in H as [Ha Hb];
    apply N.eqb_eq in Ha; rewrite Ha; split; reflexivity.
Qed.

Lemma head_lower_suffixes_false (s : str) :
  head (lower_suffixes false s) = head s.
Proof. destruct s as [|c s]; reflexivity. Qed.

Lemma lower_suffixes_cons (f : bool) (c : char) (s : str) :
  lower_suffixes f (c :: s)
  = (if suffix_here f (c :: s) then ascii_tolower c else c)
      :: lower_suffixes (isdecimal c) s.
Proof. reflexivity. Qed.

(** After the substitution no capitalised suffix is left at the head. *)
Lemma suffix_here_after (f : bool) (c : char) (s : str) :
  suffix_here f
    ((if suffix_here f (c :: s) then ascii_tolower c else c)
       :: lower_suffixes (isdecimal c) s) = false.
Proof.
  destruct (suffix_here f (c :: s)) eqn:Hh.
  - (* the head was lowered *)
    unfold suffix_here in Hh. apply andb_true_iff in Hh as [_ Hh].
    destruct s as [|b rest]; [discriminate Hh|].
    apply andb_true_iff in Hh as [Hcb _].
    destruct (suffix_letters_lowered c b Hcb) as [_ Hno].
    unfold suffix_here. destruct (lower_suffixes (isdecimal c) (b :: rest)) as [|x t].
    + apply andb_false_r.
    + rewrite Hno. apply andb_false_r.
  - (* the head was kept *)
    destruct f; [|reflexivity].
    unfold suffix_here in Hh |- *. simpl andb in Hh |- *.
    destruct s as [|b rest]; [reflexivity|].
    rewrite lower_suffixes_cons.
    destruct (is_suffix_pair c b) eqn:Hcb.
    + destruct (is_suffix_pair_letters c b Hcb) as (Hc & Hb & _ & _).
      rewrite Hc, Hb. simpl. rewrite Hcb.
      rewrite head_lower_suffixes_false. exact Hh.
    + destruct (suffix_here (isdecimal c) (b :: rest)) eqn:Hb.
      * unfold suffix_here in Hb. apply andb_true_iff in Hb as [Hc _].
        rewrite isdecimal_not_suffix by exact Hc. reflexivity.
      * rewrite Hcb. reflexivity.
Qed.

Lemma isdecimal_after (f : bool) (c : char) (s : str) :
  isdecimal (if suffix_here f (c :: s) then ascii_tolower c else c) = isdecimal c.
Proof.
  destruct (suffix_here f (c :: s)) eqn:Hh; [|reflexivity].
  unfold suffix_here in Hh. apply andb_true_iff in Hh as [_ Hh].
  destruct s as [|b rest]; [discriminate Hh|].
  apply andb_true_iff in Hh as [Hcb _].
  destruct (suffix_letters_lowered c b Hcb) as [Hl _].
  destruct (is_suffix_pair_letters c b Hcb) as (Hc & _).
  rewrite Hl, Hc. reflexivity.
Qed.

Lemma lower_suffixes_idempotent (s : str) :
  forall f, lower_suffixes f (lower_suffixes f s) = lower_suffixes f s.
Proof.
  induction s as [|c s IH]; intros f; [reflexivity|].
  rewrite lower_suffixes_cons.
  rewrite lower_suffixes_cons.
  rewrite suffix_here_after, isdecimal_after, IH. reflexivity.
Qed.

(** C10.  [fix_date_ordinal_casing] is idempotent. *)
Theorem fix_date_ordinal_casing_idempotent (s : str) :
  fix_date_ordinal_casing (fix_date_ordinal_casing s) = fix_date_ordinal_casing s.
Proof.
  rewrite (fix_date_ordinal_casing_eq s).
  destruct (isupper s) eqn:Hs.
  - rewrite fix_date_ordinal_casing_eq, Hs. reflexivity.
  - rewrite fix_date_ordinal_casing_eq.
    destruct (isupper (lower_suffixes false s)); [reflexivity|].
    apply lower_suffixes_idempotent.
Qed.
End OrdinalCasing.

Section OrdinalPositions.
Context {U : UnicodeData}.

Lemma ordinal_suffix_at_app (pre s : str) :
  ordinal_suffix_at (pre ++ s) (length pre) = suffix_here (flag_after pre) s.
Proof.
  unfold ordinal_suffix_at, flag_after.
  rewrite drop_app_length. f_equal.
  destruct pre as [|c pre] using rev_ind; [reflexivity|].
  rewrite length_app. simpl. rewrite Nat.add_1_r.
  rewrite <- app_assoc. simpl.
  rewrite nth_error_app2 by lia. rewrite Nat.sub_diag. simpl.
  rewrite last_snoc. reflexivity.
Qed.

Lemma lower_suffixes_imap (s : str) :
  forall pre,
    lower_suffixes (flag_after pre) s
    = imap (fun i c =>
              if ordinal_suffix_at (pre ++ s) (length pre + i) then ascii_tolower c else c)
           s.
Proof.
  induction s as [|c s IH]; intros pre; [reflexivity|].
  rewrite lower_suffixes_cons. simpl imap.
  rewrite Nat.add_0_r, ordinal_suffix_at_app. f_equal.
  replace (isdecimal c) with (flag_after (pre ++ [c]))
    by (unfold flag_after; rewrite last_snoc; reflexivity).
  rewrite (IH (pre ++ [c])).
  apply imap_ext. intros i x _. simpl.
  rewrite <- app_assoc, length_app. simpl.
  replace (length pre + 1 + i)%nat with (length pre + S i)%nat by lia.
  reflexivity.
Qed.

(** C8 (amended).  A text that is entirely upper case ([str.isupper])
    is returned unchanged.  In any other text the first letter of each
    capitalised suffix [Th], [St], [Nd], [Rd] that directly follows a
    decimal digit and ends at a word boundary is lowered, and every other
    character is kept, a suffix in another casing included:
    ["19Th September"] becomes ["19th September"], and
    ["19TH SEPTEMBER"], being upper case, is left as it is. *)
Theorem fix_date_ordinal_casing_spec (text : str) :
  fix_date_ordinal_casing text
  = (if isupper text then text
     else imap (fun i c => if ordinal_suffix_at text i then ascii_tolower c else c) text)
  /\ fix_date_ordinal_casing (lit "19Th September") = lit "19th September"
  /\ isupper (lit "19TH SEPTEMBER") = true
  /\ fix_date_ordinal_casing (lit "19TH SEPTEMBER") = lit "19TH SEPTEMBER".
Proof.
  split; [|repeat split; vm_compute; reflexivity].
  rewrite fix_date_ordinal_casing_eq.
  destruct (isupper text); [reflexivity|].
  apply (lower_suffixes_imap text []).
Qed.
End OrdinalPositions.

(** C8 (as stated) fails.  ["19TH May"] is not entirely upper case and
    its suffix is not in lower case, yet it comes back as it is, where
    the normalisation of every irregular suffix gives ["19th May"]; so do
    ["19tH September"] and ["21sT"].  Only the capitalised suffixes are
    lowered, as the first example of the claim shows. *)
Lemma fix_date_ordinal_casing_keeps_other_casings :
  @isupper basic_latin (lit "19TH May") = false
  /\ @fix_date_ordinal_casing basic_latin (lit "19TH May") = lit "19TH May"
  /\ @claimed_ordinal_casing basic_latin (lit "19TH May") = lit "19th May"
  /\ @fix_date_ordinal_casing basic_latin (lit "19TH May")
     <> @claimed_ordinal_casing basic_latin (lit "19TH May")
  /\ @fix_date_ordinal_casing basic_latin (lit "19tH September")
     = lit "19tH September"
  /\ @claimed_ordinal_casing basic_latin (lit "19tH September")
     = lit "19th September"
  /\ @fix_date_ordinal_casing basic_latin (lit "21sT") = lit "21sT"
  /\ @claimed_ordinal_casing basic_latin (lit "21sT") = lit "21st"
  /\ @claimed_ordinal_casing basic_latin (lit "19Th September")
     = @fix_date_ordinal_casing basic_latin (lit "19Th September").
Proof. repeat split; vm_compute; try reflexivity; discriminate. Qed.

(** ** Addresses *)

Lemma rdrop_snoc {A} (p : A -> bool) (l : list A) (c : A) :
  rdrop p (l ++ [c]) = if p c then rdrop p l else l ++ [c].
Proof.
  unfold rdrop. rewrite rev_app_distr. simpl.
  destruct (p c); [reflexivity|]. simpl. rewrite rev_involutive. reflexivity.
Qed.

Lemma dropwhile_weaker {A} (p q : A -> bool) (l : list A) :
  (forall x, p x = true -> q x = true) ->
  dropwhile_b q (dropwhile_b p l) = dropwhile_b q l.
Proof.
  intros Hpq. induction l as [|x l IH]; simpl; [reflexivity|].
  destruct (p x) eqn:Hp.
  - rewrite (Hpq x Hp). exact IH.
  - reflexivity.
Qed.

Lemma rdrop_weaker {A} (p q : A -> bool) (l : list A) :
  (forall x, p x = true -> q x = true) ->
  rdrop q (rdrop p l) = rdrop q l.
Proof.
  intros Hpq. unfold rdrop. rewrite rev_involutive.
  rewrite dropwhile_weaker by exact Hpq. reflexivity.
Qed.

Lemma dropwhile_no_leading {A} (p : A -> bool) (l : list A) :
  no_leading p (dropwhile_b p l).
Proof.
  induction l as [|x l IH]; simpl; [exact I|].
  destruct (p x) eqn:Hp; [exact IH | exact Hp].
Qed.

Lemma dropwhile_id {A} (p : A -> bool) (l : list A) :
  no_leading p l -> dropwhile_b p l = l.
Proof. destruct l as [|x l]; simpl; [reflexivity|]. intros ->. reflexivity. Qed.

Lemma no_leading_prefix {A} (p : A -> bool) (l : list A) (c : A) :
  no_leading p (l ++ [c]) -> no_leading p l.
Proof. destruct l as [|x l]; simpl; [intros _; exact I | intros H; exact H]. Qed.

Lemma rdrop_no_leading {A} (p q : A -> bool) (l : list A) :
  no_leading q l -> no_leading q (rdrop p l).
Proof.
  induction l as [|c l IH] using rev_ind; intros H; [exact I|].
  rewrite rdrop_snoc. destruct (p c); [|exact H].
  apply IH. eapply no_leading_prefix, H.
Qed.

Lemma rdrop_no_trailing {A} (p : A -> bool) (l : list A) :
  no_trailing p (rdrop p l).
Proof.
  induction l as [|c l IH] using rev_ind; [exact I|].
  rewrite rdrop_snoc. destruct (p c) eqn:Hp; [exact IH|].
  unfold no_trailing. rewrite last_snoc. exact Hp.
Qed.

Lemma endswith_snoc (x : char) (l : str) (c : char) :
  endswith [x] (l ++ [c]) = (x =? c).
Proof.
  unfold endswith. rewrite rev_app_distr. simpl. apply andb_true_r.
Qed.

Section AddressFacts.
Context {U : UnicodeData}.

Lemma strip_rdrop (s : str) : strip s = rdrop isspace (dropwhile_b isspace s).
Proof. reflexivity. Qed.

Lemma strip_no_leading (s : str) : no_leading isspace (strip s).
Proof. rewrite strip_rdrop. apply rdrop_no_leading, dropwhile_no_leading. Qed.

Lemma strip_no_trailing (s : str) : no_trailing isspace (strip s).
Proof. rewrite strip_rdrop. apply rdrop_no_trailing. Qed.

Lemma strip_periods_rdrop (fuel : nat) :
  forall a : str,
    (length a <= fuel)%nat ->
    no_leading isspace a -> no_trailing isspace a ->
    strip_periods fuel a = rdrop period_or_space a.
Proof.
  induction fuel as [|fuel IH]; intros a Hlen Hlead Htrail.
  { destruct a; [reflexivity | simpl in Hlen; lia]. }
  destruct a as [|c a _] using rev_ind; [reflexivity|].
  simpl strip_periods. rewrite endswith_snoc, removelast_last, rdrop_snoc.
  unfold period_or_space at 1. rewrite (N.eqb_sym c DOT).
  destruct (N.eqb_spec DOT c) as [<-|Hc]; simpl orb.
  - rewrite strip_rdrop.
    rewrite dropwhile_id by (eapply no_leading_prefix, Hlead).
    rewrite IH.
    + apply rdrop_weaker. intros x Hx. unfold period_or_space.
      rewrite Hx. apply orb_true_r.
    + rewrite length_app in Hlen. simpl in Hlen.
      assert (length (rdrop isspace a) <= length a)%nat; [|lia].
      clear. induction a as [|x a IHa] using rev_ind; [reflexivity|].
      rewrite rdrop_snoc, length_app. simpl.
      destruct (isspace x); [lia | rewrite length_app; simpl; lia].
    + apply rdrop_no_leading. eapply no_leading_prefix, Hlead.
    + apply rdrop_no_trailing.
  - unfold no_trailing in Htrail. rewrite last_snoc in Htrail.
    rewrite Htrail. reflexivity.
Qed.

Lemma finish_lines (init : list str) (l : str) :
  end_with_period (add_commas (init ++ [l]))
  = map (fun s => s ++ [COMMA]) init
      ++ [if endswith [DOT] l then l else l ++ [DOT]].
Proof.
  induction init as [|x init IH]; [reflexivity|].
  simpl app. destruct (init ++ [l]) as [|y rest] eqn:E.
  { destruct init; discriminate E. }
  change (add_commas (x :: y :: rest)) with ((x ++ [COMMA]) :: add_commas (y :: rest)).
  destruct (add_commas (y :: rest)) as [|z rest'] eqn:E'.
  { destruct rest; discriminate E'. }
  change (end_with_period ((x ++ [COMMA]) :: z :: rest'))
    with ((x ++ [COMMA]) :: end_with_period (z :: rest')).
  rewrite IH. reflexivity.
Qed.
End AddressFacts.

Section AddressTheorems.
Context {U : UnicodeData}.

(** C5 (amended).  A blank address (empty or white space only) is
    returned unchanged.  Any other address is first trimmed.  For the
    letter style the trimmed address is split on commas, each segment is
    trimmed and the empty ones dropped; when a segment remains, every
    segment but the last gets a comma, the last gets a period unless it
    ends with one, and the segments are joined by line breaks; when none
    remains the trimmed address is returned.  For the affidavit style the
    trailing periods of the trimmed address are removed together with
    the white space among them.  The letter-style address
    ["24 Ave, Osato Junction, Benin City"] becomes three lines. *)
Theorem format_address_spec (address_string template_type : str) :
  let address := strip address_string in
  let segments := List.filter truthy (map strip (split [COMMA] address)) in
  (address = [] -> format_address address_string template_type = address_string)
  /\ (address <> [] -> lower template_type = lit "letter" ->
      (forall init l, segments = init ++ [l] ->
         format_address address_string template_type
         = join [NL] (map (fun s => s ++ [COMMA]) init
                        ++ [if endswith [DOT] l then l else l ++ [DOT]]))
      /\ (segments = [] -> format_address address_string template_type = address))
  /\ (address <> [] -> lower template_type = lit "affidavit" ->
      format_address address_string template_type = rdrop period_or_space address)
  /\ format_address (lit "24 Ave, Osato Junction, Benin City") (lit "letter")
     = lit "24 Ave," ++ [NL] ++ lit "Osato Junction," ++ [NL] ++ lit "Benin City.".
Proof.
  intros address segments.
  assert (Hguard : address <> [] ->
                   str_eqb address_string [] || str_eqb address [] = false).
  { intros Hne. unfold str_eqb. apply orb_false_iff.
    split; apply bool_decide_eq_false.
    - intros ->. apply Hne. reflexivity.
    - exact Hne. }
  unfold format_address. fold address. fold segments.
  split; [|split; [|split]].
  - intros ->. rewrite orb_true_r. reflexivity.
  - intros Hne Hty. rewrite (Hguard Hne), Hty.
    unfold str_eqb at 1. rewrite bool_decide_eq_true_2 by reflexivity.
    unfold segments, truthy. split.
    + intros init l Hseg. rewrite Hseg, finish_lines.
      destruct init; reflexivity.
    + intros Hseg. rewrite Hseg. reflexivity.
  - intros Hne Hty. rewrite (Hguard Hne), Hty.
    unfold str_eqb at 1. rewrite bool_decide_eq_false_2 by (vm_compute; discriminate).
    unfold str_eqb at 1. rewrite bool_decide_eq_true_2 by reflexivity.
    apply strip_periods_rdrop; [lia | apply strip_no_leading | apply strip_no_trailing].
  - vm_compute. reflexivity.
Qed.
End AddressTheorems.

(** The affidavit style on an address with white space around it and
    periods at its end. *)
Lemma format_address_spec_witness :
  @format_address basic_latin (lit " 12 Low Rd. . ") (lit "Affidavit") = lit "12 Low Rd".
Proof.
  etransitivity.
  - apply (proj1 (proj2 (proj2
             (@format_address_spec basic_latin (lit " 12 Low Rd. . ") (lit "Affidavit"))))).
    + vm_compute. discriminate.
    + vm_compute. reflexivity.
  - vm_compute. reflexivity.
Defined.

(** C5 (as stated) fails.  The affidavit style trims an address that has
    white space in front although it has no trailing period, and it removes
    the period before a space when trailing periods are separated by white
    space; the letter style returns an address made of a comma, which has
    no segment, as it is instead of the empty text. *)
Lemma format_address_not_as_claimed :
  @format_address basic_latin (lit " a") (lit "affidavit")
    <> claimed_affidavit_address (lit " a")
  /\ @format_address basic_latin (lit "a. .") (lit "affidavit") = lit "a"
  /\ claimed_affidavit_address (lit "a. .") = lit "a. "
  /\ @format_address basic_latin (lit ",") (lit "letter")
     <> @claimed_letter_address basic_latin (lit ",").
Proof. repeat split; vm_compute; try reflexivity; discriminate. Qed.

(** ** Dates *)


Section DateTheorems.
Context {U : UnicodeData} {D : DateLibrary}.

Lemma format_date_blank (now : datetime) (date_string template_type : str) :
  date_string = [] \/ strip date_string = [] ->
  format_date now date_string template_type = Ok (render_date now template_type).
Proof.
  intros H. unfold format_date.
  replace (negb (truthy date_string) || str_eqb (strip date_string) []) with true;
    [reflexivity|].
  symmetry. unfold truthy, str_eqb. rewrite negb_involutive.
  apply orb_true_iff. destruct H as [H|H]; [left|right];
    apply bool_decide_eq_true; exact H.
Qed.

(** A date that is not blank: the parser is called, its result is taken
    to Lagos time, and the handler sees what either of them raises. *)
Lemma format_date_not_blank (now : datetime) (date_string template_type : str) :
  date_string <> [] -> strip date_string <> [] ->
  format_date now date_string template_type
  = except_value_error
      (date_obj ← (d ← dateutil_parse date_string; in_lagos d);
       Ok (render_date date_obj template_type))
      date_string.
Proof.
  intros H1 H2. unfold format_date.
  replace (negb (truthy date_string) || str_eqb (strip date_string) []) with false;
    [reflexivity|].
  symmetry. unfold truthy, str_eqb. rewrite negb_involutive.
  apply orb_false_iff. split; apply bool_decide_eq_false; assumption.
Qed.


End DateTheorems.



(** ** Validation *)

Lemma str_eqb_eq (a b : str) : str_eqb a b = true <-> a = b.
Proof. unfold str_eqb. apply bool_decide_eq_true. Qed.

Lemma str_eqb_neq (a b : str) : str_eqb a b = false <-> a <> b.
Proof. unfold str_eqb. apply bool_decide_eq_false. Qed.

Lemma str_eqb_sym_bool (a b : str) : str_eqb a b = str_eqb b a.
Proof.
  destruct (str_eqb b a) eqn:E.
  - apply str_eqb_eq in E. apply str_eqb_eq. congruence.
  - apply str_eqb_neq in E. apply str_eqb_neq. congruence.
Qed.

Lemma existsb_str_eqb (x : str) (l : list str) :
  existsb (str_eqb x) l = true <-> In x l.
Proof.
  rewrite existsb_exists. split.
  - intros (y & Hy & E). apply str_eqb_eq in E. subst y. exact Hy.
  - intros H. exists x. split; [exact H | apply str_eqb_eq; reflexivity].
Qed.

Lemma first_seen_fresh (l : list str) :
  forall seen x, In x (first_seen seen l) -> ~ In x seen.
Proof.
  induction l as [|y l IH]; intros seen x Hx; simpl in Hx; [destruct Hx|].
  destruct (existsb (str_eqb y) seen) eqn:Hy.
  - apply IH, Hx.
  - destruct Hx as [<-|Hx].
    + intros Hin. apply existsb_str_eqb in Hin. congruence.
    + apply IH in Hx. intros Hin. apply Hx, in_or_app. left. exact Hin.
Qed.

Lemma group_add_present (b : str) (ph : Placeholder) (g : list (str * list Placeholder)) :
  List.NoDup (map fst g) -> In b (map fst g) ->
  group_add b ph g
  = map (fun e => (fst e, if str_eqb (fst e) b then snd e ++ [ph] else snd e)) g.
Proof.
  induction g as [|[k ms] g IH]; intros Hnd Hin; [destruct Hin|].
  simpl. inversion Hnd as [|? ? Hk Hnd']; subst.
  destruct (str_eqb k b) eqn:E.
  - f_equal. apply str_eqb_eq in E. subst k.
    symmetry. erewrite map_ext_in; [apply map_id|].
    intros [k' ms'] Hin'. simpl.
    destruct (str_eqb k' b) eqn:E'; [|reflexivity].
    apply str_eqb_eq in E'. subst k'. exfalso. apply Hk.
    apply in_map_iff. exists (b, ms'). split; [reflexivity | exact Hin'].
  - f_equal. apply IH; [exact Hnd'|].
    destruct Hin as [Hin|Hin]; [|exact Hin].
    simpl in Hin. apply str_eqb_neq in E. congruence.
Qed.

Lemma group_add_absent (b : str) (ph : Placeholder) (g : list (str * list Placeholder)) :
  ~ In b (map fst g) -> group_add b ph g = g ++ [(b, [ph])].
Proof.
  induction g as [|[k ms] g IH]; intros Hin; [reflexivity|].
  simpl. destruct (str_eqb k b) eqn:E.
  - apply str_eqb_eq in E. subst k. exfalso. apply Hin. left. reflexivity.
  - f_equal. apply IH. intros H. apply Hin. right. exact H.
Qed.

Lemma members_cons (k : str) (ph : Placeholder) (rest : list Placeholder) :
  members k (ph :: rest)
  = if str_eqb (base_name_of (ph_name ph)) k then ph :: members k rest
    else members k rest.
Proof. reflexivity. Qed.

(** The grouping loop, in closed form. *)
Lemma group_fold (placeholders : list Placeholder) :
  forall g,
    List.NoDup (map fst g) ->
    fold_left (fun grouped ph => group_add (base_name_of (ph_name ph)) ph grouped)
              placeholders g
    = map (fun e => (fst e, snd e ++ members (fst e) placeholders)) g
        ++ map (fun b => (b, members b placeholders))
               (first_seen (map fst g)
                  (map (fun ph => base_name_of (ph_name ph)) placeholders)).
Proof.
  induction placeholders as [|ph rest IH]; intros g Hnd.
  - simpl. rewrite app_nil_r. symmetry. erewrite map_ext; [apply map_id|].
    intros [k ms]. simpl. rewrite app_nil_r. reflexivity.
  - cbn [fold_left map first_seen].
    set (b := base_name_of (ph_name ph)).
    destruct (existsb (str_eqb b) (map fst g)) eqn:Hb.
    + apply existsb_str_eqb in Hb.
      rewrite (group_add_present b ph g Hnd Hb).
      rewrite IH.
      * rewrite !map_map. cbn [fst snd].
        rewrite (map_ext (fun x => fst x) fst) by reflexivity.
        f_equal.
        -- apply map_ext. intros [k ms]. cbn [fst snd]. rewrite members_cons. fold b.
           rewrite (str_eqb_sym_bool b k).
           destruct (str_eqb k b); [rewrite <- app_assoc|]; reflexivity.
        -- apply map_ext_in. intros b' Hb'. rewrite members_cons. fold b.
           destruct (str_eqb b b') eqn:E; [|reflexivity].
           apply str_eqb_eq in E. subst b'.
           apply first_seen_fresh in Hb'. contradiction.
      * rewrite map_map. simpl. exact Hnd.
    + assert (Hnb : ~ In b (map fst g)).
      { intros H. apply existsb_str_eqb in H. congruence. }
      rewrite (group_add_absent b ph g Hnb).
      rewrite IH.
      * rewrite !map_app. cbn [map fst snd].
        rewrite <- app_assoc. cbn [app]. f_equal.
        -- apply map_ext_in. intros [k ms] Hk. cbn [fst snd]. rewrite members_cons. fold b.
           destruct (str_eqb b k) eqn:E; [|reflexivity].
           apply str_eqb_eq in E. subst k. exfalso. apply Hnb.
           apply in_map_iff. exists (b, ms). split; [reflexivity | exact Hk].
        -- f_equal.
           ++ rewrite members_cons. fold b.
              unfold str_eqb at 1. rewrite bool_decide_eq_true_2 by reflexivity.
              reflexivity.
           ++ apply map_ext_in. intros b' Hb'. rewrite members_cons. fold b.
              destruct (str_eqb b b') eqn:E; [|reflexivity].
              apply str_eqb_eq in E. subst b'.
              apply first_seen_fresh in Hb'. exfalso. apply Hb'.
              apply in_or_app. right. left. reflexivity.
      * rewrite map_app. simpl. apply List.NoDup_app.
        -- exact Hnd.
        -- constructor; [intros [] | constructor].
        -- intros x Hx [<-|[]]. contradiction.
Qed.

Lemma group_by_base_name_eq (placeholders : list Placeholder) :
  group_by_base_name placeholders
  = map (fun b => (b, members b placeholders)) (base_names placeholders).
Proof.
  unfold group_by_base_name, base_names.
  rewrite (group_fold placeholders []); [reflexivity | constructor].
Qed.

Lemma min_by_sort_order_spec (rest : list Placeholder) :
  forall best,
    In (min_by_sort_order best rest) (best :: rest)
    /\ (forall p, In p (best :: rest) ->
        (ph_sort_order (min_by_sort_order best rest) <= ph_sort_order p)%Z).
Proof.
  induction rest as [|q rest IH]; intros best.
  - simpl. split; [left; reflexivity|]. intros p [<-|[]]. lia.
  - simpl min_by_sort_order.
    destruct (Z.ltb_spec (ph_sort_order q) (ph_sort_order best)) as [Hlt|Hge].
    + destruct (IH q) as [Hin Hmin]. split.
      * right. exact Hin.
      * intros p [<-|Hp]; [|apply Hmin, Hp].
        specialize (Hmin q (or_introl eq_refl)). lia.
    + destruct (IH best) as [Hin Hmin]. split.
      * destruct Hin as [Hin|Hin]; [left; exact Hin | right; right; exact Hin].
      * intros p [<-|[<-|Hp]].
        -- apply Hmin. left. reflexivity.
        -- specialize (Hmin best (or_introl eq_refl)). lia.
        -- apply Hmin. right. exact Hp.
Qed.

Section ValidationTheorems.
Context {U : UnicodeData} {I : Interpreter}.

End ValidationTheorems.



(** ** Generation and batches *)

Section GenerationTheorems.
Context {U : UnicodeData} {I : Interpreter} {D : DateLibrary} {Sv : Services}.

(** C7.  When the inputs of a request fail validation, generation
    raises a [ValueError] that carries the messages joined by line
    breaks, and the store is left as it was: no rendering, no file, no
    record. *)
Theorem generate_document_validation_failure
        (template_id : Z) (user_inputs : gmap str str) (user_name : str)
        (user_email : option str) (w : World) (template : Template) :
  get_template template_id w = Ok template ->
  validate_inputs (t_placeholders template) user_inputs <> [] ->
  generate_document template_id user_inputs user_name user_email w
  = (Raise {| exn_kind_of := ValueError;
              exn_message :=
                join [NL] (validate_inputs (t_placeholders template) user_inputs) |},
     w).
Proof.
  intros Ht Herr. unfold generate_document. rewrite Ht.
  destruct (validate_inputs (t_placeholders template) user_inputs) as [|e errors];
    [contradiction|reflexivity].
Qed.

Lemma attempts_ids batch_id user_inputs user_name user_email template_ids :
  forall w,
    map fst (attempts batch_id user_inputs user_name user_email template_ids w)
    = template_ids.
Proof.
  induction template_ids as [|t rest IH]; intros w; [reflexivity|].
  simpl.
  destruct (generate_document t user_inputs user_name user_email w) as [[doc|e] w'];
    simpl; rewrite IH; reflexivity.
Qed.

Lemma outcomes_count (outcomes : list (Z * result CreatedDocument)) :
  (length (successes outcomes) + length (failures outcomes))%nat = length outcomes.
Proof.
  induction outcomes as [|[t [doc|e]] rest IH]; simpl; lia.
Qed.

Lemma batch_loop_attempts batch_id user_inputs user_name user_email template_ids :
  forall successful errors w,
  exists w',
    batch_loop batch_id user_inputs user_name user_email template_ids
               successful errors w
    = (successful
         ++ successes (attempts batch_id user_inputs user_name user_email template_ids w),
       errors
         ++ failures (attempts batch_id user_inputs user_name user_email template_ids w),
       w').
Proof.
  induction template_ids as [|t rest IH]; intros successful errors w.
  - exists w. simpl. rewrite !app_nil_r. reflexivity.
  - simpl.
    destruct (generate_document t user_inputs user_name user_email w) as [[doc|e] w'].
    + destruct (IH (successful ++ [with_batch_id batch_id doc]) errors
                   (update_document (with_batch_id batch_id doc) w')) as [w'' Hw].
      exists w''. rewrite Hw. simpl. rewrite <- app_assoc. reflexivity.
    + destruct (IH successful (errors ++ [error_entry t e]) w') as [w'' Hw].
      exists w''. rewrite Hw. simpl. rewrite <- app_assoc. reflexivity.
Qed.
End GenerationTheorems.

Section BatchTheorems.
Context {U : UnicodeData} {I : Interpreter} {D : DateLibrary} {Sv : Services}.

(** C1.  A batch attempts every template id in the order given.  A
    generation that raises is recorded as the entry
    [Template <id>: <message>] and the loop goes on with the next id.
    At the end the count of successes is the number of attempts that
    returned a document, the status is [completed] when no entry was
    recorded and [completed_with_errors] otherwise, the entries are kept
    joined by line breaks, and the completion time is stamped.  A batch
    whose first and third templates generate and whose second raises ends
    with two successes, one entry and [completed_with_errors]. *)
Theorem process_batch_spec (template_ids : list Z) (user_inputs : gmap str str)
        (user_name : str) (user_email : option str) (w : World) :
  let batch_id := uuid4 (w_time w) in
  let started :=
    tick (add_batch (new_batch batch_id template_ids user_inputs user_name user_email) w) in
  let outcomes :=
    attempts batch_id user_inputs user_name user_email template_ids started in
  let run := process_batch template_ids user_inputs user_name user_email w in
  let batch := fst (fst run) in
  let successful := snd (fst run) in
  map fst outcomes = template_ids
  /\ successful = successes outcomes
  /\ bg_successful_documents batch = Z.of_nat (length (successes outcomes))
  /\ (length (successes outcomes) + length (failures outcomes))%nat
     = length template_ids
  /\ bg_error_message batch
     = match failures outcomes with
       | [] => None
       | _ :: _ => Some (join [NL] (failures outcomes))
       end
  /\ bg_status batch
     = match failures outcomes with
       | [] => lit "completed"
       | _ :: _ => lit "completed_with_errors"
       end
  /\ bg_completed_at batch = Some (utc_now (w_time (snd run)))
  /\ bg_total_documents batch = Z.of_nat (length template_ids)
  /\ (forall a b c doc1 e doc3,
        outcomes = [(a, Ok doc1); (b, Raise e); (c, Ok doc3)] ->
        successful = [doc1; doc3]
        /\ bg_successful_documents batch = 2%Z
        /\ failures outcomes = [error_entry b e]
        /\ bg_status batch = lit "completed_with_errors").
Proof.
  intros batch_id started outcomes run batch successful.
  destruct (batch_loop_attempts batch_id user_inputs user_name user_email
              template_ids [] [] started) as [w' Hloop].
  assert (Hrun : run
                 = (finish_batch
                      (new_batch batch_id template_ids user_inputs user_name user_email)
                      (successes outcomes) (failures outcomes) (utc_now (w_time w')),
                    successes outcomes,
                    update_batch
                      (finish_batch
                         (new_batch batch_id template_ids user_inputs user_name user_email)
                         (successes outcomes) (failures outcomes) (utc_now (w_time w')))
                      w')).
  { unfold run, process_batch. fold batch_id. fold started.
    rewrite Hloop. reflexivity. }
  unfold batch, successful. rewrite Hrun. cbn [fst snd].
  assert (Hcount : (length (successes outcomes) + length (failures outcomes))%nat
                   = length template_ids).
  { rewrite outcomes_count. unfold outcomes.
    rewrite <- (attempts_ids batch_id user_inputs user_name user_email
                  template_ids started) at 2.
    rewrite length_map. reflexivity. }
  repeat split; try reflexivity; try assumption.
  - apply attempts_ids.
  - rewrite H. reflexivity.
  - rewrite H. reflexivity.
  - rewrite H. reflexivity.
  - rewrite H. reflexivity.
Qed.
End BatchTheorems.

(** A request without the required name: the store is unchanged. *)
Lemma generate_document_validation_failure_witness :
  @generate_document basic_latin literal_interpreter iso_dates sample_services
    1 ∅ (lit "Ada") None sample_world
  = (Raise {| exn_kind_of := ValueError; exn_message := lit "Name is required" |},
     sample_world).
Proof.
  etransitivity.
  - apply (@generate_document_validation_failure
             basic_latin literal_interpreter iso_dates sample_services
             1 ∅ (lit "Ada") None sample_world
             (sample_template 1 "Admission" "letter")).
    + vm_compute. reflexivity.
    + vm_compute. discriminate.
  - vm_compute. reflexivity.
Defined.

(** The batch of templates 1, 2 and 3 on the sample store, where no
    template has id 2. *)
Lemma process_batch_spec_witness :
  let run :=
    @process_batch basic_latin literal_interpreter iso_dates sample_services
      [1; 2; 3]%Z {[ lit "name" := lit "Ada" ]} (lit "Ada") None sample_world in
  length (snd (fst run)) = 2%nat
  /\ bg_successful_documents (fst (fst run)) = 2%Z
  /\ bg_error_message (fst (fst run)) = Some (lit "Template 2: 404 Not Found")
  /\ bg_status (fst (fst run)) = lit "completed_with_errors".
Proof.
  intros run.
  pose proof (@process_batch_spec basic_latin literal_interpreter iso_dates
                sample_services [1; 2; 3]%Z {[ lit "name" := lit "Ada" ]}
                (lit "Ada") None sample_world) as H.
  cbv zeta in H. fold run in H.
  destruct H as (_ & _ & _ & _ & Hmsg & _ & _ & _ & H).
  match type of H with
  | forall a b c doc1 e doc3, ?outcomes = _ -> _ =>
      assert (Hout : exists doc1 e doc3,
                 outcomes = [(1%Z, Ok doc1); (2%Z, Raise e); (3%Z, Ok doc3)])
        by (vm_compute; do 3 eexists; reflexivity)
  end.
  destruct Hout as (doc1 & e & doc3 & Hout).
  destruct (H _ _ _ _ _ _ Hout) as (Hs & Hn & Hf & Hst).
  rewrite Hs. split; [reflexivity|]. split; [exact Hn|]. split; [|exact Hst].
  rewrite Hmsg, Hf.
  assert (He : exn_message e = lit "404 Not Found").
  { vm_compute in Hout. injection Hout as _ He _. rewrite <- He. reflexivity. }
  unfold error_entry, join. rewrite He. vm_compute. reflexivity.
Defined.

(** ** Extraction *)

Lemma star_runs_split (p : char -> bool) (s : str) :
  forall m rest, In (m, rest) (star_runs p s) -> s = m ++ rest.
Proof.
  induction s as [|c s IH]; intros m rest Hin; simpl in Hin.
  - destruct Hin as [E|[]]. inversion E. reflexivity.
  - destruct (p c).
    + apply in_app_or in Hin as [Hin|[E|[]]].
      * apply in_map_iff in Hin as ([m' r'] & E & Hin). inversion E; subst.
        simpl. f_equal. apply IH, Hin.
      * inversion E. reflexivity.
    + destruct Hin as [E|[]]. inversion E. reflexivity.
Qed.

Lemma plus_runs_split (p : char -> bool) (s : str) :
  forall m rest, In (m, rest) (plus_runs p s) -> s = m ++ rest.
Proof.
  intros m rest Hin. destruct s as [|c s]; simpl in Hin; [destruct Hin|].
  destruct (p c); [|destruct Hin].
  apply in_map_iff in Hin as ([m' r'] & E & Hin). inversion E; subst.
  simpl. f_equal. apply star_runs_split with (p := p), Hin.
Qed.

Lemma star_runs_all (p : char -> bool) (s : str) :
  forall m rest, In (m, rest) (star_runs p s) -> forallb p m = true.
Proof.
  induction s as [|c s IH]; intros m rest Hin; cbn [star_runs] in Hin.
  - destruct Hin as [E|[]]. injection E as <- _. reflexivity.
  - destruct (p c) eqn:Hc.
    + apply in_app_or in Hin as [Hin|[E|[]]].
      * apply in_map_iff in Hin as ([m' r'] & E & Hin). injection E as <- <-.
        cbn [forallb]. rewrite Hc. apply (IH _ _ Hin).
      * injection E as <- _. reflexivity.
    + destruct Hin as [E|[]]. injection E as <- _. reflexivity.
Qed.

Lemma plus_runs_all (p : char -> bool) (s : str) :
  forall m rest, In (m, rest) (plus_runs p s) -> m <> [] /\ forallb p m = true.
Proof.
  intros m rest Hin. unfold plus_runs in Hin.
  destruct s as [|c s]; [destruct Hin|].
  destruct (p c) eqn:Hc; [|destruct Hin].
  apply in_map_iff in Hin as ([m' r'] & E & Hin). injection E as <- <-.
  split; [discriminate|]. cbn [forallb]. rewrite Hc.
  apply (star_runs_all _ _ _ _ Hin).
Qed.

Section ExtractionFacts.
Context {U : UnicodeData} {I : Interpreter}.

(** What the matcher consumes is a prefix of the text. *)
Lemma rmatch_split (r : regex) :
  forall prev s m g rest, In (m, g, rest) (rmatch r prev s) -> s = m ++ rest.
Proof.
  induction r as [c|k|k|k|r1 IH1 r2 IH2|r1 IH1 r2 IH2|r1 IH1|];
    intros prev s m g rest Hin; simpl in Hin.
  - destruct s as [|d s]; [destruct Hin|].
    destruct (c =? d); [|destruct Hin].
    destruct Hin as [E|[]]. inversion E. reflexivity.
  - destruct s as [|d s]; [destruct Hin|].
    destruct (in_cls k d); [|destruct Hin].
    destruct Hin as [E|[]]. inversion E. reflexivity.
  - apply in_map_iff in Hin as ([m' r'] & E & Hin). inversion E; subst.
    eapply star_runs_split, Hin.
  - apply in_map_iff in Hin as ([m' r'] & E & Hin). inversion E; subst.
    eapply plus_runs_split, Hin.
  - apply in_flat_map in Hin as ([[m1 g1] s1] & H1 & Hin).
    apply in_map_iff in Hin as ([[m2 g2] s2] & E & H2). inversion E; subst.
    apply IH1 in H1. apply IH2 in H2. subst. rewrite app_assoc. reflexivity.
  - apply in_app_or in Hin as [Hin|Hin]; [eapply IH1 | eapply IH2]; exact Hin.
  - apply in_map_iff in Hin as ([[m' g'] r'] & E & Hin). inversion E; subst.
    eapply IH1, Hin.
  - destruct (xorb (is_word_opt prev) (is_word_opt (head s))); [|destruct Hin].
    destruct Hin as [E|[]]. inversion E. reflexivity.
Qed.

Lemma match_at_length (r : regex) (prev : option char) (s m : str) (g : list str) :
  match_at r prev s = Some (m, g) ->
  (0 < length m <= length s)%nat.
Proof.
  unfold match_at. intros H.
  destruct (rmatch r prev s) as [|[[m' g'] rest] l] eqn:E; [discriminate H|].
  destruct m' as [|c m']; [discriminate H|]. inversion H; subst.
  assert (Hs : s = (c :: m') ++ rest).
  { eapply rmatch_split. rewrite E. left. reflexivity. }
  rewrite Hs, length_app. simpl. lia.
Qed.

Lemma rmatch_seq (r1 r2 : regex) (prev : option char) (s m : str)
      (g : list str) (rest : str) :
  In (m, g, rest) (rmatch (RSeq r1 r2) prev s) ->
  exists m1 g1 s1 m2 g2,
    In (m1, g1, s1) (rmatch r1 prev s)
    /\ In (m2, g2, rest) (rmatch r2 (prev_after prev m1) s1)
    /\ m = m1 ++ m2 /\ g = g1 ++ g2.
Proof.
  cbn [rmatch]. intros Hin. apply in_flat_map in Hin as ([[m1 g1] s1] & H1 & H2).
  apply in_map_iff in H2 as ([[m2 g2] s2] & E & H2). injection E as <- <- <-.
  exists m1, g1, s1, m2, g2. split; [exact H1|]. split; [exact H2|].
  split; reflexivity.
Qed.

Lemma rmatch_lit_groups (c : char) (prev : option char) (s m : str)
      (g : list str) (rest : str) :
  In (m, g, rest) (rmatch (RLit c) prev s) -> g = [].
Proof.
  cbn [rmatch]. destruct s as [|d s]; [intros []|].
  destruct (c =? d); [|intros []]. intros [E|[]]. injection E as _ <- _. reflexivity.
Qed.

Lemma rmatch_star_groups (k : cls) (prev : option char) (s m : str)
      (g : list str) (rest : str) :
  In (m, g, rest) (rmatch (RStar k) prev s) -> g = [].
Proof.
  cbn [rmatch]. intros Hin. apply in_map_iff in Hin as ([m' r'] & E & _).
  injection E as _ <- _. reflexivity.
Qed.

(** The group of a match of the placeholder pattern: one name, of one or
    more word characters. *)
Lemma rmatch_placeholder_groups (prev : option char) (s m : str)
      (g : list str) (rest : str) :
  In (m, g, rest) (rmatch placeholder_re prev s) ->
  exists name, g = [name] /\ name <> [] /\ forallb isword name = true.
Proof.
  unfold placeholder_re. intros H.
  apply rmatch_seq in H as (m1 & g1 & s1 & m2 & g2 & H1 & H & _ & ->).
  apply rmatch_lit_groups in H1 as ->.
  apply rmatch_seq in H as (m3 & g3 & s3 & m4 & g4 & H3 & H & _ & ->).
  apply rmatch_lit_groups in H3 as ->.
  apply rmatch_seq in H as (m5 & g5 & s5 & m6 & g6 & H5 & H & _ & ->).
  apply rmatch_star_groups in H5 as ->.
  apply rmatch_seq in H as (m7 & g7 & s7 & m8 & g8 & H7 & H & _ & ->).
  apply rmatch_seq in H as (m9 & g9 & s9 & m10 & g10 & H9 & H & _ & ->).
  apply rmatch_star_groups in H9 as ->.
  apply rmatch_seq in H as (m11 & g11 & s11 & m12 & g12 & H11 & H12 & _ & ->).
  apply rmatch_lit_groups in H11 as ->.
  apply rmatch_lit_groups in H12 as ->.
  cbn [rmatch] in H7. apply in_map_iff in H7 as ([[a b] c] & E & H7).
  injection E as E1 E2 E3.
  apply in_map_iff in H7 as ([name r'] & E' & H7). injection E' as E1' E2' E3'.
  exists name. split; [rewrite <- E2, <- E2', <- E1'; reflexivity|].
  apply plus_runs_all in H7. exact H7.
Qed.

Lemma finditer_go_groups (r : regex) (s : str) :
  forall skip pos prev m,
    In m (finditer_go r skip pos prev s) ->
    exists prev' s' rest,
      In (m_text m, m_groups m, rest) (rmatch r prev' s').
Proof.
  induction s as [|c s IH]; intros skip pos prev m Hin; [destruct Hin|].
  cbn [finditer_go] in Hin. destruct skip as [|k]; [|eapply IH, Hin].
  unfold match_at in Hin.
  destruct (rmatch r prev (c :: s)) as [|[[[|x mt] g] rest] others] eqn:E;
    try (eapply IH, Hin).
  destruct Hin as [<-|Hin]; [|eapply IH, Hin].
  exists prev, (c :: s), rest. rewrite E. left. reflexivity.
Qed.




End ExtractionFacts.







Section ExtractionTheorems.
Context {U : UnicodeData} {I : Interpreter}.


(** *** The matches of the placeholder pattern *)





















(** *** The run of a placeholder *)


(** *** The formatting of a run *)




(** *** The occurrences of a document *)






End ExtractionTheorems.

(** ** The sample document *)

(** The occurrences of the sample document: name, paragraph, run, bold,
    italic, size and alignment.  The placeholder that straddles the first
    two runs is attributed to the first; the repeated name is recorded each
    time. *)
Example extract_sample_document :
  map (fun o => (occ_name o, occ_paragraph_index o, occ_run_index o,
                 fmt_bold (occ_formatting o), fmt_italic (occ_formatting o),
                 fmt_size (occ_formatting o), occ_alignment o))
      (@extract_template_variables basic_latin literal_interpreter sample_document)
  = [(lit "name", 0%nat, 0%nat, true, false, Some 12%Z, Some (lit "center"));
     (lit "date", 0%nat, 1%nat, false, true, None, Some (lit "center"));
     (lit "name", 0%nat, 2%nat, false, false, None, Some (lit "center"));
     (lit "name", 1%nat, 0%nat, false, false, None, None)].
Proof. vm_compute. reflexivity. Qed.

(** ** Instances *)

Section InstanceFacts.
Context {U : UnicodeData} {D : DateLibrary}.

(** The entry made for an occurrence is numbered by the occurrences of
    the same name before it: the first keeps the bare name, the next is
    instance 2, and so on; [sort_order] is the position. *)
Lemma create_placeholders_go_nth (pre : list Occurrence) :
  forall counters i o post,
    nth_error (create_placeholders_go counters i (pre ++ o :: post)) (length pre)
    = Some (placeholder_of_occurrence o (i + Z.of_nat (length pre))
              (Datatypes.S (counter_get counters (occ_name o)
                            + count_name (occ_name o) pre))).
Proof.
  induction pre as [|p pre IH]; intros counters i o post.
  - simpl. rewrite Z.add_0_r, Nat.add_0_r. reflexivity.
  - cbn [app length create_placeholders_go nth_error].
    rewrite IH. f_equal. f_equal; [lia|]. f_equal.
    unfold count_name. cbn [List.filter]. unfold counter_get.
    destruct (str_eqb (occ_name p) (occ_name o)) eqn:E.
    + apply str_eqb_eq in E. rewrite E, lookup_insert_eq. simpl. lia.
    + apply str_eqb_neq in E. rewrite lookup_insert_ne by exact E. reflexivity.
Qed.

Lemma create_placeholders_nth (pre : list Occurrence) (o : Occurrence)
      (post : list Occurrence) :
  nth_error (create_placeholders (pre ++ o :: post)) (length pre)
  = Some (placeholder_of_occurrence o (Z.of_nat (length pre))
            (Datatypes.S (count_name (occ_name o) pre))).
Proof.
  unfold create_placeholders. rewrite create_placeholders_go_nth. reflexivity.
Qed.

(** The value of an entry whose own key is absent from the inputs and
    whose default is not empty: the default, transformed.  The base name
    is not looked up. *)
Lemma placeholder_value_default (now : datetime) (template_type : str)
      (user_inputs : gmap str str) (ph : Placeholder) (c : char) (d : str) :
  user_inputs !! ph_name ph = None ->
  ph_default_value ph = Some (c :: d) ->
  ph_placeholder_type ph <> lit "date" ->
  contains (lit "address") (lower (ph_name ph)) = false ->
  placeholder_value now template_type user_inputs ph
  = Ok (apply_casing (c :: d) (ph_casing ph)).
Proof.
  intros Hkey Hdef Hty Haddr. unfold placeholder_value.
  rewrite Hkey, Hdef. cbn [default or_str].
  assert (Ht : truthy (c :: d) = true)
    by (unfold truthy, str_eqb; rewrite bool_decide_eq_false_2 by discriminate;
        reflexivity).
  rewrite Ht. cbn [negb andb].
  apply str_eqb_neq in Hty. rewrite Hty, Haddr. reflexivity.
Qed.
End InstanceFacts.

(** C3, at a failing input.  The catalog of the sample document names the
    second and third occurrence of [name] as instances 2 and 3.  With the
    input [name = Ada], the context holds [Ada] under [name] but the
    default [Joe Doe] under both instances: the lookup of the instance key
    already yields the default, so the base name is not consulted. *)
Theorem prepare_context_instance_default :
  map ph_name sample_catalog
  = [lit "name"; lit "date"; lit "name_instance_2"; lit "name_instance_3"]
  /\ map ph_default_value sample_catalog
     = [Some (lit "Joe Doe"); Some []; Some (lit "Joe Doe"); Some (lit "Joe Doe")]
  /\ context_entry_at sample_context "name" = Some (Plain (lit "Ada"))
  /\ context_entry_at sample_context "name_instance_2" = Some (Plain (lit "Joe Doe"))
  /\ context_entry_at sample_context "name_instance_3" = Some (Plain (lit "Joe Doe")).
Proof. repeat split; vm_compute; reflexivity. Qed.

(** ** Further properties of the code

    Properties of the functions above, and of the routes, that the code
    itself shows. *)

(** ** Names of instances *)

Lemma startswith_app (p r : str) : startswith p (p ++ r) = true.
Proof.
  induction p as [|c p IH]; [reflexivity|].
  simpl. rewrite N.eqb_refl. exact IH.
Qed.

Lemma startswith_long (p : str) :
  forall x q, (length p <= length x)%nat -> startswith p (x ++ q) = startswith p x.
Proof.
  induction p as [|c p IH]; intros x q Hlen; [reflexivity|].
  destruct x as [|d x]; [simpl in Hlen; lia|].
  simpl. rewrite IH by (simpl in Hlen; lia). reflexivity.
Qed.

Lemma startswith_prefix (p x q : str) :
  startswith p x = true -> startswith p (x ++ q) = true.
Proof.
  revert x. induction p as [|c p IH]; intros x H; [reflexivity|].
  destruct x as [|d x]; [discriminate H|].
  simpl in *. apply andb_true_iff in H as [H1 H2].
  rewrite H1. simpl. apply IH, H2.
Qed.

Lemma contains_prefix (p x q : str) :
  contains p x = true -> contains p (x ++ q) = true.
Proof.
  induction x as [|d x IH]; intros H.
  - simpl in H. rewrite orb_false_r in H.
    destruct p; [|discriminate H]. destruct q; reflexivity.
  - cbn [contains] in H. apply orb_true_iff in H as [H|H].
    + pose proof (startswith_prefix p (d :: x) q H) as H'. cbn [app] in H'.
      cbn [app contains]. rewrite H'. reflexivity.
    + cbn [app contains]. rewrite (IH H). apply orb_true_r.
Qed.

Lemma contains_suffix (p x q : str) :
  contains p q = true -> contains p (x ++ q) = true.
Proof.
  intros H. induction x as [|d x IH]; [exact H|].
  cbn [app contains]. rewrite IH. apply orb_true_r.
Qed.

(** The first piece of a split, when the separator first occurs after
    [v]. *)
Lemma split_go_first (sep pre : str) (x : char) :
  sep = pre ++ [x] ->
  forall v acc rest,
    contains sep (v ++ pre) = false ->
    nth 0 (split_go sep 0 acc (v ++ sep ++ rest)) [] = rev acc ++ v.
Proof.
  intros Hsep v. induction v as [|c v IH]; intros acc rest Hno.
  - cbn [app]. destruct sep as [|s0 sep'] eqn:E.
    { destruct pre; discriminate Hsep. }
    cbn [app split_go]. rewrite <- E.
    replace (s0 :: sep' ++ rest) with (sep ++ rest) by (rewrite E; reflexivity).
    rewrite startswith_app. cbn [nth]. rewrite app_nil_r. reflexivity.
  - cbn [app contains] in Hno. apply orb_false_iff in Hno as [Hhere Hlater].
    cbn [app split_go].
    assert (Hstart : startswith sep (c :: v ++ sep ++ rest) = false).
    { rewrite Hsep at 2. rewrite <- app_assoc.
      change (c :: v ++ pre ++ [x] ++ rest) with ((c :: v) ++ pre ++ [x] ++ rest).
      rewrite app_assoc. rewrite startswith_long; [exact Hhere|].
      rewrite Hsep. cbn [app length]. rewrite !length_app. simpl. lia. }
    rewrite Hstart. rewrite (IH (c :: acc) rest Hlater).
    cbn [rev]. rewrite <- app_assoc. reflexivity.
Qed.

Lemma plain_name_free (v : str) :
  plain_name v = true -> contains (lit "_instance_") v = false.
Proof.
  unfold plain_name. intros H. apply negb_true_iff in H.
  destruct (contains (lit "_instance_") v) eqn:E; [|reflexivity].
  rewrite (contains_prefix _ _ _ E) in H. discriminate H.
Qed.

Lemma instance_name_base (v : str) (n : nat) :
  plain_name v = true -> base_name_of (instance_name_of v n) = v.
Proof.
  intros Hv. unfold instance_name_of.
  destruct (n =? 1)%nat.
  - unfold base_name_of. rewrite (plain_name_free v Hv). reflexivity.
  - unfold base_name_of.
    rewrite contains_suffix
      by (apply contains_prefix; vm_compute; reflexivity).
    unfold split.
    rewrite (split_go_first (lit "_instance_") (lit "_instance") 95 eq_refl v []).
    + reflexivity.
    + unfold plain_name in Hv. apply negb_true_iff in Hv. exact Hv.
Qed.

(** X1.  The name that ingestion gives to an occurrence is read back by
    validation as the name of the occurrence: for a plain name [v], one
    that neither contains [_instance_] nor ends with [_instance], the base
    name of the bare name and of every [v_instance_n] is [v]. *)
Theorem base_name_of_instance_name (v : str) (n : nat) :
  plain_name v = true -> base_name_of (instance_name_of v n) = v.
Proof. apply instance_name_base. Qed.

Lemma base_name_of_instance_name_witness :
  base_name_of (instance_name_of (lit "name") 2) = lit "name".
Proof. apply base_name_of_instance_name. vm_compute. reflexivity. Defined.

(** The condition is needed: a name that ends with [_instance] is read
    back wrongly from its second occurrence on. *)

Example instance_name_read_back_wrongly :
  plain_name (lit "x_instance") = false
  /\ instance_name_of (lit "x_instance") 2 = lit "x_instance_instance_2"
  /\ base_name_of (instance_name_of (lit "x_instance") 2) = lit "x".
Proof. repeat split; vm_compute; reflexivity. Qed.

(** ** The catalog that ingestion creates *)

Lemma first_seen_in (l : list str) :
  forall seen x, In x (first_seen seen l) -> In x l.
Proof.
  induction l as [|y l IH]; intros seen x Hx; simpl in Hx; [destruct Hx|].
  destruct (existsb (str_eqb y) seen).
  - right. eapply IH, Hx.
  - destruct Hx as [<-|Hx]; [left; reflexivity | right; eapply IH, Hx].
Qed.

Lemma flat_map_filter_map {A B} (f : A -> list B) (h : A -> bool) (g : A -> B)
      (l : list A) :
  (forall x, In x l -> f x = if h x then [g x] else []) ->
  List.flat_map f l = map g (List.filter h l).
Proof.
  induction l as [|x l IH]; intros H; [reflexivity|].
  cbn [List.flat_map List.filter]. rewrite (H x (or_introl eq_refl)).
  rewrite IH by (intros y Hy; apply H; right; exact Hy).
  destruct (h x); reflexivity.
Qed.

Lemma flat_map_nil {A B} (f : A -> list B) (l : list A) :
  (forall x, In x l -> f x = []) -> List.flat_map f l = [].
Proof.
  induction l as [|x l IH]; intros H; [reflexivity|].
  cbn [List.flat_map]. rewrite (H x (or_introl eq_refl)).
  apply IH. intros y Hy. apply H. right. exact Hy.
Qed.

Lemma members_nonempty (b : str) (placeholders : list Placeholder) :
  In b (map (fun ph => base_name_of (ph_name ph)) placeholders) ->
  members b placeholders <> [].
Proof.
  intros Hin. apply in_map_iff in Hin as (ph & Hb & Hph).
  intros Hnil.
  assert (Hm : In ph (members b placeholders)).
  { unfold members. apply filter_In. split; [exact Hph|].
    apply str_eqb_eq. exact Hb. }
  rewrite Hnil in Hm. destruct Hm.
Qed.

Lemma min_by_sort_order_head (rest : list Placeholder) (p : Placeholder) :
  (forall q, In q rest -> (ph_sort_order p <= ph_sort_order q)%Z) ->
  min_by_sort_order p rest = p.
Proof.
  induction rest as [|q rest IH]; intros H; [reflexivity|].
  cbn [min_by_sort_order].
  destruct (Z.ltb_spec (ph_sort_order q) (ph_sort_order p)) as [Hlt|Hge].
  - specialize (H q (or_introl eq_refl)). lia.
  - apply IH. intros q' Hq'. apply H. right. exact Hq'.
Qed.

Section IngestionFacts.
Context {U : UnicodeData}.

Lemma create_placeholders_go_length (occs : list Occurrence) :
  forall counters i, length (create_placeholders_go counters i occs) = length occs.
Proof.
  induction occs as [|o occs IH]; intros counters i; [reflexivity|].
  cbn [create_placeholders_go length]. rewrite IH. reflexivity.
Qed.

Lemma create_placeholders_go_sort_order (occs : list Occurrence) :
  forall counters i,
    map ph_sort_order (create_placeholders_go counters i occs)
    = map (fun k => (i + Z.of_nat k)%Z) (seq 0 (length occs)).
Proof.
  induction occs as [|o occs IH]; intros counters i; [reflexivity|].
  cbn [create_placeholders_go length seq map placeholder_of_occurrence ph_sort_order].
  rewrite IH. f_equal; [lia|].
  rewrite <- seq_shift, map_map. apply map_ext. intros k. lia.
Qed.

Lemma create_placeholders_go_required (occs : list Occurrence) :
  forall counters i,
    List.Forall (fun ph => ph_is_required ph = true /\ ph_validation_pattern ph = None)
                (create_placeholders_go counters i occs).
Proof.
  induction occs as [|o occs IH]; intros counters i; [constructor|].
  cbn [create_placeholders_go]. constructor; [split; reflexivity | apply IH].
Qed.

Lemma create_placeholders_go_lower_bound (occs : list Occurrence) :
  forall counters i ph,
    In ph (create_placeholders_go counters i occs) -> (i <= ph_sort_order ph)%Z.
Proof.
  induction occs as [|o occs IH]; intros counters i ph Hin; [destruct Hin|].
  cbn [create_placeholders_go] in Hin. destruct Hin as [<-|Hin].
  - simpl. lia.
  - apply IH in Hin. lia.
Qed.

Lemma create_placeholders_go_base_names (occs : list Occurrence) :
  forallb (fun o => plain_name (occ_name o)) occs = true ->
  forall counters i,
    map (fun ph => base_name_of (ph_name ph)) (create_placeholders_go counters i occs)
    = map occ_name occs.
Proof.
  induction occs as [|o occs IH]; intros Hplain counters i; [reflexivity|].
  cbn [forallb] in Hplain. apply andb_true_iff in Hplain as [Ho Hrest].
  cbn [create_placeholders_go map placeholder_of_occurrence ph_name].
  rewrite (instance_name_base _ _ Ho), (IH Hrest). reflexivity.
Qed.

(** The first entry of a base name: it shows the name as ingestion
    humanises it, numbered by the count so far, and no later entry of the
    name comes before it. *)
Lemma create_placeholders_go_first_member (occs : list Occurrence) :
  forallb (fun o => plain_name (occ_name o)) occs = true ->
  forall counters i b p rest,
    members b (create_placeholders_go counters i occs) = p :: rest ->
    ph_display_name p = Some (display_name_of b (Datatypes.S (counter_get counters b)))
    /\ min_by_sort_order p rest = p.
Proof.
  induction occs as [|o occs IH]; intros Hplain counters i b p rest Hm;
    [discriminate Hm|].
  cbn [forallb] in Hplain. apply andb_true_iff in Hplain as [Ho Hrest].
  cbn [create_placeholders_go] in Hm. rewrite members_cons in Hm.
  cbn [placeholder_of_occurrence ph_name] in Hm.
  rewrite (instance_name_base _ _ Ho) in Hm.
  destruct (str_eqb (occ_name o) b) eqn:E.
  - apply str_eqb_eq in E. injection Hm as <- <-. split.
    + cbn [placeholder_of_occurrence ph_display_name]. rewrite E. reflexivity.
    + apply min_by_sort_order_head. intros q Hq.
      unfold members in Hq. apply filter_In in Hq as [Hq _].
      apply create_placeholders_go_lower_bound in Hq.
      cbn [placeholder_of_occurrence ph_sort_order]. lia.
  - apply str_eqb_neq in E.
    destruct (IH Hrest _ _ _ _ _ Hm) as [Hd Hmin]. split; [|exact Hmin].
    rewrite Hd. unfold counter_get. rewrite lookup_insert_ne by exact E.
    reflexivity.
Qed.

(** X2.  Ingestion creates one catalog entry per occurrence, numbered
    0, 1, 2, ... in the order of the document, and every entry is
    required, whatever the names of the document are.  When the names
    are plain, the base name that validation reads back from an entry is
    the name of its occurrence. *)
Theorem create_placeholders_layout (occurrences : list Occurrence) :
  let placeholders := create_placeholders occurrences in
  length placeholders = length occurrences
  /\ map ph_sort_order placeholders = map Z.of_nat (seq 0 (length occurrences))
  /\ forallb ph_is_required placeholders = true
  /\ (forallb (fun o => plain_name (occ_name o)) occurrences = true ->
      map (fun ph => base_name_of (ph_name ph)) placeholders
      = map occ_name occurrences).
Proof.
  intros placeholders. unfold placeholders, create_placeholders.
  split; [apply create_placeholders_go_length|].
  split; [rewrite create_placeholders_go_sort_order; apply map_ext; intros k; lia|].
  split; [|intros Hplain; apply create_placeholders_go_base_names, Hplain].
  apply forallb_forall. intros ph Hph.
  pose proof (create_placeholders_go_required occurrences ∅ 0%Z) as H.
  rewrite List.Forall_forall in H. apply H, Hph.
Qed.
End IngestionFacts.

Section IngestedValidation.
Context {U : UnicodeData} {I : Interpreter}.

Lemma validate_inputs_ingested_messages (occurrences : list Occurrence)
      (user_inputs : gmap str str) :
  forallb (fun o => plain_name (occ_name o)) occurrences = true ->
  validate_inputs (create_placeholders occurrences) user_inputs
  = map required_message
      (List.filter (fun v => blank (default [] (user_inputs !! v)))
                   (first_seen [] (map occ_name occurrences))).
Proof.
  intros Hplain. unfold validate_inputs.
  rewrite group_by_base_name_eq, flat_map_map.
  unfold base_names, create_placeholders.
  rewrite (create_placeholders_go_base_names occurrences Hplain).
  apply flat_map_filter_map. intros b Hb. cbn beta.
  apply first_seen_in in Hb.
  rewrite <- (create_placeholders_go_base_names occurrences Hplain ∅ 0%Z) in Hb.
  apply members_nonempty in Hb.
  destruct (members b (create_placeholders_go ∅ 0%Z occurrences)) as [|p rest] eqn:Hm;
    [contradiction|].
  destruct (create_placeholders_go_first_member occurrences Hplain _ _ _ _ _ Hm)
    as [Hd Hmin].
  assert (Hall : forall q, In q (p :: rest) ->
                   ph_is_required q = true /\ ph_validation_pattern q = None).
  { intros q Hq. rewrite <- Hm in Hq. unfold members in Hq.
    apply filter_In in Hq as [Hq _].
    pose proof (create_placeholders_go_required occurrences ∅ 0%Z) as H.
    rewrite List.Forall_forall in H. apply H, Hq. }
  unfold group_errors.
  assert (Hreq : existsb ph_is_required (p :: rest) = true).
  { cbn [existsb]. rewrite (proj1 (Hall p (or_introl eq_refl))). reflexivity. }
  assert (Hpat : forall value, List.flat_map (pattern_error b value) (p :: rest) = []).
  { intros value. apply flat_map_nil. intros q Hq.
    unfold pattern_error. rewrite (proj2 (Hall q Hq)). reflexivity. }
  rewrite Hreq, Hpat. unfold blank, truthy.
  destruct (str_eqb (strip (default [] (user_inputs !! b))) []); cbn [negb andb app].
  - unfold required_error. rewrite Hmin, Hd. unfold required_message, display_name_of.
    unfold counter_get. rewrite lookup_empty. cbn [default Nat.ltb Nat.leb].
    rewrite (app_nil_r (humanize b)). reflexivity.
  - reflexivity.
Qed.

(** X3.  On the catalog that ingestion creates for a document with plain
    names, validation answers with one message [<Name> is required] for
    each distinct name whose input is missing or blank, in the order in
    which the names first appear in the document, and with nothing
    else. *)
Theorem validate_inputs_ingested (occurrences : list Occurrence)
        (user_inputs : gmap str str) :
  forallb (fun o => plain_name (occ_name o)) occurrences = true ->
  validate_inputs (create_placeholders occurrences) user_inputs
  = map required_message
      (List.filter (fun v => blank (default [] (user_inputs !! v)))
                   (first_seen [] (map occ_name occurrences))).
Proof. apply validate_inputs_ingested_messages. Qed.
End IngestedValidation.

(** The catalog of the sample document. *)
Lemma create_placeholders_layout_witness :
  let occurrences :=
    @extract_template_variables basic_latin literal_interpreter sample_document in
  map (fun ph => base_name_of (ph_name ph)) (@create_placeholders basic_latin occurrences)
  = map occ_name occurrences.
Proof.
  intros occurrences.
  apply (@create_placeholders_layout basic_latin occurrences).
  vm_compute. reflexivity.
Defined.

(** The sample catalog with a name and a blank date. *)
Lemma validate_inputs_ingested_witness :
  @validate_inputs basic_latin literal_interpreter sample_catalog
    {[ lit "name" := lit "Ada"; lit "date" := lit " " ]}
  = [lit "Date is required"].
Proof.
  etransitivity.
  - apply (@validate_inputs_ingested basic_latin literal_interpreter).
    vm_compute. reflexivity.
  - vm_compute. reflexivity.
Defined.

(** ** When validation passes *)

Lemma flat_map_nil_inv {A B} (f : A -> list B) (l : list A) :
  List.flat_map f l = [] -> forall x, In x l -> f x = [].
Proof.
  induction l as [|y l IH]; intros H x Hx; [destruct Hx|].
  cbn [List.flat_map] in H. apply app_eq_nil in H as [Hy Hl].
  destruct Hx as [<-|Hx]; [exact Hy | apply IH; assumption].
Qed.

Lemma first_seen_complete (l : list str) :
  forall seen x, In x l -> In x seen \/ In x (first_seen seen l).
Proof.
  induction l as [|y l IH]; intros seen x Hx; [destruct Hx|].
  cbn [first_seen]. destruct (existsb (str_eqb y) seen) eqn:Hy.
  - destruct Hx as [<-|Hx]; [left; apply existsb_str_eqb, Hy | apply IH, Hx].
  - destruct Hx as [<-|Hx]; [right; left; reflexivity|].
    destruct (IH (seen ++ [y]) x Hx) as [Hs|Hf].
    + apply in_app_or in Hs as [Hs|[<-|[]]]; [left; exact Hs | right; left; reflexivity].
    + right. right. exact Hf.
Qed.

Lemma base_names_complete (placeholders : list Placeholder) (ph : Placeholder) :
  In ph placeholders -> In (base_name_of (ph_name ph)) (base_names placeholders).
Proof.
  intros Hph. unfold base_names.
  destruct (first_seen_complete
              (map (fun ph => base_name_of (ph_name ph)) placeholders) []
              (base_name_of (ph_name ph))) as [[]|H]; [|exact H].
  apply in_map_iff. exists ph. split; [reflexivity | exact Hph].
Qed.

Section ValidationFacts.
Context {U : UnicodeData} {I : Interpreter}.

Lemma group_errors_nil (user_inputs : gmap str str) (b : str)
      (phs : list Placeholder) :
  (forall ph, In ph phs -> base_name_of (ph_name ph) = b) ->
  group_errors user_inputs b phs = [] <-> forallb (accepted user_inputs) phs = true.
Proof.
  intros Hbase. unfold group_errors. rewrite forallb_forall.
  destruct (truthy (strip (default [] (user_inputs !! b)))) eqn:Hv;
    cbn [negb]; rewrite ?andb_false_r, ?andb_true_r; cbn [app].
  - split.
    + intros H ph Hph. unfold accepted, input_of. rewrite (Hbase ph Hph), Hv.
      pose proof (flat_map_nil_inv _ _ H ph Hph) as Hp. unfold pattern_error in Hp.
      destruct (ph_validation_pattern ph) as [[|c pat]|]; try reflexivity.
      destruct (re_match (c :: pat) (default [] (user_inputs !! b)));
        [reflexivity | discriminate Hp].
    + intros H. apply flat_map_nil. intros ph Hph.
      specialize (H ph Hph). unfold accepted, input_of in H.
      rewrite (Hbase ph Hph), Hv in H. unfold pattern_error.
      destruct (ph_validation_pattern ph) as [[|c pat]|]; try reflexivity.
      rewrite H. reflexivity.
  - rewrite app_nil_r. split.
    + intros H ph Hph. unfold accepted, input_of. rewrite (Hbase ph Hph), Hv.
      destruct (existsb ph_is_required phs) eqn:Hreq.
      * destruct phs as [|p rest]; [destruct Hph | discriminate H].
      * apply negb_true_iff.
        destruct (ph_is_required ph) eqn:Hr; [|reflexivity].
        rewrite <- Hreq. symmetry. apply existsb_exists. exists ph. split; assumption.
    + intros H.
      destruct (existsb ph_is_required phs) eqn:Hreq; [|reflexivity].
      apply existsb_exists in Hreq as (ph & Hph & Hr).
      specialize (H ph Hph). unfold accepted, input_of in H.
      rewrite (Hbase ph Hph), Hv, Hr in H. discriminate H.
Qed.

Lemma validate_inputs_nil_iff (placeholders : list Placeholder)
      (user_inputs : gmap str str) :
  validate_inputs placeholders user_inputs = []
  <-> forallb (accepted user_inputs) placeholders = true.
Proof.
  unfold validate_inputs. rewrite group_by_base_name_eq, flat_map_map.
  assert (Hmem : forall b ph, In ph (members b placeholders) ->
                   base_name_of (ph_name ph) = b).
  { intros b ph Hph. unfold members in Hph. apply filter_In in Hph as [_ E].
    apply str_eqb_eq in E. exact E. }
  split.
  - intros H. apply forallb_forall. intros ph Hph.
    pose proof (flat_map_nil_inv _ _ H _ (base_names_complete _ _ Hph)) as Hg.
    cbn beta in Hg.
    apply (group_errors_nil _ _ _ (Hmem _)) in Hg.
    rewrite forallb_forall in Hg. apply Hg.
    unfold members. apply filter_In. split; [exact Hph|].
    apply str_eqb_eq. reflexivity.
  - intros H. apply flat_map_nil. intros b _. cbn beta.
    apply (group_errors_nil _ _ _ (Hmem b)).
    apply forallb_forall. intros ph Hph.
    rewrite forallb_forall in H. apply H.
    unfold members in Hph. apply filter_In in Hph as [Hph _]. exact Hph.
Qed.

(** X4.  Validation passes, that is, returns no message, exactly when
    every entry of the catalog accepts the value found under its base
    name: a blank value only if the entry is optional, and any other
    value only if it matches the pattern of the entry, when it has
    one. *)
Theorem validate_inputs_passes_iff (placeholders : list Placeholder)
        (user_inputs : gmap str str) :
  validate_inputs placeholders user_inputs = []
  <-> forallb (accepted user_inputs) placeholders = true.
Proof. apply validate_inputs_nil_iff. Qed.
End ValidationFacts.

(** ** Addresses, formatted twice *)

Lemma rdrop_id {A} (p : A -> bool) (l : list A) :
  no_trailing p l -> rdrop p l = l.
Proof.
  destruct l as [|c l _] using rev_ind; [reflexivity|].
  unfold no_trailing. rewrite last_snoc, rdrop_snoc. intros ->. reflexivity.
Qed.

Lemma dropwhile_in {A} (p : A -> bool) (l : list A) (x : A) :
  In x (dropwhile_b p l) -> In x l.
Proof.
  induction l as [|y l IH]; [intros []|].
  cbn [dropwhile_b]. destruct (p y); [intros H; right; apply IH, H | intros H; exact H].
Qed.

Lemma rdrop_in {A} (p : A -> bool) (l : list A) (x : A) :
  In x (rdrop p l) -> In x l.
Proof.
  unfold rdrop. intros H. apply in_rev in H. apply dropwhile_in in H.
  apply in_rev in H. exact H.
Qed.

Lemma no_trailing_app {A} (p : A -> bool) (pre l : list A) :
  l <> [] -> no_trailing p l -> no_trailing p (pre ++ l).
Proof.
  destruct l as [|c l _] using rev_ind; [contradiction|].
  intros _. unfold no_trailing. rewrite app_assoc, !last_snoc. intros H. exact H.
Qed.

Lemma no_leading_app {A} (p : A -> bool) (l post : list A) :
  l <> [] -> no_leading p l -> no_leading p (l ++ post).
Proof. destruct l as [|c l]; [contradiction|]. intros _ H. exact H. Qed.

Lemma join_head (sep x : str) (xs : list str) :
  exists t, join sep (x :: xs) = x ++ t.
Proof.
  destruct xs as [|y ys]; [exists []; cbn; rewrite app_nil_r; reflexivity|].
  eexists. reflexivity.
Qed.

Lemma join_last (sep y : str) (xs : list str) :
  exists pre, join sep (xs ++ [y]) = pre ++ y.
Proof.
  induction xs as [|x xs [pre IH]]; [exists []; reflexivity|].
  cbn [app]. destruct (xs ++ [y]) as [|z zs] eqn:E.
  { destruct xs; discriminate E. }
  change (join sep (x :: z :: zs)) with (x ++ sep ++ join sep (z :: zs)).
  rewrite IH. exists (x ++ sep ++ pre). rewrite <- !app_assoc. reflexivity.
Qed.

Lemma split_go_char_absent (c : char) (p : str) :
  ~ In c p -> forall acc, split_go [c] 0 acc p = [rev acc ++ p].
Proof.
  induction p as [|x p IH]; intros Hc acc.
  - cbn. rewrite app_nil_r. reflexivity.
  - cbn [split_go startswith].
    destruct (N.eqb_spec c x) as [->|Hx]; [exfalso; apply Hc; left; reflexivity|].
    cbn [andb]. rewrite IH by (intros H; apply Hc; right; exact H).
    cbn [rev]. rewrite <- app_assoc. reflexivity.
Qed.

Lemma split_go_char_at (c : char) (p rest : str) :
  ~ In c p ->
  forall acc,
    split_go [c] 0 acc (p ++ c :: rest) = (rev acc ++ p) :: split_go [c] 0 [] rest.
Proof.
  induction p as [|x p IH]; intros Hc acc.
  - cbn [app split_go startswith length pred]. rewrite N.eqb_refl. cbn [andb].
    rewrite app_nil_r. reflexivity.
  - cbn [app split_go startswith].
    destruct (N.eqb_spec c x) as [->|Hx]; [exfalso; apply Hc; left; reflexivity|].
    cbn [andb]. rewrite IH by (intros H; apply Hc; right; exact H).
    cbn [rev]. rewrite <- app_assoc. reflexivity.
Qed.

Lemma split_go_char_pieces (c : char) (s : str) :
  forall acc, ~ In c acc -> forall p, In p (split_go [c] 0 acc s) -> ~ In c p.
Proof.
  induction s as [|x s IH]; intros acc Hacc p Hp.
  - cbn in Hp. destruct Hp as [<-|[]]. intros H. apply in_rev in H. contradiction.
  - cbn [split_go startswith length pred] in Hp.
    destruct (N.eqb_spec c x) as [->|Hx]; cbn [andb] in Hp.
    + destruct Hp as [<-|Hp].
      * intros H. apply in_rev in H. contradiction.
      * apply (IH [] (fun H => H) p Hp).
    + apply (IH (x :: acc)); [|exact Hp].
      intros [H|H]; [congruence | contradiction].
Qed.

Lemma filter_all {A} (f : A -> bool) (l : list A) :
  (forall x, In x l -> f x = true) -> List.filter f l = l.
Proof.
  induction l as [|x l IH]; intros H; [reflexivity|].
  cbn [List.filter]. rewrite (H x (or_introl eq_refl)).
  rewrite IH by (intros y Hy; apply H; right; exact Hy). reflexivity.
Qed.

Section AddressTwice.
Context {U : UnicodeData}.

Lemma strip_fixed (s : str) :
  no_leading isspace s -> no_trailing isspace s -> strip s = s.
Proof.
  intros Hl Ht. rewrite strip_rdrop, (dropwhile_id _ _ Hl). apply rdrop_id, Ht.
Qed.

Lemma strip_idempotent (s : str) : strip (strip s) = strip s.
Proof. apply strip_fixed; [apply strip_no_leading | apply strip_no_trailing]. Qed.

Lemma strip_in (s : str) (x : char) : In x (strip s) -> In x s.
Proof.
  rewrite strip_rdrop. intros H. apply rdrop_in, dropwhile_in in H. exact H.
Qed.

Lemma segments_of_address (address : str) (s : str) :
  In s (List.filter (fun l => negb (str_eqb l [])) (map strip (split [COMMA] address))) ->
  segment s.
Proof.
  intros H. apply filter_In in H as [H Hne].
  apply negb_true_iff, str_eqb_neq in Hne.
  apply in_map_iff in H as (p & <- & Hp).
  split; [exact Hne|]. split; [apply strip_no_leading|].
  split; [apply strip_no_trailing|].
  intros Hc. apply strip_in in Hc.
  apply (split_go_char_pieces COMMA address [] (fun H => H) p Hp Hc).
Qed.

Lemma strip_line (s : str) : segment s -> strip (NL :: s) = s.
Proof.
  intros (_ & Hl & Ht & _). rewrite strip_rdrop.
  change (dropwhile_b isspace (NL :: s)) with (dropwhile_b isspace s).
  rewrite (dropwhile_id _ _ Hl). apply rdrop_id, Ht.
Qed.

Lemma segment_with_period (l : str) :
  segment l ->
  segment (if endswith [DOT] l then l else l ++ [DOT])
  /\ endswith [DOT] (if endswith [DOT] l then l else l ++ [DOT]) = true.
Proof.
  intros Hseg. destruct (endswith [DOT] l) eqn:E; [split; assumption|].
  destruct Hseg as (Hne & Hl & Ht & Hc). split.
  - split; [destruct l; discriminate|].
    split; [apply no_leading_app; assumption|].
    split; [unfold no_trailing; rewrite last_snoc; reflexivity|].
    intros H. apply in_app_or in H as [H|[H|[]]]; [contradiction | discriminate H].
  - rewrite endswith_snoc. reflexivity.
Qed.

Lemma split_lines (init : list str) (l : str) :
  (forall s, In s init -> segment s) -> segment l ->
  split_go [COMMA] 0 [] (NL :: join [NL] (map (fun s => s ++ [COMMA]) init ++ [l]))
  = map (cons NL) (init ++ [l]).
Proof.
  intros Hinit Hl. induction init as [|s init IH].
  - cbn [map app join]. rewrite split_go_char_absent; [reflexivity|].
    intros [H|H]; [discriminate H | apply Hl, H].
  - cbn [map app].
    destruct (map (fun s => s ++ [COMMA]) init ++ [l]) as [|y ys] eqn:E.
    { destruct init; discriminate E. }
    change (join [NL] ((s ++ [COMMA]) :: y :: ys))
      with ((s ++ [COMMA]) ++ [NL] ++ join [NL] (y :: ys)).
    replace (NL :: (s ++ [COMMA]) ++ [NL] ++ join [NL] (y :: ys))
      with ((NL :: s) ++ COMMA :: (NL :: join [NL] (y :: ys)))
      by (cbn [app]; rewrite <- app_assoc; reflexivity).
    rewrite split_go_char_at.
    + rewrite IH by (intros s' Hs'; apply Hinit; right; exact Hs'). reflexivity.
    + intros [H|H]; [discriminate H|].
      apply (Hinit s (or_introl eq_refl)), H.
Qed.

Lemma split_formatted (init : list str) (l : str) :
  (forall s, In s init -> segment s) -> segment l ->
  List.filter (fun l => negb (str_eqb l []))
    (map strip (split [COMMA] (join [NL] (map (fun s => s ++ [COMMA]) init ++ [l]))))
  = init ++ [l].
Proof.
  intros Hinit Hl.
  assert (Hall : forall s, In s (init ++ [l]) -> segment s).
  { intros s Hs. apply in_app_or in Hs as [Hs|[<-|[]]]; [apply Hinit, Hs | exact Hl]. }
  assert (Hpieces : map strip (split [COMMA]
                      (join [NL] (map (fun s => s ++ [COMMA]) init ++ [l])))
                    = init ++ [l]).
  { unfold split. destruct init as [|s init].
    - cbn [map app join]. rewrite split_go_char_absent by apply Hl.
      cbn [rev app map]. f_equal. apply strip_fixed; apply Hl.
    - cbn [map app].
      destruct (map (fun s => s ++ [COMMA]) init ++ [l]) as [|y ys] eqn:E.
      { destruct init; discriminate E. }
      change (join [NL] ((s ++ [COMMA]) :: y :: ys))
        with ((s ++ [COMMA]) ++ [NL] ++ join [NL] (y :: ys)).
      replace ((s ++ [COMMA]) ++ [NL] ++ join [NL] (y :: ys))
        with (s ++ COMMA :: (NL :: join [NL] (y :: ys)))
        by (rewrite <- app_assoc; reflexivity).
      rewrite split_go_char_at by apply (Hinit s (or_introl eq_refl)).
      rewrite <- E, split_lines
        by (try (intros s' Hs'; apply Hinit; right; exact Hs'); exact Hl).
      cbn [rev app map]. f_equal.
      + apply strip_fixed; apply (Hinit s (or_introl eq_refl)).
      + rewrite map_map. rewrite <- (map_id (init ++ [l])) at 2.
        apply map_ext_in. intros s' Hs'. apply strip_line, Hall. right. exact Hs'. }
  rewrite Hpieces. apply filter_all. intros s Hs.
  apply negb_true_iff, str_eqb_neq. apply (Hall s Hs).
Qed.

Lemma formatted_trimmed (init : list str) (l : str) :
  (forall s, In s init -> segment s) -> segment l ->
  let formatted := join [NL] (map (fun s => s ++ [COMMA]) init ++ [l]) in
  formatted <> [] /\ strip formatted = formatted.
Proof.
  intros Hinit Hl formatted.
  assert (Hlead : formatted <> [] /\ no_leading isspace formatted).
  { destruct init as [|s init].
    - split; apply Hl.
    - assert (Hhead : exists t, formatted = (s ++ [COMMA]) ++ t)
        by apply join_head.
      destruct Hhead as [t Ht]. rewrite Ht.
      destruct (Hinit s (or_introl eq_refl)) as (Hne & Hls & _).
      split; [destruct s; [contradiction | discriminate]|].
      rewrite <- app_assoc. apply no_leading_app; assumption. }
  split; [apply Hlead|].
  apply strip_fixed; [apply Hlead|].
  assert (Hlast : exists pre, formatted = pre ++ l) by apply join_last.
  destruct Hlast as [pre Hpre]. rewrite Hpre.
  apply no_trailing_app; apply Hl.
Qed.

Lemma guard_false (x : str) :
  x <> [] -> strip x = x -> str_eqb x [] || str_eqb (strip x) [] = false.
Proof.
  intros Hne Hs. rewrite Hs. apply str_eqb_neq in Hne. rewrite Hne. reflexivity.
Qed.

(** X5.  Formatting an address that is already formatted changes nothing:
    for every address and every template type, a second pass returns the
    result of the first. *)
Theorem format_address_idempotent (address_string template_type : str) :
  format_address (format_address address_string template_type) template_type
  = format_address address_string template_type.
Proof.
  unfold format_address at 2 3.
  destruct (str_eqb address_string [] || str_eqb (strip address_string) []) eqn:Hguard.
  { unfold format_address. rewrite Hguard. reflexivity. }
  apply orb_false_iff in Hguard as [_ Hne]. apply str_eqb_neq in Hne.
  set (address := strip address_string) in *.
  assert (Hfix : strip address = address) by apply strip_idempotent.
  destruct (str_eqb (lower template_type) (lit "letter")) eqn:Hletter.
  - destruct (List.filter (fun l => negb (str_eqb l [])) (map strip (split [COMMA] address)))
      as [|s0 segs] eqn:Hsegs.
    + unfold format_address. rewrite (guard_false _ Hne Hfix), Hletter, Hfix, Hsegs.
      reflexivity.
    + assert (Hall : forall s, In s (s0 :: segs) -> segment s).
      { intros s Hs. rewrite <- Hsegs in Hs. eapply segments_of_address, Hs. }
      destruct (exists_last (l := s0 :: segs) ltac:(discriminate)) as (init & l & E).
      rewrite E in *. clear E s0 segs Hsegs.
      rewrite finish_lines.
      assert (Hinit : forall s, In s init -> segment s).
      { intros s Hs. apply Hall, in_or_app. left. exact Hs. }
      destruct (segment_with_period l) as [Hl' Hend].
      { apply Hall, in_or_app. right. left. reflexivity. }
      set (l' := if endswith [DOT] l then l else l ++ [DOT]) in *.
      destruct (formatted_trimmed init l' Hinit Hl') as [Hfne Hfs].
      unfold format_address.
      rewrite (guard_false _ Hfne Hfs), Hletter, Hfs.
      rewrite (split_formatted init l' Hinit Hl').
      destruct (init ++ [l']) as [|y ys] eqn:E; [destruct init; discriminate E|].
      rewrite <- E, finish_lines, Hend. reflexivity.
  - destruct (str_eqb (lower template_type) (lit "affidavit")) eqn:Haff.
    + rewrite strip_periods_rdrop
        by first [lia | apply strip_no_leading | apply strip_no_trailing].
      set (r := rdrop period_or_space address).
      assert (Hrt : no_trailing period_or_space r) by apply rdrop_no_trailing.
      assert (Hrl : no_leading isspace r)
        by (apply rdrop_no_leading, strip_no_leading).
      assert (Hrs : no_trailing isspace r).
      { unfold no_trailing in *. destruct (last r) as [c|]; [|exact I].
        unfold period_or_space in Hrt. apply orb_false_iff in Hrt as [_ H]. exact H. }
      destruct r as [|c r'] eqn:Er; [reflexivity|]. rewrite <- Er in *.
      assert (Hrne : r <> []) by (rewrite Er; discriminate).
      unfold format_address.
      rewrite (guard_false _ Hrne (strip_fixed _ Hrl Hrs)), Hletter, Haff.
      rewrite (strip_fixed _ Hrl Hrs).
      rewrite strip_periods_rdrop by first [lia | assumption].
      apply rdrop_id, Hrt.
    + unfold format_address. rewrite (guard_false _ Hne Hfix), Hletter, Haff.
      exact Hfix.
Qed.
End AddressTwice.

(** ** The context *)

Section ContextFacts.
Context {U : UnicodeData} {D : DateLibrary}.





Lemma prepare_context_go_keys (now : datetime) (template_type : str)
      (user_inputs : gmap str str) (preserve : bool) (placeholders : list Placeholder) :
  forall context0 context,
    prepare_context_go now template_type user_inputs preserve placeholders context0
    = Ok context ->
    (forall key, is_Some (context !! key)
                 <-> is_Some (context0 !! key) \/ In key (map ph_name placeholders))
    /\ (preserve = true ->
        (forall key v, context0 !! key = Some v -> exists text, v = Plain text) ->
        forall key v, context !! key = Some v -> exists text, v = Plain text).
Proof.
  induction placeholders as [|ph rest IH]; intros context0 context H.
  - injection H as <-. split; [intros key; cbn; tauto|]. intros _ H0. exact H0.
  - cbn [prepare_context_go] in H.
    destruct (placeholder_value now template_type user_inputs ph) as [value|e];
      [|discriminate H].
    apply IH in H as [Hkeys Hplain]. split.
    + intros key. rewrite Hkeys. cbn [map In].
      destruct (decide (ph_name ph = key)) as [<-|Hne].
      * rewrite lookup_insert_eq. split; [intros _; right; left; reflexivity|].
        intros _. left. eexists; reflexivity.
      * rewrite lookup_insert_ne by exact Hne. tauto.
    + intros Hp H0. apply (Hplain Hp). intros key v Hv.
      destruct (decide (ph_name ph = key)) as [<-|Hne].
      * rewrite lookup_insert_eq in Hv. injection Hv as <-.
        unfold context_entry. rewrite Hp. eexists; reflexivity.
      * rewrite lookup_insert_ne in Hv by exact Hne. eapply H0, Hv.
Qed.

(** X7.  A context that was built has an entry for the name of every
    entry of the catalog and for nothing else; when the original
    formatting is preserved, as in generation, every entry is a plain
    text. *)
Theorem prepare_context_keys (now : datetime) (template : Template)
        (user_inputs : gmap str str) (preserve_original_formatting : bool)
        (context : gmap str ContextValue) :
  prepare_context now template user_inputs preserve_original_formatting = Ok context ->
  (forall key, is_Some (context !! key)
               <-> In key (map ph_name (t_placeholders template)))
  /\ (preserve_original_formatting = true ->
      forall key v, context !! key = Some v -> exists text, v = Plain text).
Proof.
  intros H. apply prepare_context_go_keys in H as [Hkeys Hplain]. split.
  - intros key. rewrite Hkeys, lookup_empty. split; [intros [[v Hv]|H]|intros H].
    + discriminate Hv.
    + exact H.
    + right. exact H.
  - intros Hp. apply (Hplain Hp). intros key v Hv. rewrite lookup_empty in Hv.
    discriminate Hv.
Qed.

Lemma instance_lookup (user_inputs : gmap str str) (v : str) (n : nat) :
  plain_name v = true ->
  user_inputs !! instance_name_of v n = None ->
  (if negb (truthy []) && contains (lit "_instance_") (instance_name_of v n)
   then default [] (user_inputs !! nth 0 (split (lit "_instance_")
                                            (instance_name_of v n)) [])
   else [])
  = default [] (user_inputs !! v).
Proof.
  intros Hplain Hkey.
  pose proof (instance_name_base v n Hplain) as Hb.
  unfold base_name_of in Hb.
  destruct (contains (lit "_instance_") (instance_name_of v n)) eqn:Hc.
  - rewrite Hb. reflexivity.
  - rewrite andb_false_r. rewrite Hb in Hkey.
    symmetry. exact (f_equal (default []) Hkey).
Qed.

Lemma apply_casing_none (value : str) : apply_casing value (lit "none") = value.
Proof.
  unfold apply_casing, str_eqb.
  rewrite !bool_decide_eq_false_2 by (vm_compute; discriminate). reflexivity.
Qed.

(** The text that is formatted for an entry of ingestion whose suggested
    default is empty, when the inputs hold nothing under its own name:
    what was given under the bare name. *)
Lemma ingested_date_value (now : datetime) (template_type : str)
      (user_inputs : gmap str str) (o : Occurrence) (i : Z) (n : nat) :
  plain_name (occ_name o) = true ->
  detect_variable_type (occ_name o) = lit "date" ->
  get_smart_placeholder_default (occ_name o) = [] ->
  user_inputs !! instance_name_of (occ_name o) n = None ->
  placeholder_value now template_type user_inputs (placeholder_of_occurrence o i n)
  = format_date now (default [] (user_inputs !! occ_name o)) template_type.
Proof.
  intros Hplain Hdate Hdefault Hkey.
  assert (Hd : str_eqb (lit "date") (lit "date") = true)
    by (apply str_eqb_eq; reflexivity).
  unfold placeholder_value.
  cbn [placeholder_of_occurrence ph_name ph_default_value ph_placeholder_type ph_casing].
  rewrite Hdate, Hdefault, Hkey, Hd. cbn [or_str default from_option id].
  match goal with
  | |- format_date now ?value template_type ≫= _ = _ =>
      assert (Hvalue : value = default [] (user_inputs !! occ_name o))
        by exact (instance_lookup user_inputs (occ_name o) n Hplain Hkey);
      rewrite Hvalue
  end.
  destruct (format_date now (default [] (user_inputs !! occ_name o)) template_type)
    as [text|e]; cbn [mbind result_bind bind]; [|reflexivity].
  rewrite apply_casing_none. reflexivity.
Qed.

(** X8.  In a catalog made by ingestion, a repeated occurrence of a date
    field whose suggested default is empty gets the value of the first
    occurrence when a date was given: the inputs holding nothing under
    the name of the instance, anything that is not blank under the bare
    name gives the entry of the later occurrence and the entry of the
    first the same value, whenever each of them is computed.  When
    nothing, or a blank text, was given under the bare name, each entry
    gets the rendering of the current time as it is read for that entry,
    so that the two agree only as far as the two readings do. *)
Theorem date_instance_follows_first (now1 now2 : datetime) (template_type : str)
        (user_inputs : gmap str str) (first later : Occurrence) (i j : Z) (n : nat) :
  occ_name later = occ_name first ->
  plain_name (occ_name first) = true ->
  detect_variable_type (occ_name first) = lit "date" ->
  get_smart_placeholder_default (occ_name first) = [] ->
  user_inputs !! instance_name_of (occ_name first) n = None ->
  let given := default [] (user_inputs !! occ_name first) in
  (blank given = false ->
   placeholder_value now2 template_type user_inputs (placeholder_of_occurrence later i n)
   = placeholder_value now1 template_type user_inputs
       (placeholder_of_occurrence first j 1))
  /\ (blank given = true ->
      placeholder_value now1 template_type user_inputs
        (placeholder_of_occurrence first j 1)
      = Ok (render_date now1 template_type)
      /\ placeholder_value now2 template_type user_inputs
           (placeholder_of_occurrence later i n)
         = Ok (render_date now2 template_type)).
Proof.
  intros Hname Hplain Hdate Hdefault Hkey given.
  assert (Hfirst : user_inputs !! instance_name_of (occ_name first) 1
                   = user_inputs !! occ_name first) by reflexivity.
  assert (H1 : forall now,
             placeholder_value now template_type user_inputs
               (placeholder_of_occurrence first j 1)
             = format_date now given template_type).
  { intros now. unfold placeholder_value.
    cbn [placeholder_of_occurrence ph_name ph_default_value ph_placeholder_type
         ph_casing].
    change (instance_name_of (occ_name first) 1) with (occ_name first).
    rewrite Hdate, Hdefault. cbn [or_str].
    rewrite (plain_name_free _ Hplain), andb_false_r.
    unfold str_eqb at 1. rewrite bool_decide_eq_true_2 by reflexivity.
    unfold given.
    destruct (format_date now _ template_type) as [text|e];
      cbn [mbind result_bind bind]; [|reflexivity].
    rewrite apply_casing_none. reflexivity. }
  assert (H2 : forall now,
             placeholder_value now template_type user_inputs
               (placeholder_of_occurrence later i n)
             = format_date now given template_type).
  { intros now. unfold given. rewrite <- Hname in *.
    apply ingested_date_value; assumption. }
  split.
  - intros Hgiven. rewrite H1, H2.
    assert (Hs : strip given <> []) by (apply str_eqb_neq, Hgiven).
    assert (Hne : given <> []) by (intros E; rewrite E in Hs; apply Hs; reflexivity).
    rewrite !(format_date_not_blank _ _ _ Hne Hs). reflexivity.
  - intros Hgiven. apply str_eqb_eq in Hgiven. rewrite H1, H2.
    rewrite !(format_date_blank _ _ _ (or_intror Hgiven)). split; reflexivity.
Qed.
End ContextFacts.


(** The keys of that context. *)
Lemma prepare_context_keys_witness :
  let request :=
    @prepare_context basic_latin iso_dates sample_time
      (sample_template 1 "Admission" "letter") {[ lit "name" := lit "Ada" ]} true in
  exists context,
    request = Ok context
    /\ forall key, is_Some (context !! key) <-> In key [lit "name"].
Proof.
  intros request.
  assert (H : exists context, request = Ok context)
    by (vm_compute; eexists; reflexivity).
  destruct H as [context H]. exists context. split; [exact H|].
  apply (@prepare_context_keys basic_latin iso_dates) in H as [Hkeys _].
  exact Hkeys.
Defined.

(** A later occurrence of a date field, read a minute after the first,
    with the date given under the bare name only. *)
Lemma date_instance_follows_first_witness :
  @placeholder_value basic_latin iso_dates sample_time (lit "letter")
    {[ lit "date" := lit "2025-09-22" ]}
    (@placeholder_of_occurrence basic_latin (later_occurrence "date") 3 2)
  = Ok (lit "22nd September, 2025").
Proof.
  etransitivity.
  - refine (proj1 (@date_instance_follows_first basic_latin iso_dates
                     earlier_time sample_time
                     (lit "letter") {[ lit "date" := lit "2025-09-22" ]}
                     (sample_occurrence "date") (later_occurrence "date") 3 0 2
                     _ _ _ _ _) _).
    + vm_compute. reflexivity.
    + vm_compute. reflexivity.
    + vm_compute. reflexivity.
    + vm_compute. reflexivity.
    + vm_compute. reflexivity.
    + vm_compute. reflexivity.
  - vm_compute. reflexivity.
Defined.

(** ** The store *)

Lemma assoc_get_head {V} (key : str) (v : V) (l : list (str * V)) :
  assoc_get key ((key, v) :: l) = Some v.
Proof.
  cbn [assoc_get]. unfold str_eqb. rewrite bool_decide_eq_true_2 by reflexivity.
  reflexivity.
Qed.

Section StoreFacts.
Context {U : UnicodeData} {I : Interpreter} {D : DateLibrary} {Sv : Services}.

Lemma file_at_write_file (path : str) (d : Docx) (w : World) :
  file_at path (write_file path d w) = Some d.
Proof. unfold file_at, write_file. cbn [w_files]. apply assoc_get_head. Qed.

(** A file that exists still exists after another is written. *)
Lemma file_at_write_file_exists (path path' : str) (d : Docx) (w : World) :
  is_Some (file_at path w) -> is_Some (file_at path (write_file path' d w)).
Proof.
  unfold file_at, write_file. cbn [w_files assoc_get]. intros H.
  destruct (str_eqb path' path) eqn:E; [eexists; reflexivity|].
  induction (w_files w) as [|[k v] files IH]; [exact H|].
  cbn [assoc_get] in H. cbn [List.filter fst].
  destruct (str_eqb k path) eqn:Ek.
  - apply str_eqb_eq in Ek. subst k.
    rewrite str_eqb_sym_bool in E. rewrite E. cbn [negb assoc_get].
    unfold str_eqb at 1. rewrite bool_decide_eq_true_2 by reflexivity.
    eexists; reflexivity.
  - destruct (negb (str_eqb k path')); [|apply IH, H].
    cbn [assoc_get]. rewrite Ek. apply IH, H.
Qed.

Lemma fold_max_bound (ids : list Z) (i : Z) :
  In i ids -> (i <= fold_right Z.max 0 ids)%Z.
Proof.
  induction ids as [|j ids IH]; intros Hin; [destruct Hin|].
  cbn [fold_right]. destruct Hin as [->|Hin]; [lia|].
  specialize (IH Hin). lia.
Qed.

(** Every identifier in the table is below the next one. *)
Lemma next_document_id_above (w : World) (d : CreatedDocument) :
  In d (w_documents w) -> (cd_id d < next_document_id w)%Z.
Proof.
  intros Hd. unfold next_document_id.
  pose proof (fold_max_bound (map cd_id (w_documents w)) (cd_id d)
                (in_map cd_id _ _ Hd)).
  lia.
Qed.

Lemma generate_document_ok
      (template_id : Z) (user_inputs : gmap str str) (user_name : str)
      (user_email : option str) (w w' : World) (doc : CreatedDocument) :
  generate_document template_id user_inputs user_name user_email w = (Ok doc, w') ->
  (exists template,
      get_template template_id w = Ok template
      /\ validate_inputs (t_placeholders template) user_inputs = [])
  /\ w_documents w' = w_documents w ++ [doc]
  /\ cd_id doc = next_document_id w
  /\ cd_template_id doc = template_id
  /\ cd_user_name doc = user_name
  /\ cd_user_email doc = user_email
  /\ cd_user_inputs doc = user_inputs
  /\ cd_batch_id doc = None
  /\ (exists file,
        file_at (cd_file_path doc) w' = Some file
        /\ cd_file_size doc = docx_size file)
  /\ w_templates w' = w_templates w
  /\ w_batches w' = w_batches w.
Proof.
  unfold generate_document. intros H.
  destruct (get_template template_id w) as [template|e] eqn:Ht; [|discriminate H].
  destruct (validate_inputs (t_placeholders template) user_inputs) as [|m ms] eqn:Hv;
    [|discriminate H].
  split; [exists template; split; [reflexivity | exact Hv]|].
  unfold render_and_record in H.
  destruct (docx_load (t_file_path template)) as [loaded|e]; [|discriminate H].
  destruct (prepare_context (lagos_now (w_time w)) template user_inputs true)
    as [context|e]; [|discriminate H].
  destruct (docx_render loaded context) as [rendered|e]; [|discriminate H].
  destruct (docx_reopen rendered) as [post_doc|e]; [|discriminate H].
  injection H as <- <-.
  cbn [cd_id cd_template_id cd_user_name cd_user_email cd_user_inputs cd_batch_id
       cd_file_path cd_file_size add_document write_file tick
       w_documents w_templates w_batches].
  split; [reflexivity|]. split; [reflexivity|]. split; [reflexivity|].
  split; [reflexivity|]. split; [reflexivity|]. split; [reflexivity|].
  split; [reflexivity|]. split; [|split; reflexivity].
  eexists. split; [|reflexivity].
  unfold file_at. cbn [w_files]. apply assoc_get_head.
Qed.

(** X9.  A generation that returns a document found the template and
    passed validation.  It appends exactly one record to the store, the
    one it returns: with the identifier the database issues next, one
    more than the largest in the store and so above every identifier in
    use, and with the template, the name, the address and the inputs of
    the request, and no batch.  The file the record names exists in the
    generated folder and has the recorded size.  Templates and batches
    are as before. *)
Theorem generate_document_success
        (template_id : Z) (user_inputs : gmap str str) (user_name : str)
        (user_email : option str) (w w' : World) (doc : CreatedDocument) :
  generate_document template_id user_inputs user_name user_email w = (Ok doc, w') ->
  (exists template,
      get_template template_id w = Ok template
      /\ validate_inputs (t_placeholders template) user_inputs = [])
  /\ w_documents w' = w_documents w ++ [doc]
  /\ cd_id doc = (fold_right Z.max 0 (map cd_id (w_documents w)) + 1)%Z
  /\ (forall d, In d (w_documents w) -> (cd_id d < cd_id doc)%Z)
  /\ cd_template_id doc = template_id
  /\ cd_user_name doc = user_name
  /\ cd_user_email doc = user_email
  /\ cd_user_inputs doc = user_inputs
  /\ cd_batch_id doc = None
  /\ (exists file,
        file_at (cd_file_path doc) w' = Some file
        /\ cd_file_size doc = docx_size file)
  /\ w_templates w' = w_templates w
  /\ w_batches w' = w_batches w.
Proof.
  intros H. apply generate_document_ok in H as (Ht & Hdocs & Hid & Hrest).
  split; [exact Ht|]. split; [exact Hdocs|]. split; [exact Hid|].
  split; [|exact Hrest].
  intros d Hd. rewrite Hid. apply next_document_id_above, Hd.
Qed.

Lemma generate_document_raise
      (template_id : Z) (user_inputs : gmap str str) (user_name : str)
      (user_email : option str) (w w' : World) (e : exn) :
  generate_document template_id user_inputs user_name user_email w = (Raise e, w') ->
  w_documents w' = w_documents w
  /\ w_templates w' = w_templates w
  /\ w_batches w' = w_batches w.
Proof.
  unfold generate_document. intros H.
  destruct (get_template template_id w) as [template|e0];
    [|injection H as _ <-; split; [|split]; reflexivity].
  destruct (validate_inputs (t_placeholders template) user_inputs) as [|m ms];
    [|injection H as _ <-; split; [|split]; reflexivity].
  unfold render_and_record in H.
  destruct (docx_load (t_file_path template)) as [loaded|e1];
    [|injection H as _ <-; split; [|split]; reflexivity].
  destruct (prepare_context (lagos_now (w_time w)) template user_inputs true)
    as [context|e2]; [|injection H as _ <-; split; [|split]; reflexivity].
  destruct (docx_render loaded context) as [rendered|e3];
    [|injection H as _ <-; split; [|split]; reflexivity].
  destruct (docx_reopen rendered) as [post_doc|e4]; [discriminate H|].
  injection H as _ <-. split; [|split]; reflexivity.
Qed.

(** X10.  A generation that raises, for whatever reason, adds no record:
    the documents, the templates and the batches of the store are as
    before. *)
Theorem generate_document_failure
        (template_id : Z) (user_inputs : gmap str str) (user_name : str)
        (user_email : option str) (w w' : World) (e : exn) :
  generate_document template_id user_inputs user_name user_email w = (Raise e, w') ->
  w_documents w' = w_documents w
  /\ w_templates w' = w_templates w
  /\ w_batches w' = w_batches w.
Proof. apply generate_document_raise. Qed.

(** Files are never removed by a generation. *)
Lemma generate_document_keeps_files
      (template_id : Z) (user_inputs : gmap str str) (user_name : str)
      (user_email : option str) (w : World) (path : str) :
  is_Some (file_at path w) ->
  is_Some (file_at path
             (snd (generate_document template_id user_inputs user_name user_email w))).
Proof.
  intros Hf. unfold generate_document.
  destruct (get_template template_id w) as [template|e0]; [|exact Hf].
  destruct (validate_inputs (t_placeholders template) user_inputs) as [|m ms];
    [|exact Hf].
  unfold render_and_record.
  destruct (docx_load (t_file_path template)) as [loaded|e1]; [|exact Hf].
  destruct (prepare_context (lagos_now (w_time w)) template user_inputs true)
    as [context|e2]; [|exact Hf].
  destruct (docx_render loaded context) as [rendered|e3]; [|exact Hf].
  destruct (docx_reopen rendered) as [post_doc|e4]; cbn [snd].
  - apply (file_at_write_file_exists path _ _
             (tick (write_file (uuid4 (w_time w) ++ lit ".docx") rendered w))).
    apply (file_at_write_file_exists path _ _ w), Hf.
  - apply (file_at_write_file_exists path _ _ w), Hf.
Qed.
End StoreFacts.

Section BatchStore.
Context {U : UnicodeData} {I : Interpreter} {D : DateLibrary} {Sv : Services}.

Lemma ids_bounded_spec (w : World) :
  ids_bounded w = true
  <-> forall d, In d (w_documents w) -> (cd_id d < next_document_id w)%Z.
Proof.
  unfold ids_bounded. rewrite forallb_forall. split; intros H d Hd.
  - apply Z.ltb_lt, H, Hd.
  - apply Z.ltb_lt, H, Hd.
Qed.

(** The row of a new document takes the batch; the older rows have
    smaller identifiers and stay as they are. *)
Lemma update_document_last (docs : list CreatedDocument) (doc doc' : CreatedDocument) :
  cd_id doc' = cd_id doc ->
  (forall d, In d docs -> (cd_id d < cd_id doc)%Z) ->
  map (fun d => if (cd_id d =? cd_id doc')%Z then doc' else d) (docs ++ [doc])
  = docs ++ [doc'].
Proof.
  intros Hid Hold. rewrite map_app. cbn [map]. rewrite Hid, Z.eqb_refl. f_equal.
  rewrite <- (map_id docs) at 2. apply map_ext_in. intros d Hd.
  specialize (Hold d Hd).
  destruct (Z.eqb_spec (cd_id d) (cd_id doc)) as [E|_]; [lia | reflexivity].
Qed.

Lemma batch_loop_store batch_id user_inputs user_name user_email template_ids :
  forall successful errors w,
    ids_bounded w = true ->
    exists new,
      fst (fst (batch_loop batch_id user_inputs user_name user_email template_ids
                           successful errors w)) = successful ++ new
      /\ w_documents (snd (batch_loop batch_id user_inputs user_name user_email
                                      template_ids successful errors w))
         = w_documents w ++ new
      /\ (forall d, In d new ->
            cd_batch_id d = Some batch_id
            /\ is_Some (file_at (cd_file_path d)
                          (snd (batch_loop batch_id user_inputs user_name user_email
                                           template_ids successful errors w))))
      /\ w_templates (snd (batch_loop batch_id user_inputs user_name user_email
                                      template_ids successful errors w))
         = w_templates w
      /\ w_batches (snd (batch_loop batch_id user_inputs user_name user_email
                                    template_ids successful errors w))
         = w_batches w
      /\ ids_bounded (snd (batch_loop batch_id user_inputs user_name user_email
                                      template_ids successful errors w)) = true
      /\ (forall path, is_Some (file_at path w) ->
            is_Some (file_at path
                       (snd (batch_loop batch_id user_inputs user_name user_email
                                        template_ids successful errors w)))).
Proof.
  induction template_ids as [|t rest IH]; intros successful errors w Hb.
  - exists []. cbn [batch_loop fst snd]. rewrite !app_nil_r.
    split; [reflexivity|]. split; [reflexivity|]. split; [intros d []|].
    split; [reflexivity|]. split; [reflexivity|]. split; [exact Hb|].
    intros path H. exact H.
  - cbn [batch_loop].
    pose proof (generate_document_keeps_files t user_inputs user_name user_email w)
      as Hkeep.
    destruct (generate_document t user_inputs user_name user_email w)
      as [[doc|e] w1] eqn:Hg.
    + apply generate_document_ok in Hg
        as (_ & Hdocs & Hid & _ & _ & _ & _ & _ & (file & Hfile & _) & Htpl & Hbat).
      set (doc' := with_batch_id batch_id doc).
      assert (Hdocs' : w_documents (update_document doc' w1) = w_documents w ++ [doc']).
      { cbn [update_document w_documents]. rewrite Hdocs.
        apply update_document_last; [reflexivity|].
        intros d Hd. rewrite Hid. apply ids_bounded_spec; assumption. }
      assert (Hb' : ids_bounded (update_document doc' w1) = true).
      { apply ids_bounded_spec. intros d Hd. apply next_document_id_above, Hd. }
      destruct (IH (successful ++ [doc']) errors (update_document doc' w1) Hb')
        as (new & Hs & Hd & Hnew & Ht & Hbt & Hbd & Hfiles).
      exists (doc' :: new).
      split; [rewrite Hs, <- app_assoc; reflexivity|].
      split; [rewrite Hd, Hdocs', <- app_assoc; reflexivity|].
      split.
      { intros d [<-|Hin]; [|apply Hnew, Hin].
        split; [reflexivity|]. apply Hfiles.
        cbn [doc' with_batch_id cd_file_path]. unfold file_at in *.
        cbn [update_document w_files]. rewrite Hfile. eexists; reflexivity. }
      split; [rewrite Ht; exact Htpl|]. split; [rewrite Hbt; exact Hbat|].
      split; [exact Hbd|].
      intros path Hp. apply Hfiles. apply Hkeep in Hp. exact Hp.
    + apply generate_document_raise in Hg as (Hdocs & Htpl & Hbat).
      assert (Hb' : ids_bounded w1 = true).
      { unfold ids_bounded, next_document_id in *. rewrite Hdocs. exact Hb. }
      destruct (IH successful (errors ++ [error_entry t e]) w1 Hb')
        as (new & Hs & Hd & Hnew & Ht & Hbt & Hbd & Hfiles).
      exists new.
      split; [exact Hs|]. split; [rewrite Hd, Hdocs; reflexivity|].
      split; [exact Hnew|].
      split; [rewrite Ht; exact Htpl|]. split; [rewrite Hbt; exact Hbat|].
      split; [exact Hbd|].
      intros path Hp. apply Hfiles. apply Hkeep in Hp. exact Hp.
Qed.
End BatchStore.

Section BatchPages.
Context {U : UnicodeData} {I : Interpreter} {D : DateLibrary} {Sv : Services}.

Lemma process_batch_run (template_ids : list Z) (user_inputs : gmap str str)
      (user_name : str) (user_email : option str) (w : World) :
  ids_bounded w = true ->
  let batch_id := uuid4 (w_time w) in
  let run := process_batch template_ids user_inputs user_name user_email w in
  bg_batch_id (fst (fst run)) = batch_id
  /\ w_documents (snd run) = w_documents w ++ snd (fst run)
  /\ (forall d, In d (snd (fst run)) ->
        cd_batch_id d = Some batch_id
        /\ is_Some (file_at (cd_file_path d) (snd run)))
  /\ w_templates (snd run) = w_templates w
  /\ w_batches (snd run)
     = map (fun b' => if str_eqb (bg_batch_id b') batch_id then fst (fst run) else b')
           (w_batches w
              ++ [new_batch batch_id template_ids user_inputs user_name user_email])
  /\ ids_bounded (snd run) = true.
Proof.
  intros Hb batch_id run. unfold run, process_batch. fold batch_id.
  set (batch0 := new_batch batch_id template_ids user_inputs user_name user_email).
  set (w0 := tick (add_batch batch0 w)).
  assert (Hb0 : ids_bounded w0 = true) by exact Hb.
  destruct (batch_loop_store batch_id user_inputs user_name user_email template_ids
              [] [] w0 Hb0) as (new & Hs & Hd & Hnew & Ht & Hbt & Hbd & _).
  destruct (batch_loop batch_id user_inputs user_name user_email template_ids [] [] w0)
    as [[successful errors] w1].
  cbn [fst snd] in *. subst successful.
  cbn [update_batch w_documents w_templates w_batches finish_batch bg_batch_id].
  split; [reflexivity|]. split; [exact Hd|]. split; [exact Hnew|].
  split; [exact Ht|]. split; [rewrite Hbt; reflexivity|]. exact Hbd.
Qed.

Lemma map_replace_fresh (batch_id : str) (b : BatchGeneration)
      (batches : list BatchGeneration) :
  forallb (fun b' => negb (str_eqb (bg_batch_id b') batch_id)) batches = true ->
  map (fun b' => if str_eqb (bg_batch_id b') batch_id then b else b') batches = batches.
Proof.
  intros H. rewrite <- (map_id batches) at 2. apply map_ext_in. intros b' Hb'.
  rewrite forallb_forall in H. specialize (H b' Hb').
  apply negb_true_iff in H. rewrite H. reflexivity.
Qed.

Lemma find_fresh (batch_id : str) (b : BatchGeneration)
      (batches : list BatchGeneration) :
  forallb (fun b' => negb (str_eqb (bg_batch_id b') batch_id)) batches = true ->
  bg_batch_id b = batch_id ->
  List.find (fun b' => str_eqb (bg_batch_id b') batch_id) (batches ++ [b]) = Some b.
Proof.
  intros H Hb. induction batches as [|b' batches IH].
  - cbn [app List.find]. rewrite Hb. unfold str_eqb.
    rewrite bool_decide_eq_true_2 by reflexivity. reflexivity.
  - cbn [forallb] in H. apply andb_true_iff in H as [H1 H2].
    apply negb_true_iff in H1. cbn [app List.find]. rewrite H1. apply IH, H2.
Qed.

Lemma filter_batch_fresh (batch_id : str) (old new : list CreatedDocument) :
  forallb (fun d => negb (bool_decide (cd_batch_id d = Some batch_id))) old = true ->
  (forall d, In d new -> cd_batch_id d = Some batch_id) ->
  List.filter (fun d => bool_decide (cd_batch_id d = Some batch_id)) (old ++ new) = new.
Proof.
  intros Hold Hnew. rewrite List.filter_app.
  assert (E1 : List.filter (fun d => bool_decide (cd_batch_id d = Some batch_id)) old
               = []).
  { induction old as [|d old IH]; [reflexivity|].
    cbn [forallb] in Hold. apply andb_true_iff in Hold as [H1 H2].
    apply negb_true_iff in H1. cbn [List.filter]. rewrite H1. apply IH, H2. }
  rewrite E1. cbn [app].
  induction new as [|d new IH]; [reflexivity|].
  cbn [List.filter]. rewrite bool_decide_eq_true_2 by (apply Hnew; left; reflexivity).
  f_equal. apply IH. intros d' Hd'. apply Hnew. right. exact Hd'.
Qed.

(** The store a batch leaves, when its identifier is fresh. *)
Lemma process_batch_rows (template_ids : list Z) (user_inputs : gmap str str)
      (user_name : str) (user_email : option str) (w : World) :
  ids_bounded w = true ->
  fresh_batch_id (uuid4 (w_time w)) w = true ->
  let run := process_batch template_ids user_inputs user_name user_email w in
  bg_batch_id (fst (fst run)) = uuid4 (w_time w)
  /\ w_documents (snd run) = w_documents w ++ snd (fst run)
  /\ (forall d, In d (snd (fst run)) ->
        cd_batch_id d = Some (uuid4 (w_time w))
        /\ is_Some (file_at (cd_file_path d) (snd run)))
  /\ w_templates (snd run) = w_templates w
  /\ w_batches (snd run) = w_batches w ++ [fst (fst run)]
  /\ ids_bounded (snd run) = true
  /\ get_batch (uuid4 (w_time w)) (snd run) = Ok (fst (fst run)).
Proof.
  intros Hb Hfb run.
  destruct (process_batch_run template_ids user_inputs user_name user_email w Hb)
    as (Hid & Hd & Hnew & Ht & Hbt & Hbd).
  fold run in Hid, Hd, Hnew, Ht, Hbt, Hbd.
  unfold fresh_batch_id in Hfb.
  assert (Hbt' : w_batches (snd run) = w_batches w ++ [fst (fst run)]).
  { rewrite Hbt, map_app, (map_replace_fresh _ _ _ Hfb). cbn [map new_batch bg_batch_id].
    unfold str_eqb. rewrite bool_decide_eq_true_2 by reflexivity. reflexivity. }
  split; [exact Hid|]. split; [exact Hd|]. split; [exact Hnew|].
  split; [exact Ht|]. split; [exact Hbt'|]. split; [exact Hbd|].
  unfold get_batch. rewrite Hbt', (find_fresh _ _ _ Hfb Hid). reflexivity.
Qed.

(** The documents that carry the identifier of the batch afterwards. *)
Lemma process_batch_documents (template_ids : list Z) (user_inputs : gmap str str)
      (user_name : str) (user_email : option str) (w : World) :
  ids_bounded w = true ->
  unused_batch_id (uuid4 (w_time w)) w = true ->
  let run := process_batch template_ids user_inputs user_name user_email w in
  documents_of_batch (uuid4 (w_time w)) (snd run) = snd (fst run).
Proof.
  intros Hb Hfd run.
  destruct (process_batch_run template_ids user_inputs user_name user_email w Hb)
    as (_ & Hd & Hnew & _).
  fold run in Hd, Hnew.
  unfold documents_of_batch. rewrite Hd.
  apply filter_batch_fresh; [exact Hfd|]. intros d Hin. apply Hnew, Hin.
Qed.

(** A name without separator is its own normal form. *)
Lemma normpath_plain (name : str) :
  name <> [] -> ~ In SLASH name -> normpath name = name.
Proof.
  intros Hne Hslash. destruct name as [|c rest]; [contradiction|].
  assert (Hc : c <> SLASH) by (intros E; apply Hslash; left; exact E).
  assert (Hs : startswith (lit "/") (c :: rest) = false).
  { change (lit "/") with [SLASH]. cbn [startswith].
    rewrite (proj2 (N.eqb_neq SLASH c)) by congruence. reflexivity. }
  assert (Hsp : split (lit "/") (c :: rest) = [c :: rest]).
  { change (lit "/") with [SLASH]. unfold split.
    apply (split_go_char_absent SLASH (c :: rest) Hslash []). }
  unfold normpath. rewrite Hs, Hsp. cbn [repeat app normpath_comps].
  unfold str_eqb at 1. rewrite bool_decide_eq_false_2 by discriminate.
  cbn [orb]. destruct (str_eqb (c :: rest) (lit ".")) eqn:Hdot.
  - apply str_eqb_eq in Hdot. rewrite Hdot. reflexivity.
  - cbn [Nat.eqb andb]. rewrite orb_true_r. cbn [orb normpath_comps rev app join].
    reflexivity.
Qed.

Lemma dropwhile_b_head {A} (p : A -> bool) (x : A) (l : list A) :
  p x = false -> dropwhile_b p (x :: l) = x :: l.
Proof. intros H. cbn [dropwhile_b]. rewrite H. reflexivity. Qed.

Lemma takewhile_b_all {A} (p : A -> bool) (l : list A) :
  forallb p l = true -> takewhile_b p l = l.
Proof.
  induction l as [|x l IH]; intros H; [reflexivity|].
  cbn [forallb] in H. apply andb_true_iff in H as [Hx Hl].
  cbn [takewhile_b]. rewrite Hx, (IH Hl). reflexivity.
Qed.

(** The archive stores a plain file name as it is. *)
Lemma zip_arcname_plain (name : str) :
  plain_file_name name = true -> zip_arcname name = Ok name.
Proof.
  unfold plain_file_name. intros H. apply andb_true_iff in H as [Hne Hall].
  apply negb_true_iff, str_eqb_neq in Hne.
  assert (Hslash : ~ In SLASH name).
  { intros Hin. rewrite forallb_forall in Hall. specialize (Hall _ Hin).
    rewrite N.eqb_refl in Hall. discriminate Hall. }
  assert (Hnul : forallb (fun d => negb (d =? 0)) name = true).
  { apply forallb_forall. intros d Hd. rewrite forallb_forall in Hall.
    specialize (Hall _ Hd). apply andb_true_iff in Hall as [_ Hz]. exact Hz. }
  unfold zip_arcname. rewrite (normpath_plain name Hne Hslash).
  destruct name as [|c rest]; [contradiction|].
  rewrite dropwhile_b_head
    by (apply N.eqb_neq; intros E; apply Hslash; left; exact E).
  cbv beta iota. erewrite takewhile_b_all by exact Hnul. reflexivity.
Qed.

(** The loop that writes the archive, when every document has its file:
    an entry for each of them, or the error of the first name that
    cannot be made. *)
Lemma zip_entries_all (w : World) (documents : list CreatedDocument) :
  (forall d, In d documents -> is_Some (file_at (cd_file_path d) w)) ->
  (exists entries,
      zip_entries documents w = Ok entries
      /\ Forall2 (entry_of w) documents entries)
  \/ (exists e,
        zip_entries documents w = Raise e
        /\ Exists (fun d => exists e', zip_arcname (cd_original_filename d) = Raise e')
                  documents).
Proof.
  induction documents as [|d rest IH]; intros H.
  - left. exists []. split; [reflexivity | constructor].
  - cbn [zip_entries].
    destruct (H d (or_introl eq_refl)) as [file Hfile]. rewrite Hfile.
    destruct (zip_arcname (cd_original_filename d)) as [name|e] eqn:Hname;
      cbn [mbind result_bind bind].
    + destruct IH as [(entries & -> & Hall)|(e & -> & Hex)].
      * intros d' Hin. apply H. right. exact Hin.
      * left. exists ((name, file) :: entries). split; [reflexivity|].
        constructor; [|exact Hall]. split; [exact Hname | exact Hfile].
      * right. exists e. split; [reflexivity|]. apply Exists_cons_tl, Hex.
    + right. exists e. split; [reflexivity|].
      apply Exists_cons_hd. exists e. exact Hname.
Qed.

Lemma entries_plain (w : World) (documents : list CreatedDocument)
      (entries : list (str * Docx)) :
  Forall2 (entry_of w) documents entries ->
  forallb (fun d => plain_file_name (cd_original_filename d)) documents = true ->
  map fst entries = map cd_original_filename documents.
Proof.
  induction 1 as [|d entry documents entries [Hname _] _ IH]; intros Hp;
    [reflexivity|].
  cbn [forallb] in Hp. apply andb_true_iff in Hp as [Hd Hp].
  cbn [map]. rewrite (IH Hp). f_equal.
  rewrite (zip_arcname_plain _ Hd) in Hname. injection Hname as <-. reflexivity.
Qed.

(** X11.  What a batch leaves in the store, when the identifiers of the
    documents in use are below the next one and no batch has the
    identifier drawn for this one: the documents of before followed by
    the ones it generated, each carrying the batch; the batches of before
    followed by its own row as returned; the templates untouched. *)
Theorem process_batch_store (template_ids : list Z) (user_inputs : gmap str str)
        (user_name : str) (user_email : option str) (w : World) :
  ids_bounded w = true ->
  fresh_batch_id (uuid4 (w_time w)) w = true ->
  let run := process_batch template_ids user_inputs user_name user_email w in
  let batch := fst (fst run) in
  let successful := snd (fst run) in
  w_documents (snd run) = w_documents w ++ successful
  /\ (forall d, In d successful -> cd_batch_id d = Some (bg_batch_id batch))
  /\ w_batches (snd run) = w_batches w ++ [batch]
  /\ w_templates (snd run) = w_templates w
  /\ ids_bounded (snd run) = true.
Proof.
  intros Hb Hfresh run batch successful.
  destruct (process_batch_rows template_ids user_inputs user_name user_email w Hb Hfresh)
    as (Hid & Hd & Hnew & Ht & Hbt & Hbd & _).
  fold run in Hid, Hd, Hnew, Ht, Hbt, Hbd.
  split; [exact Hd|]. split; [|split; [exact Hbt | split; [exact Ht | exact Hbd]]].
  intros d Hin. unfold batch. rewrite Hid. apply Hnew, Hin.
Qed.

(** X12.  The page of a batch that has just run is given the row of the
    batch as returned and exactly the documents the batch generated, in
    their order.  This holds under the conditions of X11 when,
    moreover, no document of the store carried the identifier of the
    batch before. *)
Theorem batch_results_after_process_batch
        (template_ids : list Z) (user_inputs : gmap str str)
        (user_name : str) (user_email : option str) (w : World) :
  ids_bounded w = true ->
  fresh_batch_id (uuid4 (w_time w)) w = true ->
  unused_batch_id (uuid4 (w_time w)) w = true ->
  let run := process_batch template_ids user_inputs user_name user_email w in
  batch_results (bg_batch_id (fst (fst run))) (snd run)
  = Ok (fst (fst run), snd (fst run)).
Proof.
  intros Hb Hfresh Hunused run.
  destruct (process_batch_rows template_ids user_inputs user_name user_email w Hb Hfresh)
    as (Hid & _ & _ & _ & _ & _ & Hget).
  pose proof (process_batch_documents template_ids user_inputs user_name user_email
                w Hb Hunused) as Hdocs.
  fold run in Hid, Hget, Hdocs.
  unfold batch_results. rewrite Hid, Hget. cbn. rewrite Hdocs. reflexivity.
Qed.

(** X13.  The download of a batch that has just run, when no batch and
    no document of the store had the identifier drawn for it.  When nothing was generated it is the notice that there
    are no documents.  Otherwise it is an archive with one entry for
    each generated document, in their order, each holding the file of the
    document under the name the archive makes of the recorded file name
    (the normalised path without leading separators, cut at a null
    character), or it is the notice of an error, when that name cannot
    be made for one of them.  When every recorded file name is plain
    (not empty, no separator, no null character) the archive is
    returned and its entries carry the recorded names. *)
Theorem batch_download_docx_after_process_batch
        (template_ids : list Z) (user_inputs : gmap str str)
        (user_name : str) (user_email : option str) (w : World) :
  fresh_batch_id (uuid4 (w_time w)) w = true ->
  unused_batch_id (uuid4 (w_time w)) w = true ->
  let run := process_batch template_ids user_inputs user_name user_email w in
  let successful := snd (fst run) in
  let answer := batch_download_docx (bg_batch_id (fst (fst run))) (snd run) in
  match successful with
  | [] => answer = Ok NoDocuments
  | _ :: _ =>
      ((exists entries,
           answer = Ok (Archive entries)
           /\ Forall2 (entry_of (snd run)) successful entries)
       \/ (answer = Ok DownloadError
           /\ Exists (fun d => exists e,
                         zip_arcname (cd_original_filename d) = Raise e)
                     successful))
      /\ (forallb (fun d => plain_file_name (cd_original_filename d)) successful
          = true ->
          exists entries,
            answer = Ok (Archive entries)
            /\ map fst entries = map cd_original_filename successful)
  end.
Proof.
  intros Hfresh Hunused run successful answer.
  assert (Hb : ids_bounded w = true).
  { apply ids_bounded_spec. intros d Hd. apply next_document_id_above, Hd. }
  destruct (process_batch_rows template_ids user_inputs user_name user_email w Hb Hfresh)
    as (Hid & _ & Hnew & _ & _ & _ & Hget).
  pose proof (process_batch_documents template_ids user_inputs user_name user_email
                w Hb Hunused) as Hdocs.
  fold run in Hid, Hnew, Hget, Hdocs.
  unfold answer, batch_download_docx. rewrite Hid, Hget. cbn [mbind result_bind bind].
  rewrite Hdocs. unfold successful.
  assert (Hfiles : forall d, In d (snd (fst run)) ->
                     is_Some (file_at (cd_file_path d) (snd run)))
    by (intros d Hd; apply Hnew, Hd).
  clear Hnew Hdocs Hid Hget.
  destruct (snd (fst run)) as [|d rest]; [reflexivity|].
  destruct (zip_entries_all (snd run) (d :: rest) Hfiles)
    as [(entries & -> & Hall)|(e & -> & Hex)].
  - split.
    + left. exists entries. split; [reflexivity | exact Hall].
    + intros Hp. exists entries. split; [reflexivity|].
      apply (entries_plain _ _ _ Hall Hp).
  - split.
    + right. split; [reflexivity | exact Hex].
    + intros Hp. exfalso. apply List.Exists_exists in Hex as (d' & Hin & e' & He').
      rewrite forallb_forall in Hp. specialize (Hp d' Hin).
      rewrite (zip_arcname_plain _ Hp) in He'. discriminate He'.
Qed.
End BatchPages.

(** A generation on the store from which records were deleted. *)
Lemma generate_document_success_witness :
  let run :=
    @generate_document basic_latin literal_interpreter iso_dates sample_services
      1 {[ lit "name" := lit "Ada" ]} (lit "Ada") None world_after_deletion in
  exists doc w',
    run = (Ok doc, w')
    /\ w_documents w' = [sample_record 2; sample_record 4; doc]
    /\ cd_id doc = 5%Z
    /\ exists file, file_at (cd_file_path doc) w' = Some file.
Proof.
  intros run.
  assert (H : exists doc w', run = (Ok doc, w'))
    by (vm_compute; do 2 eexists; reflexivity).
  destruct H as (doc & w' & H). exists doc, w'. split; [exact H|].
  apply (@generate_document_success basic_latin literal_interpreter iso_dates
           sample_services) in H
    as (_ & Hdocs & Hid & _ & _ & _ & _ & _ & _ & (file & Hfile & _) & _).
  split; [exact Hdocs|]. split; [exact Hid|]. exists file. exact Hfile.
Defined.

(** A generation for a template that does not exist. *)
Lemma generate_document_failure_witness :
  let run :=
    @generate_document basic_latin literal_interpreter iso_dates sample_services
      2 {[ lit "name" := lit "Ada" ]} (lit "Ada") None sample_world in
  exists e w',
    run = (Raise e, w')
    /\ w_documents w' = []
    /\ w_templates w' = w_templates sample_world
    /\ w_batches w' = [].
Proof.
  intros run.
  assert (H : exists e w', run = (Raise e, w'))
    by (vm_compute; do 2 eexists; reflexivity).
  destruct H as (e & w' & H). exists e, w'. split; [exact H|].
  apply (@generate_document_failure basic_latin literal_interpreter iso_dates
           sample_services) in H.
  exact H.
Defined.

(** The batch of templates 1, 2 and 3 on the sample store. *)
Lemma process_batch_store_witness :
  let run :=
    @process_batch basic_latin literal_interpreter iso_dates sample_services
      [1; 2; 3]%Z {[ lit "name" := lit "Ada" ]} (lit "Ada") None sample_world in
  w_documents (snd run) = snd (fst run)
  /\ (forall d, In d (snd (fst run)) -> cd_batch_id d = Some (bg_batch_id (fst (fst run))))
  /\ w_batches (snd run) = [fst (fst run)]
  /\ w_templates (snd run) = w_templates sample_world
  /\ ids_bounded (snd run) = true.
Proof.
  intros run.
  apply (@process_batch_store basic_latin literal_interpreter iso_dates
           sample_services [1; 2; 3]%Z {[ lit "name" := lit "Ada" ]} (lit "Ada") None
           sample_world).
  - vm_compute. reflexivity.
  - vm_compute. reflexivity.
Defined.

(** The page of that batch. *)
Lemma batch_results_after_process_batch_witness :
  let run :=
    @process_batch basic_latin literal_interpreter iso_dates sample_services
      [1; 2; 3]%Z {[ lit "name" := lit "Ada" ]} (lit "Ada") None sample_world in
  batch_results (bg_batch_id (fst (fst run))) (snd run)
  = Ok (fst (fst run), snd (fst run)).
Proof.
  intros run.
  apply (@batch_results_after_process_batch basic_latin literal_interpreter
           iso_dates sample_services [1; 2; 3]%Z {[ lit "name" := lit "Ada" ]}
           (lit "Ada") None sample_world).
  - vm_compute. reflexivity.
  - vm_compute. reflexivity.
  - vm_compute. reflexivity.
Defined.

(** The download of that batch: two entries. *)
Lemma batch_download_docx_after_process_batch_witness :
  let run :=
    @process_batch basic_latin literal_interpreter iso_dates sample_services
      [1; 2; 3]%Z {[ lit "name" := lit "Ada" ]} (lit "Ada") None sample_world in
  exists entries,
    batch_download_docx (bg_batch_id (fst (fst run))) (snd run) = Ok (Archive entries)
    /\ map fst entries
       = [lit "Ada_Admission_20260103_090000.docx";
          lit "Ada_Oath_20260103_090000.docx"].
Proof.
  intros run.
  assert (H2 : fresh_batch_id (@uuid4 sample_services (w_time sample_world)) sample_world = true)
    by (vm_compute; reflexivity).
  assert (H3 : unused_batch_id (@uuid4 sample_services (w_time sample_world)) sample_world = true)
    by (vm_compute; reflexivity).
  pose proof (@batch_download_docx_after_process_batch basic_latin
                literal_interpreter iso_dates sample_services [1; 2; 3]%Z
                {[ lit "name" := lit "Ada" ]} (lit "Ada") None sample_world
                H2 H3) as H.
  cbv zeta in H. fold run in H.
  assert (Hs : exists d1 d2, snd (fst run) = [d1; d2]
                 /\ forallb (fun d => plain_file_name (cd_original_filename d)) [d1; d2]
                    = true
                 /\ map cd_original_filename [d1; d2]
                    = [lit "Ada_Admission_20260103_090000.docx";
                       lit "Ada_Oath_20260103_090000.docx"])
    by (vm_compute; do 2 eexists; split; [|split]; reflexivity).
  destruct Hs as (d1 & d2 & Hs & Hplain & Hnames).
  rewrite Hs in H. destruct H as (_ & H).
  destruct (H Hplain) as (entries & He & Hn).
  exists entries. split; [exact He|]. rewrite Hn. exact Hnames.
Defined.

(** ** Records and their files *)

Section RecordsAndFiles.
Context {U : UnicodeData} {I : Interpreter} {D : DateLibrary} {Sv : Services}.

Lemma documents_have_files_spec (w : World) :
  documents_have_files w = true
  <-> forall d, In d (w_documents w) -> is_Some (file_at (cd_file_path d) w).
Proof.
  unfold documents_have_files. rewrite forallb_forall.
  split; intros H d Hd; specialize (H d Hd).
  - destruct (file_at (cd_file_path d) w); [eexists; reflexivity | discriminate H].
  - destruct H as [f ->]. reflexivity.
Qed.

Lemma generate_document_have_files
      (template_id : Z) (user_inputs : gmap str str) (user_name : str)
      (user_email : option str) (w : World) :
  documents_have_files w = true ->
  documents_have_files
    (snd (generate_document template_id user_inputs user_name user_email w)) = true.
Proof.
  intros H. apply documents_have_files_spec. intros d Hd.
  pose proof (generate_document_keeps_files template_id user_inputs user_name
                user_email w) as Hkeep.
  destruct (generate_document template_id user_inputs user_name user_email w)
    as [[doc|e] w'] eqn:Hg; cbn [snd] in *.
  - apply generate_document_ok in Hg
      as (_ & Hdocs & _ & _ & _ & _ & _ & _ & (file & Hfile & _) & _).
    rewrite Hdocs in Hd. apply in_app_or in Hd as [Hd|[<-|[]]].
    + apply Hkeep. apply (proj1 (documents_have_files_spec w) H), Hd.
    + eexists. exact Hfile.
  - apply generate_document_raise in Hg as (Hdocs & _).
    rewrite Hdocs in Hd.
    apply Hkeep. apply (proj1 (documents_have_files_spec w) H), Hd.
Qed.

Lemma batch_loop_have_files batch_id user_inputs user_name user_email template_ids :
  forall successful errors w,
    documents_have_files w = true ->
    documents_have_files
      (snd (batch_loop batch_id user_inputs user_name user_email template_ids
                       successful errors w)) = true.
Proof.
  induction template_ids as [|t rest IH]; intros successful errors w H; [exact H|].
  cbn [batch_loop].
  pose proof (generate_document_have_files t user_inputs user_name user_email w H)
    as Hw1.
  destruct (generate_document t user_inputs user_name user_email w)
    as [[doc|e] w1] eqn:Hg; cbn [snd] in Hw1; [|apply IH, Hw1].
  apply IH. apply documents_have_files_spec. intros d Hd.
  cbn [update_document w_documents] in Hd.
  apply in_map_iff in Hd as (d0 & Hd0 & Hin).
  apply generate_document_ok in Hg
    as (_ & _ & _ & _ & _ & _ & _ & _ & (file & Hfile & _) & _).
  unfold file_at in *. cbn [update_document w_files].
  destruct (cd_id d0 =? cd_id (with_batch_id batch_id doc))%Z.
  - subst d. cbn [with_batch_id cd_file_path]. rewrite Hfile. eexists; reflexivity.
  - subst d. apply (proj1 (documents_have_files_spec w1) Hw1), Hin.
Qed.

(** X14.  No batch leaves a record without its file: if every document
    of the store has its file in the generated folder before a batch, so
    does every document of the store after it, whatever the outcome of
    each generation. *)
Theorem process_batch_documents_have_files
        (template_ids : list Z) (user_inputs : gmap str str)
        (user_name : str) (user_email : option str) (w : World) :
  documents_have_files w = true ->
  documents_have_files
    (snd (process_batch template_ids user_inputs user_name user_email w)) = true.
Proof.
  intros H. unfold process_batch.
  set (batch_id := uuid4 (w_time w)).
  set (batch0 := new_batch batch_id template_ids user_inputs user_name user_email).
  pose proof (batch_loop_have_files batch_id user_inputs user_name user_email
                template_ids [] [] (tick (add_batch batch0 w)) H) as Hloop.
  destruct (batch_loop batch_id user_inputs user_name user_email template_ids [] []
                       (tick (add_batch batch0 w))) as [[successful errors] w1].
  exact Hloop.
Qed.
End RecordsAndFiles.

(** The same batch leaves no record without its file. *)
Lemma process_batch_documents_have_files_witness :
  documents_have_files
    (snd (@process_batch basic_latin literal_interpreter iso_dates sample_services
            [1; 2; 3]%Z {[ lit "name" := lit "Ada" ]} (lit "Ada") None sample_world))
  = true.
Proof.
  apply (@process_batch_documents_have_files basic_latin literal_interpreter
           iso_dates sample_services).
  vm_compute. reflexivity.
Defined.

(** ** The names that extraction finds *)

Section ExtractedNames.
Context {U : UnicodeData} {I : Interpreter}.

(** X15.  Every name that extraction finds in a document is a word: it
    is not empty and consists of letters, digits and underscores only. *)
Theorem extracted_names_are_words (root : element) :
  forallb (fun o => truthy (occ_name o) && forallb isword (occ_name o))
          (extract_template_variables root) = true.
Proof.
  apply forallb_forall. intros o Ho.
  unfold extract_template_variables in Ho. revert Ho. generalize 0%nat.
  induction (findall root (lit "w:p")) as [|para rest IH]; intros para_idx Ho;
    [destruct Ho|].
  cbn [paragraphs_occurrences] in Ho. apply in_app_or in Ho as [Ho|Ho];
    [|eapply IH, Ho].
  unfold paragraph_occurrences in Ho.
  apply in_flat_map in Ho as (m & Hm & Ho).
  unfold occurrence_of_match in Ho.
  destruct (find_run _ _ _ _) as [run_idx|]; [|destruct Ho].
  destruct (nth_error _ run_idx) as [run|]; [|destruct Ho].
  destruct Ho as [<-|[]]. cbn [occ_name].
  apply finditer_go_groups in Hm as (prev' & s' & rest' & Hm).
  apply rmatch_placeholder_groups in Hm as (name & -> & Hne & Hw).
  cbn [nth]. rewrite Hw, andb_true_r.
  unfold truthy. apply negb_true_iff, str_eqb_neq, Hne.
Qed.
End ExtractedNames.

(** ** A document without braces *)

Section NoBraces.
Context {U : UnicodeData} {I : Interpreter}.

Lemma match_at_placeholder_brace (prev : option char) (s : str) :
  ~ In 123 s -> match_at placeholder_re prev s = None.
Proof.
  intros Hno. unfold match_at, placeholder_re. cbn [rmatch].
  destruct s as [|d s]; [reflexivity|].
  destruct (N.eqb_spec 123 d) as [<-|_]; [exfalso; apply Hno; left; reflexivity|].
  reflexivity.
Qed.

Lemma finditer_go_no_brace (s : str) :
  ~ In 123 s ->
  forall skip pos prev, finditer_go placeholder_re skip pos prev s = [].
Proof.
  induction s as [|c s IH]; intros Hno skip pos prev; [reflexivity|].
  assert (Hs : ~ In 123 s) by (intros H; apply Hno; right; exact H).
  cbn [finditer_go]. destruct skip as [|k]; [|apply IH, Hs].
  rewrite (match_at_placeholder_brace prev (c :: s) Hno). apply IH, Hs.
Qed.

(** X16.  A document in whose paragraphs the text of the runs holds no
    opening brace has no placeholder: extraction returns the empty
    list. *)
Theorem extract_template_variables_no_brace (root : element) :
  forallb (fun para => negb (existsb (N.eqb 123) (paragraph_text para)))
          (findall root (lit "w:p")) = true ->
  extract_template_variables root = [].
Proof.
  unfold extract_template_variables. generalize 0%nat.
  induction (findall root (lit "w:p")) as [|para rest IH]; intros para_idx H;
    [reflexivity|].
  cbn [forallb] in H. apply andb_true_iff in H as [Hpara Hrest].
  cbn [paragraphs_occurrences]. rewrite (IH _ Hrest), app_nil_r.
  unfold paragraph_occurrences. fold (paragraph_text para).
  unfold finditer. rewrite finditer_go_no_brace; [reflexivity|].
  intros Hin. apply negb_true_iff in Hpara.
  assert (Hex : existsb (N.eqb 123) (paragraph_text para) = true).
  { apply existsb_exists. exists 123. split; [exact Hin | apply N.eqb_refl]. }
  congruence.
Qed.
End NoBraces.

(** A document without placeholders. *)
Lemma extract_template_variables_no_brace_witness :
  @extract_template_variables basic_latin literal_interpreter plain_document = [].
Proof.
  apply (@extract_template_variables_no_brace basic_latin literal_interpreter).
  vm_compute. reflexivity.
Defined.

(** ** The route of the form *)

Section GenerateRoute.
Context {U : UnicodeData} {I : Interpreter} {D : DateLibrary} {Sv : Services}.

Lemma generate_user_inputs_lookup (form : gmap str str) (key : str) :
  generate_user_inputs form !! key
  = if bool_decide (key = lit "template_id" \/ key = lit "format") then None
    else fix_date_ordinal_casing <$> form !! key.
Proof.
  unfold generate_user_inputs. rewrite lookup_fmap.
  destruct (bool_decide_reflect (key = lit "template_id" \/ key = lit "format"))
    as [Hk|Hk].
  - rewrite (proj2 (map_lookup_filter_None _ form key)); [reflexivity|].
    right. intros x _ [H1 H2]. cbn in H1, H2. destruct Hk; contradiction.
  - destruct (form !! key) as [x|] eqn:E.
    + rewrite (proj2 (map_lookup_filter_Some _ form key x)); [reflexivity|].
      split; [exact E|]. cbn. split; intros ->; apply Hk; [left | right]; reflexivity.
    + rewrite (proj2 (map_lookup_filter_None _ form key)); [reflexivity|].
      left. exact E.
Qed.

Lemma validate_inputs_required_missing (placeholders : list Placeholder)
      (user_inputs : gmap str str) (ph : Placeholder) :
  In ph placeholders -> ph_is_required ph = true ->
  user_inputs !! base_name_of (ph_name ph) = None ->
  validate_inputs placeholders user_inputs <> [].
Proof.
  intros Hin Hreq Hkey Hnil.
  apply validate_inputs_nil_iff in Hnil. rewrite forallb_forall in Hnil.
  specialize (Hnil ph Hin).
  assert (Hv : input_of user_inputs ph = [])
    by exact (f_equal (default []) Hkey).
  unfold accepted in Hnil. rewrite Hv, Hreq in Hnil. discriminate Hnil.
Qed.

(** X17.  The fields [template_id] and [format] of the form are not
    inputs.  So a template with a required entry of one of these base
    names cannot be generated through the form: whatever is submitted,
    the generation raises the [ValueError] of validation and the store
    is left as it was. *)
Theorem generate_reserved_field (form : gmap str str) (w : World)
        (raw : str) (template_id : Z) (template : Template) (ph : Placeholder) :
  form !! lit "template_id" = Some raw ->
  int_of_str raw = Some template_id ->
  is_Some (form !! lit "format") ->
  get_template template_id w = Ok template ->
  In ph (t_placeholders template) ->
  ph_is_required ph = true ->
  reserved (base_name_of (ph_name ph)) = true ->
  exists message,
    generate form w
    = (Generated (Raise {| exn_kind_of := ValueError; exn_message := message |}), w).
Proof.
  intros Hraw Hid [format Hformat] Ht Hin Hreq Hbase.
  unfold generate. rewrite Hraw, Hid, Hformat.
  unfold generate_document. rewrite Ht.
  assert (Hkey : generate_user_inputs form !! base_name_of (ph_name ph) = None).
  { rewrite generate_user_inputs_lookup. rewrite bool_decide_eq_true_2; [reflexivity|].
    unfold reserved in Hbase. apply orb_true_iff in Hbase as [H|H];
      apply str_eqb_eq in H; [left | right]; exact H. }
  pose proof (validate_inputs_required_missing _ _ _ Hin Hreq Hkey) as Hne.
  destruct (validate_inputs (t_placeholders template) (generate_user_inputs form));
    [contradiction|].
  eexists. reflexivity.
Qed.

(** X18.  What a generation through the form records: the template is
    the one the field [template_id] names; the inputs are the fields of
    the form other than [template_id] and [format], each with its ordinal
    suffixes normalised; the user is the normalised field [name], or
    [Anonymous User] when the form has none. *)
Theorem generate_records_form (form : gmap str str) (w w' : World)
        (doc : CreatedDocument) :
  generate form w = (Generated (Ok doc), w') ->
  (exists raw, form !! lit "template_id" = Some raw
               /\ int_of_str raw = Some (cd_template_id doc))
  /\ (forall key,
        cd_user_inputs doc !! key
        = if bool_decide (key = lit "template_id" \/ key = lit "format") then None
          else fix_date_ordinal_casing <$> form !! key)
  /\ cd_user_name doc
     = default (lit "Anonymous User") (fix_date_ordinal_casing <$> form !! lit "name")
  /\ cd_user_email doc = (fix_date_ordinal_casing <$> form !! lit "email").
Proof.
  unfold generate. intros H.
  destruct (form !! lit "template_id") as [raw|] eqn:Hraw; [|discriminate H].
  destruct (int_of_str raw) as [template_id|] eqn:Hid; [|discriminate H].
  destruct (form !! lit "format") as [format|]; [|discriminate H].
  destruct (generate_document template_id (generate_user_inputs form)
              (default (lit "Anonymous User") (generate_user_inputs form !! lit "name"))
              (generate_user_inputs form !! lit "email") w)
    as [outcome w1] eqn:Hg.
  injection H as -> ->.
  apply generate_document_ok in Hg
    as (_ & _ & _ & Htid & Hname & Hemail & Hinputs & _).
  split; [exists raw; rewrite Htid; split; [reflexivity | exact Hid]|].
  rewrite Hinputs, Hname, Hemail.
  split; [apply generate_user_inputs_lookup|].
  rewrite !generate_user_inputs_lookup.
  rewrite !bool_decide_eq_false_2 by (intros [H|H]; discriminate H).
  split; reflexivity.
Qed.
End GenerateRoute.

(** A template with a required field named [format]. *)
Lemma generate_reserved_field_witness :
  exists message,
    @generate basic_latin literal_interpreter iso_dates sample_services
      sample_form reserved_world
    = (Generated (Raise {| exn_kind_of := ValueError; exn_message := message |}),
       reserved_world).
Proof.
  apply (@generate_reserved_field basic_latin literal_interpreter iso_dates
           sample_services sample_form reserved_world (lit "1") 1
           (hd (sample_template 1 "" "") (w_templates reserved_world))
           (sample_placeholder "format" "Format" "text" true 0 "" "")).
  - vm_compute. reflexivity.
  - vm_compute. reflexivity.
  - exists (lit "docx"). vm_compute. reflexivity.
  - vm_compute. reflexivity.
  - left. reflexivity.
  - reflexivity.
  - vm_compute. reflexivity.
Defined.

(** A form for template 1 of the sample store. *)
Lemma generate_records_form_witness :
  let run :=
    @generate basic_latin literal_interpreter iso_dates sample_services
      sample_form sample_world in
  exists doc w',
    run = (Generated (Ok doc), w')
    /\ cd_user_inputs doc !! lit "format" = None
    /\ cd_user_inputs doc !! lit "date" = Some (lit "18th May")
    /\ cd_user_name doc = lit "Ada".
Proof.
  intros run.
  assert (H : exists doc w', run = (Generated (Ok doc), w'))
    by (vm_compute; do 2 eexists; reflexivity).
  destruct H as (doc & w' & H). exists doc, w'. split; [exact H|].
  apply (@generate_records_form basic_latin literal_interpreter iso_dates
           sample_services) in H as (_ & Hk & Hname & _).
  split; [rewrite Hk; vm_compute; reflexivity|].
  split; [rewrite Hk; vm_compute; reflexivity|].
  rewrite Hname. vm_compute. reflexivity.
Defined.

(** ** Sorting *)

Lemma insert_by_in {A} (key : A -> Z) (x y : A) (l : list A) :
  In y (insert_by key x l) <-> y = x \/ In y l.
Proof.
  induction l as [|z l IH]; cbn [insert_by].
  - split; [intros [<-|[]]; left; reflexivity | intros [->|[]]; left; reflexivity].
  - destruct (key x <=? key z)%Z.
    + split; [intros [<-|H]; [left; reflexivity | right; exact H]
             | intros [->|H]; [left; reflexivity | right; exact H]].
    + cbn [In]. rewrite IH. tauto.
Qed.

Lemma sorted_in {A} (key : A -> Z) (l : list A) (y : A) :
  In y (sorted key l) <-> In y l.
Proof.
  induction l as [|x l IH]; [reflexivity|].
  cbn [sorted]. rewrite insert_by_in, IH. cbn [In]. split; intros [H|H]; auto.
Qed.

Lemma insert_by_length {A} (key : A -> Z) (x : A) (l : list A) :
  length (insert_by key x l) = Datatypes.S (length l).
Proof.
  induction l as [|z l IH]; [reflexivity|].
  cbn [insert_by]. destruct (key x <=? key z)%Z; cbn [length]; [|rewrite IH]; reflexivity.
Qed.

Lemma insert_by_perm {A} (key : A -> Z) (x : A) (l : list A) :
  Permutation (insert_by key x l) (x :: l).
Proof.
  induction l as [|z l IH]; [reflexivity|].
  cbn [insert_by]. destruct (key x <=? key z)%Z; [reflexivity|].
  rewrite IH. apply perm_swap.
Qed.

Lemma sorted_perm {A} (key : A -> Z) (l : list A) : Permutation (sorted key l) l.
Proof.
  induction l as [|x l IH]; [reflexivity|].
  cbn [sorted]. rewrite insert_by_perm, IH. reflexivity.
Qed.

Lemma insert_by_ext {A} (k1 k2 : A -> Z) (x : A) (l : list A) :
  k1 x = k2 x -> (forall y, In y l -> k1 y = k2 y) ->
  insert_by k1 x l = insert_by k2 x l.
Proof.
  intros Hx. induction l as [|z l IH]; intros H; [reflexivity|].
  cbn [insert_by]. rewrite Hx, (H z (or_introl eq_refl)).
  destruct (k2 x <=? k2 z)%Z; [reflexivity|].
  rewrite IH by (intros y Hy; apply H; right; exact Hy). reflexivity.
Qed.

Lemma sorted_ext {A} (k1 k2 : A -> Z) (l : list A) :
  (forall y, In y l -> k1 y = k2 y) -> sorted k1 l = sorted k2 l.
Proof.
  induction l as [|x l IH]; intros H; [reflexivity|].
  cbn [sorted]. rewrite IH by (intros y Hy; apply H; right; exact Hy).
  apply insert_by_ext; [apply H; left; reflexivity|].
  intros y Hy. apply sorted_in in Hy. apply H. right. exact Hy.
Qed.

Lemma ascending_cons (x : Z) (l : list Z) :
  ascending (x :: l) = true
  <-> (forall y, In y l -> (x <= y)%Z) /\ ascending l = true.
Proof.
  revert x. induction l as [|y l IH]; intros x.
  - cbn. split; [intros _; split; [intros y []|reflexivity] | reflexivity].
  - change (ascending (x :: y :: l)) with ((x <=? y)%Z && ascending (y :: l)).
    rewrite andb_true_iff, Z.leb_le. split.
    + intros [Hxy Hl]. split; [|exact Hl].
      intros z [<-|Hz]; [exact Hxy|].
      apply IH in Hl as [Hy _]. specialize (Hy z Hz). lia.
    + intros [Hall Hl]. split; [apply Hall; left; reflexivity | exact Hl].
Qed.

Lemma insert_by_ascending {A} (key : A -> Z) (x : A) (l : list A) :
  ascending (map key l) = true -> ascending (map key (insert_by key x l)) = true.
Proof.
  induction l as [|z l IH]; intros H; [reflexivity|].
  cbn [insert_by]. destruct (Z.leb_spec (key x) (key z)) as [Hle|Hgt].
  - cbn [map]. apply ascending_cons. split; [|exact H].
    cbn [map] in H. apply ascending_cons in H as [Hz _].
    intros y [<-|Hy]; [exact Hle|]. specialize (Hz y Hy). lia.
  - cbn [map] in *. apply ascending_cons in H as [Hz Hl].
    apply ascending_cons. split; [|apply IH, Hl].
    intros y Hy. apply in_map_iff in Hy as (a & <- & Ha).
    apply insert_by_in in Ha as [->|Ha]; [lia|].
    apply Hz, in_map, Ha.
Qed.

Lemma sorted_ascending {A} (key : A -> Z) (l : list A) :
  ascending (map key (sorted key l)) = true.
Proof.
  induction l as [|x l IH]; [reflexivity|].
  cbn [sorted]. apply insert_by_ascending, IH.
Qed.

(** A list that is in order already is left as it is. *)
Lemma sorted_id {A} (key : A -> Z) (l : list A) :
  ascending (map key l) = true -> sorted key l = l.
Proof.
  induction l as [|x l IH]; intros H; [reflexivity|].
  cbn [map] in H. apply ascending_cons in H as [Hx Hl].
  cbn [sorted]. rewrite (IH Hl).
  destruct l as [|y l]; [reflexivity|].
  cbn [insert_by].
  destruct (Z.leb_spec (key x) (key y)) as [_|Hgt]; [reflexivity|].
  specialize (Hx (key y) (or_introl eq_refl)). lia.
Qed.

(** [min] with a key returns the first of the minimal elements, and so
    does taking the head of the stable sort. *)
Lemma min_by_sort_order_step (rest : list Placeholder) :
  forall a,
    min_by_sort_order a rest
    = match rest with
      | [] => a
      | q :: rest' =>
          if (ph_sort_order (min_by_sort_order q rest') <? ph_sort_order a)%Z
          then min_by_sort_order q rest' else a
      end.
Proof.
  induction rest as [|q rest IH]; intros a; [reflexivity|].
  cbn [min_by_sort_order]. rewrite IH. rewrite (IH q).
  destruct rest as [|q2 rest'].
  - reflexivity.
  - set (m2 := min_by_sort_order q2 rest').
    destruct (Z.ltb_spec (ph_sort_order q) (ph_sort_order a));
      destruct (Z.ltb_spec (ph_sort_order m2) (ph_sort_order q));
      repeat match goal with
             | |- context [(?x <? ?y)%Z] => destruct (Z.ltb_spec x y)
             end; try reflexivity; lia.
Qed.

Lemma sorted_head (rest : list Placeholder) :
  forall p, exists tail,
    sorted ph_sort_order (p :: rest) = min_by_sort_order p rest :: tail.
Proof.
  induction rest as [|q rest IH]; intros p.
  - exists []. reflexivity.
  - destruct (IH q) as [tail Hq].
    change (sorted ph_sort_order (p :: q :: rest))
      with (insert_by ph_sort_order p (sorted ph_sort_order (q :: rest))).
    rewrite Hq. cbn [insert_by]. rewrite (min_by_sort_order_step (q :: rest) p).
    destruct (Z.leb_spec (ph_sort_order p) (ph_sort_order (min_by_sort_order q rest)));
      destruct (Z.ltb_spec (ph_sort_order (min_by_sort_order q rest)) (ph_sort_order p));
      try lia; eexists; reflexivity.
Qed.

Lemma min_sort_order_of_snoc (phs : list Placeholder) (ph : Placeholder) :
  min_sort_order_of (phs ++ [ph])
  = match phs with
    | [] => ph_sort_order ph
    | _ :: _ => Z.min (min_sort_order_of phs) (ph_sort_order ph)
    end.
Proof.
  destruct phs as [|p rest]; [reflexivity|].
  cbn [app min_sort_order_of]. rewrite map_app, fold_left_app. reflexivity.
Qed.

Lemma fold_min_le (l : list Z) :
  forall a, (fold_left Z.min l a <= a)%Z
            /\ (forall x, In x l -> (fold_left Z.min l a <= x)%Z)
            /\ (fold_left Z.min l a = a \/ In (fold_left Z.min l a) l).
Proof.
  induction l as [|y l IH]; intros a.
  - cbn. split; [lia|]. split; [intros x []|left; reflexivity].
  - cbn [fold_left]. destruct (IH (Z.min a y)) as (H1 & H2 & H3).
    split; [lia|]. split.
    + intros x [<-|Hx]; [lia | apply H2, Hx].
    + destruct H3 as [H3|H3]; [|right; right; exact H3].
      rewrite H3. destruct (Z.min_spec a y) as [[_ E]|[_ E]]; rewrite E;
        [left; reflexivity | right; left; reflexivity].
Qed.

(** The least [sort_order] of a group is that of its first minimal
    member. *)
Lemma min_by_sort_order_value (rest : list Placeholder) (p : Placeholder) :
  ph_sort_order (min_by_sort_order p rest) = min_sort_order_of (p :: rest).
Proof.
  cbn [min_sort_order_of].
  destruct (min_by_sort_order_spec rest p) as [Hin Hmin].
  destruct (fold_min_le (map ph_sort_order rest) (ph_sort_order p)) as (H1 & H2 & H3).
  apply Z.le_antisymm.
  - destruct H3 as [H3|H3].
    + rewrite H3. apply Hmin. left. reflexivity.
    + apply in_map_iff in H3 as (q & Hq & Hqin). rewrite <- Hq.
      apply Hmin. right. exact Hqin.
  - destruct Hin as [<-|Hin]; [exact H1|].
    apply H2, in_map, Hin.
Qed.

(** ** The fields of the forms *)

Lemma assoc_get_groups (b : str) (names : list str) (f : str -> list Placeholder) :
  In b names -> assoc_get b (map (fun n => (n, f n)) names) = Some (f b).
Proof.
  induction names as [|n names IH]; intros Hin; [destruct Hin|].
  cbn [map assoc_get]. destruct (str_eqb n b) eqn:E.
  - apply str_eqb_eq in E. subst n. reflexivity.
  - destruct Hin as [->|Hin]; [|apply IH, Hin].
    apply str_eqb_neq in E. contradiction.
Qed.

Lemma first_seen_nodup (l : list str) :
  forall seen, List.NoDup (first_seen seen l).
Proof.
  induction l as [|x l IH]; intros seen; [constructor|].
  cbn [first_seen]. destruct (existsb (str_eqb x) seen); [apply IH|].
  constructor; [|apply IH].
  intros Hin. apply first_seen_fresh in Hin. apply Hin, in_or_app.
  right. left. reflexivity.
Qed.

Lemma group_get_members (placeholders : list Placeholder) (b : str) :
  In b (base_names placeholders) ->
  group_get b (group_by_base_name placeholders) = members b placeholders.
Proof.
  intros Hb. unfold group_get. rewrite group_by_base_name_eq.
  rewrite (assoc_get_groups b _ (fun n => members n placeholders) Hb). reflexivity.
Qed.

Lemma base_names_members (placeholders : list Placeholder) (b : str) :
  In b (base_names placeholders) -> members b placeholders <> [].
Proof.
  intros Hb. apply members_nonempty. unfold base_names in Hb.
  eapply first_seen_in, Hb.
Qed.

Lemma flat_map_agree {A B} (f g : A -> list B) (l : list A) :
  (forall x, In x l -> f x = g x) -> List.flat_map f l = List.flat_map g l.
Proof.
  induction l as [|x l IH]; intros H; [reflexivity|].
  cbn [List.flat_map]. rewrite (H x (or_introl eq_refl)).
  rewrite IH by (intros y Hy; apply H; right; exact Hy). reflexivity.
Qed.

(** The fields of the form of one template, in closed form. *)
Lemma create_unique_placeholders_eq (placeholders : list Placeholder) :
  create_unique_placeholders placeholders
  = List.flat_map
      (fun b => match members b placeholders with
                | p :: rest => [with_name b (min_by_sort_order p rest)]
                | [] => []
                end)
      (sorted (fun b => min_sort_order_of (members b placeholders))
              (base_names placeholders)).
Proof.
  unfold create_unique_placeholders.
  assert (Hkeys : map fst (group_by_base_name placeholders) = base_names placeholders).
  { rewrite group_by_base_name_eq, map_map. apply map_id. }
  rewrite Hkeys.
  rewrite (sorted_ext _ (fun b => min_sort_order_of (members b placeholders)))
    by (intros b Hb; rewrite (group_get_members _ _ Hb); reflexivity).
  apply flat_map_agree. intros b Hb. apply sorted_in in Hb.
  rewrite (group_get_members _ _ Hb). reflexivity.
Qed.

Lemma flat_map_singletons {A B} (f : A -> list B) (g : A -> B) (l : list A) :
  (forall x, In x l -> f x = [g x]) -> List.flat_map f l = map g l.
Proof.
  induction l as [|x l IH]; intros H; [reflexivity|].
  cbn [List.flat_map map]. rewrite (H x (or_introl eq_refl)).
  rewrite IH by (intros y Hy; apply H; right; exact Hy). reflexivity.
Qed.

(** The member of a base name that the form shows. *)
Lemma create_unique_placeholders_fields (placeholders : list Placeholder) :
  exists pick : str -> Placeholder,
    create_unique_placeholders placeholders
    = map (fun b => with_name b (pick b))
          (sorted (fun b => min_sort_order_of (members b placeholders))
                  (base_names placeholders))
    /\ forall b, In b (base_names placeholders) ->
         In (pick b) placeholders
         /\ base_name_of (ph_name (pick b)) = b
         /\ ph_sort_order (pick b) = min_sort_order_of (members b placeholders)
         /\ forall q, In q placeholders -> base_name_of (ph_name q) = b ->
              (ph_sort_order (pick b) <= ph_sort_order q)%Z.
Proof.
  exists (fun b => match members b placeholders with
                   | p :: rest => min_by_sort_order p rest
                   | [] => with_name b (with_name b
                             {| ph_name := b; ph_display_name := None;
                                ph_placeholder_type := []; ph_is_required := false;
                                ph_options := []; ph_help_text := [];
                                ph_sort_order := 0; ph_bold := false;
                                ph_italic := false; ph_underline := false;
                                ph_casing := []; ph_font_family := None;
                                ph_font_size := None; ph_alignment := None;
                                ph_paragraph_index := 0; ph_run_index := 0;
                                ph_validation_pattern := None;
                                ph_default_value := None |})
                   end).
  split.
  - rewrite create_unique_placeholders_eq. apply flat_map_singletons.
    intros b Hb. apply sorted_in in Hb. apply base_names_members in Hb.
    destruct (members b placeholders); [contradiction | reflexivity].
  - intros b Hb. pose proof (base_names_members _ _ Hb) as Hne.
    destruct (members b placeholders) as [|p rest] eqn:Hm; [contradiction|].
    destruct (min_by_sort_order_spec rest p) as [Hin Hmin].
    assert (Hmem : forall q, In q (p :: rest) <->
                     In q placeholders /\ base_name_of (ph_name q) = b).
    { intros q. rewrite <- Hm. unfold members. rewrite filter_In, str_eqb_eq.
      reflexivity. }
    apply Hmem in Hin as [Hin Hbase].
    split; [exact Hin|]. split; [exact Hbase|].
    split; [apply min_by_sort_order_value|].
    intros q Hq Hqb. apply Hmin, Hmem. split; assumption.
Qed.

(** X19.  The form of a template shows one field for each base name of
    its catalog and no other: the names of the fields are the base names,
    each once.  The fields come by increasing [sort_order], and the field
    of a base name is the entry of that name with the least [sort_order],
    shown under the base name. *)
Theorem create_unique_placeholders_spec (placeholders : list Placeholder) :
  let fields := create_unique_placeholders placeholders in
  Permutation (map ph_name fields) (base_names placeholders)
  /\ List.NoDup (map ph_name fields)
  /\ ascending (map ph_sort_order fields) = true
  /\ forall field, In field fields ->
       exists ph,
         In ph placeholders
         /\ field = with_name (base_name_of (ph_name ph)) ph
         /\ forall q, In q placeholders ->
              base_name_of (ph_name q) = base_name_of (ph_name ph) ->
              (ph_sort_order ph <= ph_sort_order q)%Z.
Proof.
  intros fields. unfold fields.
  destruct (create_unique_placeholders_fields placeholders) as (pick & Heq & Hpick).
  rewrite Heq.
  set (key := fun b => min_sort_order_of (members b placeholders)).
  assert (Hnames : map ph_name (map (fun b => with_name b (pick b))
                                    (sorted key (base_names placeholders)))
                   = sorted key (base_names placeholders)).
  { rewrite map_map. apply map_id. }
  split; [rewrite Hnames; apply sorted_perm|].
  split.
  { rewrite Hnames. eapply Permutation_NoDup; [symmetry; apply sorted_perm|].
    apply first_seen_nodup. }
  split.
  { rewrite map_map. cbn [with_name ph_sort_order].
    rewrite (map_ext_in _ key); [apply sorted_ascending|].
    intros b Hb. apply sorted_in in Hb. apply Hpick, Hb. }
  intros field Hfield. apply in_map_iff in Hfield as (b & <- & Hb).
  apply sorted_in in Hb. destruct (Hpick b Hb) as (Hin & Hbase & _ & Hmin).
  exists (pick b). split; [exact Hin|]. split; [rewrite Hbase; reflexivity|].
  intros q Hq Hqb. apply Hmin; [exact Hq|]. rewrite Hqb. exact Hbase.
Qed.

(** ** The fields of the form of a batch *)

Lemma assoc_get_group_add (b n : str) (ph : Placeholder)
      (g : list (str * list Placeholder)) :
  assoc_get n (group_add b ph g)
  = if str_eqb b n then Some (default [] (assoc_get b g) ++ [ph]) else assoc_get n g.
Proof.
  induction g as [|[k phs] g IH].
  - cbn [group_add assoc_get default app]. reflexivity.
  - cbn [group_add assoc_get]. destruct (str_eqb k b) eqn:Ekb.
    + apply str_eqb_eq in Ekb. subst k. cbn [assoc_get default].
      destruct (str_eqb b n); reflexivity.
    + cbn [assoc_get]. rewrite IH. destruct (str_eqb b n) eqn:Ebn.
      * apply str_eqb_eq in Ebn. subst n. rewrite Ekb. reflexivity.
      * reflexivity.
Qed.

Lemma assoc_get_key {V} (n : str) (g : list (str * V)) :
  In n (map fst g) -> exists v, assoc_get n g = Some v.
Proof.
  induction g as [|[k v] g IH]; intros Hin; [destruct Hin|].
  cbn [assoc_get]. destruct (str_eqb k n) eqn:E; [eexists; reflexivity|].
  destruct Hin as [Hin|Hin]; [|apply IH, Hin].
  cbn [fst] in Hin. apply str_eqb_neq in E. contradiction.
Qed.

Lemma merge_placeholder_invariant state ph :
  merge_invariant state -> merge_invariant (merge_placeholder state ph).
Proof.
  destruct state as [g m]. unfold merge_invariant, merge_placeholder.
  cbn [fst snd]. intros Inv n.
  set (b := base_name_of (ph_name ph)).
  rewrite assoc_get_group_add.
  pose proof (Inv b) as Hb. pose proof (Inv n) as Hn.
  destruct (str_eqb b n) eqn:E.
  - apply str_eqb_eq in E. subst n.
    split; [destruct (default [] (assoc_get b g)); discriminate|].
    destruct (assoc_get b g) as [phs|].
    + destruct Hb as [Hne Hm]. rewrite Hm. cbn [default from_option id].
      rewrite min_sort_order_of_snoc.
      destruct phs as [|p rest]; [contradiction|].
      destruct (Z.ltb_spec (ph_sort_order ph) (min_sort_order_of (p :: rest))).
      * rewrite lookup_insert_eq. f_equal. lia.
      * rewrite Hm. f_equal. lia.
    + rewrite Hb. rewrite lookup_insert_eq. reflexivity.
  - apply str_eqb_neq in E.
    assert (Hm' : forall m', (m' = m \/ m' = <[b := ph_sort_order ph]> m) ->
                    m' !! n = m !! n).
    { intros m' [->| ->]; [reflexivity | apply lookup_insert_ne, E]. }
    match goal with
    | |- context [?m' !! n] =>
        rewrite (Hm' m') by
          (destruct (m !! b); [destruct (_ <? _)%Z|]; auto)
    end.
    exact Hn.
Qed.

Lemma merge_placeholder_groups (placeholders : list Placeholder) :
  forall state,
    fst (fold_left merge_placeholder placeholders state)
    = fold_left (fun grouped ph => group_add (base_name_of (ph_name ph)) ph grouped)
                placeholders (fst state).
Proof.
  induction placeholders as [|ph rest IH]; intros [g m]; [reflexivity|].
  cbn [fold_left]. rewrite IH. reflexivity.
Qed.

Lemma merge_fold_invariant (placeholders : list Placeholder) :
  forall state, merge_invariant state ->
                merge_invariant (fold_left merge_placeholder placeholders state).
Proof.
  induction placeholders as [|ph rest IH]; intros state Inv; [exact Inv|].
  cbn [fold_left]. apply IH, merge_placeholder_invariant, Inv.
Qed.

Lemma merge_rows (rows : list (list Placeholder)) :
  forall state,
    merge_invariant state ->
    merge_invariant
      (fold_left (fun state placeholders => fold_left merge_placeholder placeholders state)
                 rows state)
    /\ fst (fold_left
              (fun state placeholders => fold_left merge_placeholder placeholders state)
              rows state)
       = fold_left (fun grouped ph => group_add (base_name_of (ph_name ph)) ph grouped)
                   (concat rows) (fst state).
Proof.
  induction rows as [|placeholders rows IH]; intros state Inv.
  - split; [exact Inv | reflexivity].
  - cbn [fold_left concat].
    destruct (IH (fold_left merge_placeholder placeholders state)
                 (merge_fold_invariant _ _ Inv)) as [Inv' Hg].
    split; [exact Inv'|].
    rewrite Hg, merge_placeholder_groups, fold_left_app. reflexivity.
Qed.

(** X20.  The form of a batch is the form of one template whose catalog
    is the catalogs of the selected templates one after the other: one
    field for each base name found in any of them, by increasing least
    [sort_order], each the entry of least [sort_order] of its name. *)
Theorem get_merged_placeholders_concat (rows : list (list Placeholder)) :
  get_merged_placeholders rows = create_unique_placeholders (concat rows).
Proof.
  unfold get_merged_placeholders, create_unique_placeholders.
  assert (Inv0 : merge_invariant ([], ∅)).
  { intros n. cbn. apply lookup_empty. }
  destruct (merge_rows rows ([], ∅) Inv0) as [Inv Hg].
  destruct (fold_left _ rows ([], ∅)) as [g m].
  cbn [fst snd] in *. unfold group_by_base_name. rewrite <- Hg.
  rewrite (sorted_ext (fun n => default 0%Z (m !! n))
                      (fun n => min_sort_order_of (group_get n g))).
  - apply flat_map_agree. intros name _. unfold group_get.
    destruct (default [] (assoc_get name g)) as [|p rest]; [reflexivity|].
    destruct (sorted_head rest p) as [tail ->]. reflexivity.
  - intros n Hn. apply assoc_get_key in Hn as [phs Hphs].
    pose proof (Inv n) as Hinv. unfold merge_invariant in Hinv. cbn [fst snd] in Hinv.
    unfold group_get. rewrite Hphs in *. destruct Hinv as [_ ->]. reflexivity.
Qed.

(** ** The form of an ingested template *)

Section IngestedForm.
Context {U : UnicodeData}.

Lemma create_placeholders_go_order (occs : list Occurrence) :
  forallb (fun o => plain_name (occ_name o)) occs = true ->
  forall counters i seen,
    let phs := create_placeholders_go counters i occs in
    let key := fun b => min_sort_order_of (members b phs) in
    ascending (map key (first_seen seen (map occ_name occs))) = true
    /\ forall b, In b (first_seen seen (map occ_name occs)) -> (i <= key b)%Z.
Proof.
  induction occs as [|o occs IH]; intros Hplain counters i seen phs key.
  - split; [reflexivity | intros b []].
  - pose proof Hplain as Hplain0.
    cbn [forallb] in Hplain. apply andb_true_iff in Hplain as [Ho Hrest].
    set (v := occ_name o).
    set (n := Datatypes.S (counter_get counters v)).
    set (phs' := create_placeholders_go (<[v := n]> counters) (i + 1)%Z occs).
    assert (Hphs : phs = placeholder_of_occurrence o i n :: phs') by reflexivity.
    assert (Hother : forall b, b <> v -> members b phs = members b phs').
    { intros b Hb. rewrite Hphs, members_cons.
      cbn [placeholder_of_occurrence ph_name].
      rewrite (instance_name_base _ _ Ho). fold v.
      destruct (str_eqb v b) eqn:E; [|reflexivity].
      apply str_eqb_eq in E. congruence. }
    assert (Hkeyv : key v = i).
    { unfold key. destruct (members v phs) as [|p rest] eqn:Hm.
      - exfalso. revert Hm. rewrite Hphs, members_cons.
        cbn [placeholder_of_occurrence ph_name].
        rewrite (instance_name_base _ _ Ho). fold v.
        unfold str_eqb. rewrite bool_decide_eq_true_2 by reflexivity. discriminate.
      - rewrite <- min_by_sort_order_value.
        destruct (create_placeholders_go_first_member (o :: occs) Hplain0
                    counters i v p rest Hm) as [_ ->].
        revert Hm. rewrite Hphs, members_cons.
        cbn [placeholder_of_occurrence ph_name].
        rewrite (instance_name_base _ _ Ho). fold v.
        unfold str_eqb. rewrite bool_decide_eq_true_2 by reflexivity.
        intros Hm. injection Hm as <- _. reflexivity. }
    cbn [map first_seen]. fold v.
    destruct (existsb (str_eqb v) seen) eqn:Hseen.
    + destruct (IH Hrest (<[v := n]> counters) (i + 1)%Z seen) as [Hasc Hlow].
      fold phs' in Hasc, Hlow.
      assert (Hkey : forall b, In b (first_seen seen (map occ_name occs)) ->
                       key b = min_sort_order_of (members b phs')).
      { intros b Hb. unfold key. rewrite Hother; [reflexivity|].
        intros ->. apply first_seen_fresh in Hb. apply Hb.
        apply existsb_str_eqb, Hseen. }
      split.
      * rewrite (map_ext_in _ _ _ Hkey). exact Hasc.
      * intros b Hb. rewrite (Hkey b Hb). specialize (Hlow b Hb). lia.
    + destruct (IH Hrest (<[v := n]> counters) (i + 1)%Z (seen ++ [v])) as [Hasc Hlow].
      fold phs' in Hasc, Hlow.
      assert (Hkey : forall b, In b (first_seen (seen ++ [v]) (map occ_name occs)) ->
                       key b = min_sort_order_of (members b phs')).
      { intros b Hb. unfold key. rewrite Hother; [reflexivity|].
        intros ->. apply first_seen_fresh in Hb. apply Hb.
        apply in_or_app. right. left. reflexivity. }
      split.
      * cbn [map]. apply ascending_cons. split.
        -- intros y Hy. apply in_map_iff in Hy as (b & <- & Hb).
           rewrite Hkeyv, (Hkey b Hb). specialize (Hlow b Hb). lia.
        -- rewrite (map_ext_in _ _ _ Hkey). exact Hasc.
      * intros b [<-|Hb]; [lia|].
        rewrite (Hkey b Hb). specialize (Hlow b Hb). lia.
Qed.

Lemma ingested_form_names (occurrences : list Occurrence) :
  forallb (fun o => plain_name (occ_name o)) occurrences = true ->
  map ph_name (create_unique_placeholders (create_placeholders occurrences))
  = first_seen [] (map occ_name occurrences).
Proof.
  intros Hplain.
  destruct (create_unique_placeholders_fields (create_placeholders occurrences))
    as (pick & -> & _).
  rewrite map_map. cbn [with_name ph_name]. rewrite map_id.
  unfold base_names, create_placeholders.
  rewrite (create_placeholders_go_base_names occurrences Hplain).
  apply sorted_id.
  apply (create_placeholders_go_order occurrences Hplain ∅ 0%Z []).
Qed.

(** X21.  The form of a template that was just ingested from a document
    with plain names shows each distinct name of the document once, in
    the order in which the names first appear. *)
Theorem create_form_of_ingested (occurrences : list Occurrence) :
  forallb (fun o => plain_name (occ_name o)) occurrences = true ->
  map ph_name (create_unique_placeholders (create_placeholders occurrences))
  = first_seen [] (map occ_name occurrences).
Proof. apply ingested_form_names. Qed.
End IngestedForm.

Lemma create_form_of_ingested_witness :
  map ph_name (create_unique_placeholders sample_catalog) = [lit "name"; lit "date"].
Proof.
  etransitivity.
  - apply (@create_form_of_ingested basic_latin). vm_compute. reflexivity.
  - vm_compute. reflexivity.
Defined.

(** ** The names of the generated files *)

Lemma sanitized_path_safe (name : str) :
  path_safe (replace_char 92 UNDERSCORE
               (replace_char 47 UNDERSCORE (replace_char SPACE UNDERSCORE name))) = true.
Proof.
  unfold path_safe, replace_char. rewrite !map_map. apply forallb_forall.
  intros c Hc. apply in_map_iff in Hc as (x & <- & _).
  unfold SPACE, UNDERSCORE.
  destruct (N.eqb_spec x 32) as [->|H32]; [reflexivity|].
  destruct (N.eqb_spec x 47) as [->|H47]; [reflexivity|].
  destruct (N.eqb_spec x 92) as [->|H92]; [reflexivity|].
  apply negb_true_iff, orb_false_iff. split; [apply orb_false_iff; split|];
    apply N.eqb_neq; assumption.
Qed.

Lemma path_safe_app (a b : str) :
  path_safe (a ++ b) = path_safe a && path_safe b.
Proof. unfold path_safe. apply forallb_app. Qed.

Section FileNames.
Context {U : UnicodeData} {I : Interpreter} {D : DateLibrary} {Sv : Services}.

Lemma replace_chars_safe (name : str) :
  replace_char 92 UNDERSCORE
    (replace_char 47 UNDERSCORE (replace_char SPACE UNDERSCORE name))
  = map safe_char name.
Proof.
  unfold replace_char. rewrite !map_map. apply map_ext. intros c.
  unfold safe_char, SPACE, UNDERSCORE.
  destruct (N.eqb_spec c 32) as [->|H32]; [reflexivity|].
  destruct (N.eqb_spec c 47) as [->|H47]; [reflexivity|].
  destruct (N.eqb_spec c 92) as [->|H92]; reflexivity.
Qed.

Lemma original_filename_prefix (template : Template) (user_inputs : gmap str str)
      (stamp : str) :
  original_filename_of template user_inputs stamp
  = name_prefix user_inputs ++ t_name template ++ lit "_" ++ stamp ++ lit ".docx".
Proof.
  unfold original_filename_of, name_prefix, blank, truthy.
  destruct (user_inputs !! lit "name") as [name|]; cbn [default from_option id].
  - destruct (str_eqb (strip name) []); cbn [negb]; [reflexivity|].
    rewrite replace_chars_safe, <- app_assoc. reflexivity.
  - replace (str_eqb (strip []) []) with true; [reflexivity|].
    symmetry. apply str_eqb_eq. reflexivity.
Qed.

Lemma name_prefix_safe (user_inputs : gmap str str) :
  path_safe (name_prefix user_inputs) = true.
Proof.
  unfold name_prefix. destruct (blank _); [reflexivity|].
  rewrite path_safe_app, <- replace_chars_safe, sanitized_path_safe. reflexivity.
Qed.

(** X22.  The two names of a generated document.  The file is stored
    under a fresh identifier followed by [.docx].  The name offered for
    download is the prefix, the name of the template, an underscore, the
    time stamp read after the file is written, and [.docx].  The prefix
    is empty when no name was given or the name given is blank, and
    otherwise it is the given name, with an underscore in the place of
    every space, slash and backslash, followed by an underscore: the
    prefix holds none of the three characters. *)
Theorem generated_file_names
        (template_id : Z) (user_inputs : gmap str str) (user_name : str)
        (user_email : option str) (w w' : World) (doc : CreatedDocument) :
  generate_document template_id user_inputs user_name user_email w = (Ok doc, w') ->
  cd_file_path doc = uuid4 (w_time w) ++ lit ".docx"
  /\ (exists template,
        get_template template_id w = Ok template
        /\ cd_original_filename doc
           = name_prefix user_inputs ++ t_name template ++ lit "_"
               ++ local_stamp (Datatypes.S (w_time w)) ++ lit ".docx")
  /\ name_prefix user_inputs
     = (let name := default [] (user_inputs !! lit "name") in
        if str_eqb (strip name) [] then []
        else map (fun c => if (c =? SPACE) || (c =? 47) || (c =? 92)
                           then UNDERSCORE else c) name
               ++ lit "_")
  /\ path_safe (name_prefix user_inputs) = true.
Proof.
  unfold generate_document. intros H.
  destruct (get_template template_id w) as [template|e] eqn:Ht; [|discriminate H].
  destruct (validate_inputs (t_placeholders template) user_inputs) as [|m ms];
    [|discriminate H].
  unfold render_and_record in H.
  destruct (docx_load (t_file_path template)) as [loaded|e]; [|discriminate H].
  destruct (prepare_context (lagos_now (w_time w)) template user_inputs true)
    as [context|e]; [|discriminate H].
  destruct (docx_render loaded context) as [rendered|e]; [|discriminate H].
  destruct (docx_reopen rendered) as [post_doc|e]; [|discriminate H].
  injection H as <- <-. cbn [cd_file_path cd_original_filename].
  split; [reflexivity|]. split; [|split; [reflexivity | apply name_prefix_safe]].
  exists template. split; [reflexivity|].
  rewrite original_filename_prefix. reflexivity.
Qed.
End FileNames.

(** A generation with a name of two words. *)
Lemma generated_file_names_witness :
  let run :=
    @generate_document basic_latin literal_interpreter iso_dates sample_services
      1 {[ lit "name" := lit "Ada Obi" ]} (lit "Ada Obi") None sample_world in
  exists doc w',
    run = (Ok doc, w')
    /\ cd_file_path doc = lit "id-0.docx"
    /\ cd_original_filename doc = lit "Ada_Obi_Admission_20260103_090000.docx".
Proof.
  intros run.
  assert (H : exists doc w', run = (Ok doc, w')
                /\ cd_original_filename doc
                   = lit "Ada_Obi_Admission_20260103_090000.docx")
    by (vm_compute; do 2 eexists; split; reflexivity).
  destruct H as (doc & w' & H & Hname). exists doc, w'. split; [exact H|].
  apply (@generated_file_names basic_latin literal_interpreter iso_dates
           sample_services) in H as (Hpath & _).
  split; [rewrite Hpath; vm_compute; reflexivity | exact Hname].
Defined.

(** ** A form that is filled in *)

Lemma dropwhile_nil_iff {A} (p : A -> bool) (l : list A) :
  dropwhile_b p l = [] <-> forallb p l = true.
Proof.
  induction l as [|x l IH]; [cbn; tauto|].
  cbn [dropwhile_b forallb]. destruct (p x); cbn [andb]; [exact IH|].
  split; discriminate.
Qed.

Lemma rdrop_nil_iff {A} (p : A -> bool) (l : list A) :
  rdrop p l = [] <-> forallb p l = true.
Proof.
  induction l as [|c l IH] using rev_ind; [cbn; tauto|].
  rewrite rdrop_snoc, forallb_app. cbn [forallb]. rewrite andb_true_r.
  destruct (p c); [rewrite andb_true_r; exact IH|].
  rewrite andb_false_r. split; [|discriminate].
  intros H. destruct l; discriminate H.
Qed.

Lemma forallb_dropwhile {A} (p : A -> bool) (l : list A) :
  forallb p (dropwhile_b p l) = forallb p l.
Proof.
  induction l as [|x l IH]; [reflexivity|].
  cbn [dropwhile_b forallb]. destruct (p x) eqn:E; cbn [andb forallb];
    [exact IH | rewrite E; reflexivity].
Qed.

Lemma filter_none {A} (f : A -> bool) (l : list A) :
  (forall x, In x l -> f x = false) -> List.filter f l = [].
Proof.
  induction l as [|x l IH]; intros H; [reflexivity|].
  cbn [List.filter]. rewrite (H x (or_introl eq_refl)).
  apply IH. intros y Hy. apply H. right. exact Hy.
Qed.

Section FilledForm.
Context {U : UnicodeData} {I : Interpreter}.

Lemma blank_spaces (s : str) : blank s = forallb isspace s.
Proof.
  unfold blank. rewrite strip_rdrop.
  destruct (forallb isspace s) eqn:E.
  - apply str_eqb_eq, rdrop_nil_iff. rewrite forallb_dropwhile. exact E.
  - apply str_eqb_neq. intros H. apply rdrop_nil_iff in H.
    rewrite forallb_dropwhile in H. congruence.
Qed.

Lemma suffix_letter_space (a b : char) :
  is_suffix_pair a b = true -> isspace (ascii_tolower a) = isspace a.
Proof.
  unfold is_suffix_pair. intros H.
  repeat (apply orb_true_iff in H as [H|H]);
    apply andb_true_iff in H as [Ha _];
    apply N.eqb_eq in Ha; rewrite Ha; reflexivity.
Qed.

Lemma lower_suffixes_spaces (s : str) :
  forall f, forallb isspace (lower_suffixes f s) = forallb isspace s.
Proof.
  induction s as [|c s IH]; intros f; [reflexivity|].
  rewrite lower_suffixes_cons. cbn [forallb]. rewrite IH. f_equal.
  destruct (suffix_here f (c :: s)) eqn:E; [|reflexivity].
  unfold suffix_here in E. apply andb_true_iff in E as [_ E].
  destruct s as [|b rest]; [discriminate E|].
  apply andb_true_iff in E as [E _]. apply (suffix_letter_space c b E).
Qed.

(** The normalisation of ordinal suffixes keeps a text blank or not. *)
Lemma blank_fix_date_ordinal_casing (s : str) :
  blank (fix_date_ordinal_casing s) = blank s.
Proof.
  rewrite !blank_spaces, fix_date_ordinal_casing_eq.
  destruct (isupper s); [reflexivity | apply lower_suffixes_spaces].
Qed.

(** X23.  The form of an ingested template asks for enough.  When every
    field that the form shows is filled in, that is, the submitted form
    holds for it a value that is not blank and its name is not one of the
    two the route keeps for itself, the inputs the route [generate] takes
    from the form pass validation. *)
Theorem create_form_suffices (occurrences : list Occurrence) (form : gmap str str) :
  forallb (fun o => plain_name (occ_name o)) occurrences = true ->
  forallb (filled form) (create_unique_placeholders (create_placeholders occurrences))
  = true ->
  validate_inputs (create_placeholders occurrences) (generate_user_inputs form) = [].
Proof.
  intros Hplain Hfilled.
  rewrite (validate_inputs_ingested_messages occurrences _ Hplain).
  rewrite <- (ingested_form_names occurrences Hplain).
  assert (Hnone : List.filter
                    (fun v => blank (default [] (generate_user_inputs form !! v)))
                    (map ph_name (create_unique_placeholders
                                    (create_placeholders occurrences))) = []).
  { apply filter_none. intros v Hv. apply in_map_iff in Hv as (field & <- & Hfield).
    rewrite forallb_forall in Hfilled. specialize (Hfilled field Hfield).
    unfold filled in Hfilled. apply andb_true_iff in Hfilled as [Hres Hval].
    apply negb_true_iff in Hres, Hval.
    rewrite generate_user_inputs_lookup.
    rewrite bool_decide_eq_false_2.
    - destruct (form !! ph_name field) as [value|]; [|exact Hval].
      cbn [fmap option_fmap option_map default from_option id].
      rewrite blank_fix_date_ordinal_casing. exact Hval.
    - unfold reserved in Hres. apply orb_false_iff in Hres as [H1 H2].
      apply str_eqb_neq in H1, H2. intros [H|H]; contradiction. }
  rewrite Hnone. reflexivity.
Qed.
End FilledForm.

(** The sample form fills in the two fields of the sample catalog. *)
Lemma create_form_suffices_witness :
  @validate_inputs basic_latin literal_interpreter sample_catalog
    (@generate_user_inputs basic_latin sample_form)
  = [].
Proof.
  apply (@create_form_suffices basic_latin literal_interpreter).
  - vm_compute. reflexivity.
  - vm_compute. reflexivity.
Defined.

(** ** The dominant font *)

Section Counters.
Context {K : Type} (eqb : K -> K -> bool).
Hypothesis eqb_eq : forall a b, eqb a b = true <-> a = b.





End Counters.




Section DominantFontFacts.
Context {U : UnicodeData}.

End DominantFontFacts.

(** The sample runs: Arial twice, and 12.5 points twice, which rounds to
    12. *)
Example dominant_font_of_sample :
  @get_dominant_font_and_size basic_latin sample_runs = (lit "Arial", 12%Z).
Proof. vm_compute. reflexivity. Qed.
